(** * micro.py: resource cache, tile / animation addressing and input tracking

    A shallow embedding of [micro/resources.py] and [micro/input.py].

    - Python [int] is [Z]; [//] and [%] are [Z.div] and [Z.modulo] (both
      floor towards minus infinity and follow the sign of the divisor, as
      Python does), with [ZeroDivisionError] written out.
    - Python [float] is the kernel's binary64 [float]; [int(x)] on a float
      is truncation towards zero and raises on NaN and on infinities.
    - Python [str] is [string] (ASCII), [dict] is stdpp's [gmap], [list] is
      [list] with Python's indexing (negative indices, [IndexError]).
    - Exceptions are values of [exn]; a fallible computation returns
      [result A].  Code that reaches outside the interpreter (directory
      listings, SDL loaders) threads a [world] and records its calls.
    - [re.match] is a derivative matcher that accepts a string as soon as
      a prefix of it is matched; it is proved correct for the languages
      of the patterns.

    The first part holds the definitions, module by module in the order
    of the sources; the second part the properties. *)

From Stdlib Require Import ZArith Lia Bool List Ascii String.
From Stdlib Require Import Floats.
From Stdlib Require DecimalString DecimalNat.
From stdpp Require Import base option list gmap strings.
Import ListNotations.

Set Warnings "-inexact-float".

Local Open Scope string_scope.
Local Open Scope Z_scope.

(* ===================================================================== *)
(** ** The fragment of Python the two modules rely on *)
(* ===================================================================== *)

Module Py.

(** The exception classes raised by the modelled code.  [IOError] is
    Python 3's [OSError]; [ConfigParserError] is [configparser.Error],
    the base of what [ConfigParser] raises for a file it cannot parse
    ([MissingSectionHeaderError], [DuplicateSectionError],
    [DuplicateOptionError], [ParsingError]) and for a value it cannot
    interpolate ([InterpolationError]). *)
Inductive exn : Type :=
| ValueError
| KeyError
| IOError
| ZeroDivisionError
| IndexError
| AttributeError
| OverflowError
| UnboundLocalError
| re_error
| ConfigParserError
| UnicodeDecodeError.

Inductive result (A : Type) : Type :=
| Ok (a : A)
| Raise (e : exn).
Arguments Ok {A} a.
Arguments Raise {A} e.

Definition bind {A B} (r : result A) (k : A -> result B) : result B :=
  match r with
  | Ok a => k a
  | Raise e => Raise e
  end.

Definition is_ok {A} (r : result A) : bool :=
  match r with Ok _ => true | Raise _ => false end.

(** [a % b] and [a // b] on Python integers. *)
Definition mod_ (a b : Z) : result Z :=
  if b =? 0 then Raise ZeroDivisionError else Ok (a mod b).

Definition floordiv (a b : Z) : result Z :=
  if b =? 0 then Raise ZeroDivisionError else Ok (a / b).

(** What a [ctypes.c_int] field holds after a Python integer is stored
    in it: the integer reduced to 32 bits, two's complement (ctypes does
    no overflow check). *)
Definition c_int (v : Z) : Z := (v + 2 ^ 31) mod 2 ^ 32 - 2 ^ 31.

(** [len(l)] *)
Definition len {A} (l : list A) : Z := Z.of_nat (length l).

(** [l[i]] on a Python list: a negative index counts from the end. *)
Definition getitem {A} (l : list A) (i : Z) : result A :=
  let j := if i <? 0 then i + len l else i in
  if j <? 0 then Raise IndexError
  else match l !! Z.to_nat j with
       | Some a => Ok a
       | None => Raise IndexError
       end.

(** [l[i] = v] on a Python list. *)
Definition setitem {A} (l : list A) (i : Z) (v : A) : result (list A) :=
  let j := if i <? 0 then i + len l else i in
  if (j <? 0) || (len l <=? j) then Raise IndexError
  else Ok (<[Z.to_nat j := v]> l).

(** *** Characters and strings *)

Definition is_digit (c : ascii) : bool :=
  let n := nat_of_ascii c in (48 <=? n)%nat && (n <=? 57)%nat.

Definition is_lower (c : ascii) : bool :=
  let n := nat_of_ascii c in (97 <=? n)%nat && (n <=? 122)%nat.

Definition is_upper (c : ascii) : bool :=
  let n := nat_of_ascii c in (65 <=? n)%nat && (n <=? 90)%nat.

(** ASCII white space as [str.isspace] has it: TAB, LF, VT, FF, CR, the
    four separators FS, GS, RS, US, and SPACE. *)
Definition is_space (c : ascii) : bool :=
  let n := nat_of_ascii c in
  ((9 <=? n)%nat && (n <=? 13)%nat) || ((28 <=? n)%nat && (n <=? 32)%nat).

Definition lower_char (c : ascii) : ascii :=
  if is_upper c then ascii_of_nat (nat_of_ascii c + 32) else c.

(** [s.lower()] *)
Fixpoint lower (s : string) : string :=
  match s with
  | EmptyString => EmptyString
  | String c r => String (lower_char c) (lower r)
  end.

(** [s.lstrip()] *)
Fixpoint lstrip (s : string) : string :=
  match s with
  | EmptyString => EmptyString
  | String c r => if is_space c then lstrip r else s
  end.

(** [s.rstrip()] *)
Fixpoint rstrip (s : string) : string :=
  match s with
  | EmptyString => EmptyString
  | String c r =>
      match rstrip r with
      | EmptyString => if is_space c then EmptyString else String c EmptyString
      | r' => String c r'
      end
  end.

(** [s.strip()] *)
Definition strip (s : string) : string := rstrip (lstrip s).

(** The white space [int] skips around the digits of an ASCII string: TAB,
    LF, VT, FF, CR and SPACE, and not the four separators FS, GS, RS, US
    that [str.strip] removes. *)
Definition is_c_space (c : ascii) : bool :=
  let n := nat_of_ascii c in
  ((9 <=? n)%nat && (n <=? 13)%nat) || (n =? 32)%nat.

Fixpoint int_lstrip (s : string) : string :=
  match s with
  | EmptyString => EmptyString
  | String c r => if is_c_space c then int_lstrip r else s
  end.

Fixpoint int_rstrip (s : string) : string :=
  match s with
  | EmptyString => EmptyString
  | String c r =>
      match int_rstrip r with
      | EmptyString => if is_c_space c then EmptyString else String c EmptyString
      | r' => String c r'
      end
  end.

(** [int(s)] for a string, base 10: the white space above is skipped on
    both sides, one sign is allowed, and the digits may be grouped by
    single underscores.  [None] stands for [ValueError]. *)
Definition digit_val (c : ascii) : Z := Z.of_nat (nat_of_ascii c) - 48.

Fixpoint int_digits (acc : Z) (prev_digit : bool) (s : string) : option Z :=
  match s with
  | EmptyString => if prev_digit then Some acc else None
  | String c r =>
      if is_digit c then int_digits (10 * acc + digit_val c) true r
      else if Ascii.eqb c "_" then
        if prev_digit then int_digits acc false r else None
      else None
  end.

Definition int_of_str (s : string) : option Z :=
  match int_rstrip (int_lstrip s) with
  | String "-" r => option_map Z.opp (int_digits 0 false r)
  | String "+" r => int_digits 0 false r
  | r => int_digits 0 false r
  end.

(** *** Floats *)

(** The integer part, rounded towards zero, of a finite binary64 value
    given by sign, mantissa and exponent. *)
Definition SF_trunc (x : spec_float) : option Z :=
  match x with
  | S754_zero _ => Some 0
  | S754_finite s m e =>
      let a := if 0 <=? e then Z.pos m * 2 ^ e else Z.pos m / 2 ^ (- e) in
      Some (if s then - a else a)
  | _ => None
  end.

(** The floor, rounded towards minus infinity. *)
Definition SF_floor (x : spec_float) : option Z :=
  match x with
  | S754_zero _ => Some 0
  | S754_finite s m e =>
      Some (if 0 <=? e
            then (if s then - (Z.pos m * 2 ^ e) else Z.pos m * 2 ^ e)
            else (if s then (- Z.pos m) / 2 ^ (- e) else Z.pos m / 2 ^ (- e)))
  | _ => None
  end.

(** [math.floor(x)], where it is defined. *)
Definition floor (x : float) : option Z := SF_floor (Prim2SF x).

(** [math.isfinite(x)] *)
Definition isfinite (x : float) : bool :=
  match Prim2SF x with
  | S754_zero _ | S754_finite _ _ _ => true
  | _ => false
  end.

(** [int(x)] for a float: [ValueError] on NaN, [OverflowError] on an
    infinity, the truncation otherwise. *)
Definition int_of_float (x : float) : result Z :=
  match Prim2SF x with
  | S754_nan => Raise ValueError
  | S754_infinity _ => Raise OverflowError
  | sf => match SF_trunc sf with
          | Some z => Ok z
          | None => Raise ValueError
          end
  end.

(** [float(n)] for an integer that a binary64 holds exactly (here: the
    16-bit joystick readings). *)
Definition float_of_int (n : Z) : float :=
  if n <? 0 then PrimFloat.opp (PrimFloat.of_uint63 (Uint63.of_Z (- n)))
  else PrimFloat.of_uint63 (Uint63.of_Z n).

End Py.

Import Py.

#[global] Instance result_ret : MRet result := @Ok.
#[global] Instance result_bind : MBind result :=
  fun A B k r => Py.bind r k.

(* ===================================================================== *)
(** ** Regular expressions, as [re.match] uses them *)
(* ===================================================================== *)

Module Re.

(** Regular expressions over character classes. *)
Inductive regex : Type :=
| Void
| Eps
| Class (p : ascii -> bool)
| Seq (r1 r2 : regex)
| Alt (r1 r2 : regex)
| Star (r : regex).

(** [Plus r] is [r+], [Opt r] is [r?]. *)
Definition Plus (r : regex) : regex := Seq r (Star r).
Definition Opt (r : regex) : regex := Alt Eps r.
Definition Lit (c : ascii) : regex := Class (Ascii.eqb c).

Fixpoint nullable (r : regex) : bool :=
  match r with
  | Void => false
  | Eps => true
  | Class _ => false
  | Seq r1 r2 => nullable r1 && nullable r2
  | Alt r1 r2 => nullable r1 || nullable r2
  | Star _ => true
  end.

(** Brzozowski derivative. *)
Fixpoint deriv (c : ascii) (r : regex) : regex :=
  match r with
  | Void => Void
  | Eps => Void
  | Class p => if p c then Eps else Void
  | Seq r1 r2 =>
      if nullable r1 then Alt (Seq (deriv c r1) r2) (deriv c r2)
      else Seq (deriv c r1) r2
  | Alt r1 r2 => Alt (deriv c r1) (deriv c r2)
  | Star r1 => Seq (deriv c r1) (Star r1)
  end.

(** [re.fullmatch(r, s) is not None]: the whole of [s] is in the language. *)
Fixpoint fullmatch (r : regex) (s : string) : bool :=
  match s with
  | EmptyString => nullable r
  | String c t => fullmatch (deriv c r) t
  end.

(** [re.match(r, s) is not None]: [re.match] anchors the pattern at the
    start of [s] only, so it succeeds as soon as some prefix of [s] is in
    the language. *)
Fixpoint match_ (r : regex) (s : string) : bool :=
  nullable r ||
  match s with
  | EmptyString => false
  | String c t => match_ (deriv c r) t
  end.

(** The strings a pattern matches as a whole. *)
Inductive lang : regex -> string -> Prop :=
| lang_eps : lang Eps EmptyString
| lang_class p c : p c = true -> lang (Class p) (String c EmptyString)
| lang_seq r1 r2 s1 s2 :
    lang r1 s1 -> lang r2 s2 -> lang (Seq r1 r2) (String.append s1 s2)
| lang_alt_l r1 r2 s : lang r1 s -> lang (Alt r1 r2) s
| lang_alt_r r1 r2 s : lang r2 s -> lang (Alt r1 r2) s
| lang_star_nil r : lang (Star r) EmptyString
| lang_star_cons r s1 s2 :
    lang r s1 -> lang (Star r) s2 -> lang (Star r) (String.append s1 s2).

Definition lower_or_digit (c : ascii) : bool := is_digit c || is_lower c.

(** [r'[a-z][0-9a-z]*'], the resource-name rule of
    [AbstractResourceManager.get]. *)
Definition resource_name : regex :=
  Seq (Class is_lower) (Star (Class lower_or_digit)).

(** [r'[a-z][0-9a-z]+'], the animation-name rule of
    [Image.get_source_rect] and [load_tile_desc]. *)
Definition animation_name : regex :=
  Seq (Class is_lower) (Plus (Class lower_or_digit)).

(** [r'\d+|[a-z][a-z0-9]*(\*\d+)?'], the tile rule of
    [TileMapManager.load_resource]. *)
Definition tile_description : regex :=
  Alt (Plus (Class is_digit))
      (Seq (Class is_lower)
           (Seq (Star (Class lower_or_digit))
                (Opt (Seq (Lit "*") (Plus (Class is_digit)))))).

(** A literal read without regard to letter case ([re.I]). *)
Fixpoint lit_ci (s : string) : regex :=
  match s with
  | EmptyString => Eps
  | String c r => Seq (Class (fun d => Ascii.eqb (lower_char d) (lower_char c))) (lit_ci r)
  end.

Fixpoint alternatives (rs : list regex) : regex :=
  match rs with
  | [] => Void
  | [r] => r
  | r :: rs => Alt r (alternatives rs)
  end.

(** What [re.compile('%s.(%s)' % (name, '|'.join(types)), re.I)] denotes
    when [name] and [types] hold no character that is special in a
    pattern: the name, any one character but a newline, one of the
    types. *)
Definition find_rule (name : string) (types : list string) : regex :=
  Seq (lit_ci name)
      (Seq (Class (fun c => negb (Ascii.eqb c (ascii_of_nat 10))))
           (alternatives (map lit_ci types))).

End Re.

(* ===================================================================== *)
(** ** class Animation *)
(* ===================================================================== *)

Module Animation.

Record t : Type := mk {
  rate : float;
  loop : string;
  frames : list Z
}.

(** The value of the local [index] of [get_frame] when its [return]
    statement is reached. *)
Definition get_frame_index (self : t) (time : float) : result Z :=
  index ← int_of_float (time * rate self)%float;
  if String.eqb (loop self) "none" then
    Ok (Z.min index (len (frames self)))
  else if String.eqb (loop self) "loop" then
    mod_ index (len (frames self))
  else
    Ok index.

(** [get_frame]: [return index + 1]. *)
Definition get_frame (self : t) (time : float) : result Z :=
  index ← get_frame_index self time;
  Ok (index + 1).

(** The frame number as section 4.1 of the specification words it: the
    index is looked up in the frame table before one is added.  This is
    not the code; it is what [get_frame] is compared with. *)
Definition get_frame_through_table (self : t) (time : float) : result Z :=
  index ← get_frame_index self time;
  frame ← getitem (frames self) index;
  Ok (frame + 1).

End Animation.

(* ===================================================================== *)
(** ** class Image *)
(* ===================================================================== *)

(** [SDL_Rect], a [ctypes] structure of four [c_int] fields, each read
    back as an integer. *)
Record SDL_Rect : Type := mkRect { x : Z; y : Z; w : Z; h : Z }.

(** [SDL_Rect(x, y, w, h)], and the four assignments [rect.x = ...] to
    [rect.h = ...] on a fresh [SDL_Rect()]: each field keeps the 32 bits
    of the integer stored in it. *)
Definition SDL_Rect_of (x y w h : Z) : SDL_Rect :=
  mkRect (c_int x) (c_int y) (c_int w) (c_int h).

(** What [get_source_rect] receives as [animation]: an [int] (the
    recursive call passes the result of [get_frame]) or a [str] (a tile of
    a tile-map, or the part of a drawing name after the slash). *)
Inductive reference : Type :=
| RefInt (n : Z)
| RefStr (s : string).

Module Image.

(** The [texture] handle plays no part in the geometry and is left out. *)
Record t : Type := mk {
  width : Z;
  height : Z;
  tile_width : Z;
  tile_height : Z;
  tile_margin : Z;
  tile_spacing : Z;
  animations : gmap string Animation.t
}.

(** [int(animation)], [None] standing for [ValueError]. *)
Definition int_of_reference (animation : reference) : option Z :=
  match animation with
  | RefInt n => Some n
  | RefStr s => int_of_str s
  end.

(** [cols = (self.width - margin * 2) // tile_w] *)
Definition columns (self : t) : result Z :=
  floordiv (width self - tile_margin self * 2) (tile_width self).

(** The body of the [try] of [get_source_rect] once [frame =
    int(animation)] has been computed. *)
Definition frame_rect (self : t) (frame : Z) : result SDL_Rect :=
  if frame =? 0 then
    Ok (SDL_Rect_of 0 0 (width self) (height self))
  else
    let frame := frame - 1 in
    let margin := tile_margin self in
    let tile_w := tile_width self in
    let tile_h := tile_height self in
    let cell_w := tile_w + tile_spacing self in
    let cell_h := tile_h + tile_spacing self in
    cols ← columns self;
    col ← mod_ frame cols;
    row ← floordiv frame cols;
    Ok (SDL_Rect_of (margin + col * cell_w) (margin + row * cell_h) tile_w tile_h).

(** [get_source_rect].  The recursive call of the [except ValueError]
    branch passes the integer that [get_frame] returned, for which
    [int(animation)] is the identity: it runs [frame_rect] (its [time]
    defaults to [0.0] and is not read there).  [get_frame] and
    [frame_rect] raise no [KeyError], so the inner [except KeyError]
    catches the failed dictionary lookup only. *)
Definition get_source_rect (self : t) (animation : reference) (time : float)
  : result SDL_Rect :=
  match int_of_reference animation, animation with
  | Some frame, _ => frame_rect self frame
  | None, RefInt n => frame_rect self n
  | None, RefStr s =>
      let animation := strip s in
      let key := lower animation in
      if negb (Re.match_ Re.animation_name key) then Raise ValueError
      else
        match animations self !! key with
        | None => Raise KeyError
        | Some a =>
            frame ← Animation.get_frame a time;
            frame_rect self frame
        end
  end.

End Image.

(* ===================================================================== *)
(** ** load_tile_desc: the tile geometry *)
(* ===================================================================== *)

Module TileDesc.

(** The four integer properties of the section [.meta] as the metadata
    file gives them; [None] when the file leaves one out
    ([NoOptionError]). *)
Record meta : Type := mkMeta {
  tile_margin : option string;
  tile_width : option string;
  tile_height : option string;
  tile_spacing : option string
}.

(** The local function [getint] of [load_tile_desc], the section being
    present: the default replaces a missing property, and a value that is
    no integer or lies outside [min .. max] raises [IOError]. *)
Definition getint (value : option string) (default min max : Z) : result Z :=
  match match value with
        | Some v => int_of_str v
        | None => Some default
        end with
  | None => Raise IOError
  | Some i => if (i <? min) || (max <? i) then Raise IOError else Ok i
  end.

(** The part of [load_tile_desc] that computes the geometry, and the
    [Image] that [ImageManager.load_resource] builds from it. *)
Definition load_image (width height : Z) (m : meta)
           (animations : gmap string Animation.t) : result Image.t :=
  let shortest := Z.min width height in
  margin ← getint (tile_margin m) 0 0 (shortest / 2 - (1 - shortest mod 2));
  tile_width ← getint (tile_width m) width 1 (width - margin * 2);
  tile_height ← getint (tile_height m) height 1 (height - margin * 2);
  spacing ← getint (tile_spacing m) 0 0 (width - margin * 2 - tile_width);
  Ok (Image.mk width height tile_width tile_height margin spacing animations).

(** The [Image] built when there is no metadata file: one tile, the
    whole image. *)
Definition plain_image (width height : Z) : Image.t :=
  Image.mk width height width height 0 0 ∅.

End TileDesc.

(* ===================================================================== *)
(** ** class TileMap *)
(* ===================================================================== *)

Module TileMap.

Record t : Type := mk {
  tileset : string;
  width : Z;
  height : Z;
  rows : list (list string)
}.

(** The grid as section 3 of the specification reads it: the tile stored
    at a row and a column, a cell missing from a short row being ["0"]. *)
Definition cell (self : t) (row column : nat) : string :=
  match rows self !! row with
  | Some r => default "0" (r !! column)
  | None => "0"
  end.

(** [TileMap.get] *)
Definition get (self : t) (x y : Z) : result string :=
  x ← mod_ x (width self);
  y ← mod_ y (height self);
  row ← getitem (rows self) y;
  if len row <=? x then Ok "0" else getitem row x.

End TileMap.

(* ===================================================================== *)
(** ** find_resource and class AbstractResourceManager *)
(* ===================================================================== *)

Definition FONT_EXTS : list string := ["fon"; "ttf"].
Definition AUDIO_EXTS : list string := ["aif"; "aiff"; "flac"; "mp3"; "ogg"; "wav"].
Definition IMAGE_EXTS : list string :=
  ["bmp"; "gif"; "jpg"; "jpeg"; "png"; "tga"; "tif"; "tiff"].

(** [os.path.join(a, b)] on a POSIX system. *)
Definition path_join (a b : string) : string :=
  match b with
  | String "/" _ => b
  | _ =>
      match a with
      | EmptyString => b
      | _ => if String.eqb (substring (String.length a - 1) 1 a) "/"
             then a ++ b else a ++ "/" ++ b
      end
  end.

Module Resources.

Section Manager.

(** [world] is everything outside the interpreter: the resource
    directories and the SDL libraries.  [resource] is what a loader
    returns when it succeeds (a non-null SDL pointer, an [Image], a
    [TileMap]); [D] is the type of the extra key components (the point
    size of a font). *)
Context {world resource D : Type} `{Countable D}.

(** [re.compile(pattern, re.I)]: [None] when the pattern is not a
    regular expression ([re.error]), else the test
    [rule.match(candidate) is not None]. *)
Variable re_compile_I : string -> option (string -> bool).

(** [os.listdir(root)] *)
Variable listdir : world -> string -> result (list string).

(** [self.api.resources_dirs] *)
Variable resources_dirs : list string.

Definition key : Type := string * list D.

(** The calls that leave the interpreter, in the order they are made. *)
Inductive call : Type :=
| CallListdir (root : string)
| CallLoadInternal (k : key)
| CallLoad (k : key) (filename : string) (meta_filename : option string)
| CallFree (r : resource).

(** A resource kind: the attributes set by [__init__] and the three
    methods a subclass overrides.  A loader returns [Ok None] for a
    result that Python reads as false ([None], a null pointer). *)
Record kind : Type := mkKind {
  resource_type : string;
  file_types : list string;
  meta_file_types : list string;
  load_internal_resource : key -> world -> result (option resource) * world;
  load_resource :
    key -> string -> option string -> world -> result (option resource) * world;
  free_resource : resource -> world -> world
}.

(** The mutable part: [self.cache], the world, and the calls made so
    far.  [order] is the order in which the dictionary [self.cache]
    yields its keys: the order in which they were first stored. *)
Record state : Type := mkState {
  cache : gmap key resource;
  env : world;
  calls : list call;
  order : list key
}.

Definition set_cache (c : gmap key resource) (st : state) : state :=
  mkState c (env st) (calls st) (order st).

Definition record (c : call) (st : state) : state :=
  mkState (cache st) (env st) (calls st ++ [c]) (order st).

Definition set_env (e : world) (st : state) : state :=
  mkState (cache st) e (calls st) (order st).

(** [self.cache[key] = resource]: a new key goes to the end of the
    dictionary, a key already there keeps its place. *)
Definition store (k : key) (r : resource) (st : state) : state :=
  mkState (<[k := r]> (cache st)) (env st) (calls st)
          (match cache st !! k with
           | Some _ => order st
           | None => order st ++ [k]
           end).

(** [self.cache.items()]: the entries in the order of [order].  (Entries
    whose key [order] does not list, which no run of the code produces,
    come last.) *)
Definition items (st : state) : list (key * resource) :=
  omap (fun k => pair k <$> cache st !! k) (remove_dups (order st))
  ++ filter (fun kr => kr.1 ∉ order st) (map_to_list (cache st)).

(** What every run keeps true of [order]: it lists the keys of the cache,
    each once. *)
Definition in_order (st : state) : Prop :=
  NoDup (order st) /\ forall k, k ∈ order st <-> is_Some (cache st !! k).

(** The inner loop of [find_resource] over one directory listing. *)
Fixpoint first_match (rule : string -> bool) (root : string)
         (candidates : list string) : option string :=
  match candidates with
  | [] => None
  | candidate :: rest =>
      if rule candidate then Some (path_join root candidate)
      else first_match rule root rest
  end.

(** The outer loop of [find_resource]. *)
Fixpoint scan_roots (rule : string -> bool) (roots : list string)
         (st : state) : result (option string) * state :=
  match roots with
  | [] => (Ok None, st)
  | root :: rest =>
      let st := record (CallListdir root) st in
      match listdir (env st) root with
      | Raise e => (Raise e, st)
      | Ok candidates =>
          match first_match rule root candidates with
          | Some path => (Ok (Some path), st)
          | None => scan_roots rule rest st
          end
      end
  end.

(** [find_resource(name, types, roots)]; falling off the end returns
    [None]. *)
Definition find_resource (name : string) (types roots : list string)
           (st : state) : result (option string) * state :=
  match re_compile_I (name ++ ".(" ++ String.concat "|" types ++ ")") with
  | None => (Raise re_error, st)
  | Some rule => scan_roots rule roots st
  end.

(** A directory none of whose entries the rule accepts. *)
Definition no_match (rule : string -> bool) (e : world) (root : string) : Prop :=
  exists candidates, listdir e root = Ok candidates /\
                     forall c, c ∈ candidates -> rule c = false.

Variable self : kind.

(** The names an [AbstractResourceManager] answers to: the attributes
    [__init__] sets and the methods of the class. *)
Definition attributes : list string :=
  ["api"; "resource_type"; "file_types"; "meta_file_types"; "cache"; "trace";
   "load_internal_resource"; "load_resource"; "free_resource"; "get"; "dispose"].

(** [raise exc('...' % (self.<attribute>, name))]: the message is built
    first, and reading an attribute the object does not have raises
    [AttributeError] in place of [exc]. *)
Definition raise_with (attribute : string) (exc : exn) : exn :=
  if existsb (String.eqb attribute) attributes then exc else AttributeError.

(** The two [else] branches of the [if resource:] tests:
    [raise IOError('failed to load %s named %r' % (self.reosurce_type, name))]. *)
Definition raise_failed_to_load : exn := raise_with "reosurce_type" IOError.

(** [AbstractResourceManager.get].  ([self.trace] is [False] and never
    set, its messages are left out.) *)
Definition get (name : string) (more_key : list D) (internal : bool)
           (st : state) : result resource * state :=
  let name := strip name in
  let key := lower name in
  if negb internal && negb (Re.match_ Re.resource_name key) then
    (Raise (raise_with "resource_type" ValueError), st)
  else
    let id := key in
    let key := (key, more_key) in
    match cache st !! key with
    | Some r => (Ok r, st)
    | None =>
        if internal then
          let st := record (CallLoadInternal key) st in
          let '(res, e) := load_internal_resource self key (env st) in
          let st := set_env e st in
          match res with
          | Raise ex => (Raise ex, st)
          | Ok (Some r) => (Ok r, store key r st)
          | Ok None => (Raise raise_failed_to_load, st)
          end
        else
          match find_resource id (file_types self) resources_dirs st with
          | (Raise ex, st) => (Raise ex, st)
          | (Ok filename, st) =>
              match
                (match meta_file_types self with
                 | [] => (Ok None, st)
                 | _ => find_resource id (meta_file_types self) resources_dirs st
                 end)
              with
              | (Raise ex, st) => (Raise ex, st)
              | (Ok meta_filename, st) =>
                  match filename with
                  | Some filename =>
                      let st := record (CallLoad key filename meta_filename) st in
                      let '(res, e) :=
                        load_resource self key filename meta_filename (env st) in
                      let st := set_env e st in
                      match res with
                      | Raise ex => (Raise ex, st)
                      | Ok (Some r) => (Ok r, store key r st)
                      | Ok None => (Raise raise_failed_to_load, st)
                      end
                  | None => (Raise (raise_with "resource_type" KeyError), st)
                  end
              end
          end
    end.

(** [AbstractResourceManager.dispose]: the entries are freed in the order
    [self.cache.items()] yields them, then [self.cache = {}]. *)
Definition dispose (st : state) : state :=
  let st :=
    fold_left
      (fun st kr => set_env (free_resource self kr.2 (env st))
                            (record (CallFree kr.2) st))
      (items st) st in
  mkState ∅ (env st) (calls st) [].

End Manager.

Section Kinds.

Context {world resource : Type}.

(** [AbstractResourceManager.load_internal_resource], inherited by every
    kind but the images: [pass], which returns [None]. *)
Definition no_internal_resource {D} (k : string * list D) (e : world)
  : result (option resource) * world := (Ok None, e).

(** [FontManager]: the loader is [TTF_OpenFont(filename.encode(), key[1])],
    a null pointer when the file cannot be opened as a font. *)
Definition FontManager
  (TTF_OpenFont : string -> Z -> world -> option resource * world)
  (TTF_CloseFont : resource -> world -> world)
  : kind (world := world) (resource := resource) (D := Z) :=
  mkKind "font" FONT_EXTS [] no_internal_resource
    (fun key filename _ e =>
       match key.2 with
       | size :: _ => let '(font, e) := TTF_OpenFont filename size e in (Ok font, e)
       | [] => (Raise IndexError, e)
       end)
    TTF_CloseFont.

(** [MusicManager]: [Mix_LoadMUS(filename.encode())]. *)
Definition MusicManager
  (Mix_LoadMUS : string -> world -> option resource * world)
  (Mix_FreeMusic : resource -> world -> world)
  : kind (world := world) (resource := resource) (D := Z) :=
  mkKind "music" AUDIO_EXTS [] no_internal_resource
    (fun _ filename _ e => let '(m, e) := Mix_LoadMUS filename e in (Ok m, e))
    Mix_FreeMusic.

(** [SoundManager]: [Mix_LoadWAV(filename.encode())]. *)
Definition SoundManager
  (Mix_LoadWAV : string -> world -> option resource * world)
  (Mix_FreeChunk : resource -> world -> world)
  : kind (world := world) (resource := resource) (D := Z) :=
  mkKind "sound" AUDIO_EXTS [] no_internal_resource
    (fun _ filename _ e => let '(c, e) := Mix_LoadWAV filename e in (Ok c, e))
    Mix_FreeChunk.

End Kinds.

End Resources.

(* ===================================================================== *)
(** ** class TileMapManager *)
(* ===================================================================== *)

Module TileMapManager.

Definition newline : ascii := ascii_of_nat 10.

(** [re.sub(r'[#;].*', '', s)]: from each [#] or [;] to the end of its
    line, the dot matching everything but a newline. *)
Fixpoint strip_comments_from (in_comment : bool) (s : string) : string :=
  match s with
  | EmptyString => EmptyString
  | String c r =>
      if in_comment then
        if Ascii.eqb c newline then String c (strip_comments_from false r)
        else strip_comments_from true r
      else if Ascii.eqb c "#" || Ascii.eqb c ";" then strip_comments_from true r
      else String c (strip_comments_from false r)
  end.

Definition strip_comments (s : string) : string := strip_comments_from false s.

(** [''.join(s.split())]: all white space removed. *)
Fixpoint remove_spaces (s : string) : string :=
  match s with
  | EmptyString => EmptyString
  | String c r => if is_space c then remove_spaces r else String c (remove_spaces r)
  end.

(** [''.join(re.sub(r'[#;].*', '', line.lower()).split())] *)
Definition clean (line : string) : string :=
  remove_spaces (strip_comments (lower line)).

(** A line that is blank once comments and white space are removed. *)
Definition blank (line : string) : Prop := clean line = "".

(** A line that holds the [tiles] directive for the tile set [name]. *)
Definition directive (name line : string) : Prop :=
  clean line = String.append "tiles:" name \/ clean line = String.append "tiles=" name.

(** [s.split(',')] *)
Fixpoint split_commas (s : string) : list string :=
  match s with
  | EmptyString => [EmptyString]
  | String c r =>
      if Ascii.eqb c "," then EmptyString :: split_commas r
      else match split_commas r with
           | [] => [String c EmptyString]
           | x :: xs => String c x :: xs
           end
  end.

Fixpoint take_digits (s : string) : string :=
  match s with
  | EmptyString => EmptyString
  | String c r => if is_digit c then String c (take_digits r) else EmptyString
  end.

Definition starts_with_digit (s : string) : bool :=
  match s with
  | EmptyString => false
  | String c _ => is_digit c
  end.

(** [re.match(r'(.*?)\*(\d+)', tile)]: the two groups at the first star
    that a digit follows, [None] when there is none. *)
Fixpoint repeat_groups (tile : string) : option (string * string) :=
  match tile with
  | EmptyString => None
  | String c r =>
      if Ascii.eqb c "*" && starts_with_digit r then
        Some (EmptyString, take_digits r)
      else if Ascii.eqb c newline then None
      else match repeat_groups r with
           | Some (g1, g2) => Some (String c g1, g2)
           | None => None
           end
  end.

(** [int(s)] on a string of digits. *)
Fixpoint int_of_digits (acc : Z) (s : string) : Z :=
  match s with
  | EmptyString => acc
  | String c r => int_of_digits (10 * acc + digit_val c) r
  end.

(** The inner loop of [load_resource] over the tiles of one line. *)
Fixpoint parse_tiles (tiles : list string) (row : list string)
  : result (list string) :=
  match tiles with
  | [] => Ok row
  | tile :: rest =>
      if negb (String.eqb tile "") && negb (Re.match_ Re.tile_description tile)
      then Raise IOError
      else
        let tile := if String.eqb tile "" then "0" else tile in
        let '(tile, count) :=
          match repeat_groups tile with
          | Some (g1, g2) => (g1, int_of_digits 0 g2)
          | None => (tile, 1)
          end in
        parse_tiles rest (row ++ repeat tile (Z.to_nat count))
  end.

(** [re.split(r'[:=]', line, 1)[1]] *)
Fixpoint after_first_sep (line : string) : result string :=
  match line with
  | EmptyString => Raise IndexError
  | String c r =>
      if Ascii.eqb c ":" || Ascii.eqb c "=" then Ok r else after_first_sep r
  end.

Section Loader.

Context {world : Type}.

(** [self.api.resources.get_image(tileset)], called for its effect (the
    tile set is loaded, or the call raises). *)
Variable get_image : string -> world -> result unit * world.

(** The locals of [load_resource]; [tileset] is unbound until the
    [tiles] directive is read. *)
Record locals : Type := mkLocals {
  tiles_read : bool;
  width : Z;
  rows : list (list string);
  tileset : option string
}.

(** The body of [for line in f]. *)
Definition step (line : string) (l : locals) (e : world)
  : result locals * world :=
  let line := clean line in
  if String.eqb line "" then (Ok l, e)
  else if tiles_read l then
    match parse_tiles (split_commas line) [] with
    | Raise ex => (Raise ex, e)
    | Ok row =>
        (Ok (mkLocals true (Z.max (width l) (len row)) (rows l ++ [row])
                      (tileset l)), e)
    end
  else
    let head := substring 0 6 line in
    if String.eqb head "tiles:" || String.eqb head "tiles=" then
      match after_first_sep line with
      | Raise ex => (Raise ex, e)
      | Ok name =>
          match get_image name e with
          | (Raise ex, e) => (Raise ex, e)
          | (Ok _, e) => (Ok (mkLocals true (width l) (rows l) (Some name)), e)
          end
      end
    else (Raise IOError, e).

Fixpoint run (lines : list string) (l : locals) (e : world)
  : result locals * world :=
  match lines with
  | [] => (Ok l, e)
  | line :: rest =>
      match step line l e with
      | (Raise ex, e) => (Raise ex, e)
      | (Ok l, e) => run rest l e
      end
  end.

(** [TileMapManager.load_resource], on the lines of the opened file. *)
Definition load_resource (lines : list string) (e : world)
  : result TileMap.t * world :=
  match run lines (mkLocals false 0 [] None) e with
  | (Raise ex, e) => (Raise ex, e)
  | (Ok l, e) =>
      let height := len (rows l) in
      match tileset l with
      | None => (Raise UnboundLocalError, e)
      | Some tileset => (Ok (TileMap.mk tileset (width l) height (rows l)), e)
      end
  end.

End Loader.

End TileMapManager.

(* ===================================================================== *)
(** ** input.py: class Joystick *)
(* ===================================================================== *)

(** [range(n)] *)
Definition range (n : Z) : list Z := seqZ 0 n.

Module Joystick.

(** What SDL reports for one joystick while [update] runs:
    [SDL_JoystickNumButtons], [SDL_JoystickGetButton],
    [SDL_JoystickNumAxes] and [SDL_JoystickGetAxis] (a signed 16-bit
    reading). *)
Record device : Type := mkDevice {
  NumButtons : Z;
  GetButton : Z -> Z;
  NumAxes : Z;
  GetAxis : Z -> Z
}.

Record t : Type := mk {
  buttons : list Z;
  axis : list float;
  daxis : list Z
}.

(** [Joystick.__init__] *)
Definition init (d : device) : t :=
  mk (repeat 0 (Z.to_nat (NumButtons d)))
     (repeat 0%float (Z.to_nat (NumAxes d)))
     (repeat 0 (Z.to_nat (NumAxes d * 2))).

(** The body of the loop over the buttons. *)
Definition button_step (d : device) (button : Z) (buttons : list Z)
  : result (list Z) :=
  let state := GetButton d button in
  if negb (state =? 0) then
    old ← getitem buttons button;
    setitem buttons button (old + 1)
  else
    setitem buttons button 0.

(** The value assigned to [self.axis[axis]]: the reading scaled, and for
    axis 1 negated, a zero replaced by [0.0]. *)
Definition normalize (axis : Z) (value : Z) : float :=
  let value :=
    if 0 <? value then (float_of_int value / 32767.0)%float
    else (float_of_int value / 32768.0)%float in
  if axis =? 1 then
    let value := (- value)%float in
    if (value =? 0)%float then 0%float else value
  else value.

(** The two [if] statements on [self.daxis]. *)
Definition daxis_step (axis : Z) (value : float) (daxis : list Z)
  : result (list Z) :=
  daxis ←
    (if (value <? - 0.333)%float then
       old ← getitem daxis (axis * 2 + 0);
       setitem daxis (axis * 2 + 0) (old + 1)
     else setitem daxis (axis * 2 + 0) 0);
  if (0.333 <? value)%float then
    old ← getitem daxis (axis * 2 + 1);
    setitem daxis (axis * 2 + 1) (old + 1)
  else setitem daxis (axis * 2 + 1) 0.

(** The body of the loop over the axes. *)
Definition axis_step (d : device) (a : Z) (st : list float * list Z)
  : result (list float * list Z) :=
  let value := normalize a (GetAxis d a) in
  daxis ← daxis_step a value st.2;
  axis ← setitem st.1 a value;
  Ok (axis, daxis).

Fixpoint for_each {A} (body : Z -> A -> result A) (l : list Z) (a : A)
  : result A :=
  match l with
  | [] => Ok a
  | i :: rest => a ← body i a; for_each body rest a
  end.

(** The claim's wording of the normalized value: the reading divided by
    32768.0 when negative and by 32767.0 otherwise, axis 1 negated and
    its zero made positive.  This is what [normalize] is compared with. *)
Definition normalized_as_claimed (axis : Z) (value : Z) : float :=
  let q :=
    if value <? 0 then (float_of_int value / 32768.0)%float
    else (float_of_int value / 32767.0)%float in
  if axis =? 1 then
    let q := (- q)%float in
    if (q =? 0)%float then 0%float else q
  else q.

(** A directional counter after one update, given the normalized value
    and the counter before. *)
Definition negative_count (value : float) (old : Z) : Z :=
  if (value <? - 0.333)%float then old + 1 else 0.

Definition positive_count (value : float) (old : Z) : Z :=
  if (0.333 <? value)%float then old + 1 else 0.

(** [Joystick.update] *)
Definition update (d : device) (self : t) : result t :=
  buttons ← for_each (button_step d) (range (NumButtons d)) (buttons self);
  st ← for_each (axis_step d) (range (NumAxes d)) (axis self, daxis self);
  Ok (mk buttons st.1 st.2).

(** Several frames in a row. *)
Fixpoint updates (ds : list device) (self : t) : result (list t) :=
  match ds with
  | [] => Ok []
  | d :: rest =>
      self ← update d self;
      later ← updates rest self;
      Ok (self :: later)
  end.

End Joystick.

(* ===================================================================== *)
(** ** input.py: class InputHandler *)
(* ===================================================================== *)

Module InputHandler.

(** The events [process] tells apart. *)
Inductive event : Type :=
| SDL_KEYDOWN (sym : Z) (repeat : bool)
| SDL_KEYUP (sym : Z)
| SDL_OTHER.

(** The replacement of [key_name] for one character of the lowered SDL
    name; white space other than the blank is matched by [\s] and missing
    from the table ([KeyError]). *)
Definition key_name_char (c : ascii) : result string :=
  if Ascii.eqb c " " then Ok "_"
  else if is_space c then Raise KeyError
  else if Ascii.eqb c "\" then Ok "backslash"
  else if Ascii.eqb c "." then Ok "period"
  else if Ascii.eqb c "," then Ok "comma"
  else if Ascii.eqb c "/" then Ok "slash"
  else if Ascii.eqb c "#" then Ok "hash"
  else if Ascii.eqb c "'" then Ok "quote"
  else if Ascii.eqb c ";" then Ok "semicolon"
  else if Ascii.eqb c "[" then Ok "open_bracket"
  else if Ascii.eqb c "]" then Ok "close_bracket"
  else if Ascii.eqb c "`" then Ok "backtick"
  else if Ascii.eqb c "-" then Ok "minus"
  else if Ascii.eqb c "=" then Ok "equals"
  else if Ascii.eqb c "+" then Ok "plus"
  else if Ascii.eqb c "*" then Ok "asterisk"
  else Ok (String c EmptyString).

Fixpoint key_name_sub (name : string) : result string :=
  match name with
  | EmptyString => Ok EmptyString
  | String c r =>
      a ← key_name_char c;
      b ← key_name_sub r;
      Ok (a ++ b)
  end.

(** What SDL reports while [InputHandler.update] runs: one device per
    opened joystick, in the order of [self.joysticks], and the button bits
    of [SDL_GetMouseState]. *)
Record sample : Type := mkSample {
  devices : list Joystick.device;
  button_bits : Z
}.

(** The counters of [InputHandler].  The mouse position ([mouse],
    [mouse_prev], [mouse_rel]) is computed at the end of [update] from the
    window size and is left out: nothing else reads or writes it. *)
Record t : Type := mk {
  keys : gmap string Z;
  joysticks : list (string * Joystick.t);
  mouse_left : Z;
  mouse_middle : Z;
  mouse_right : Z
}.

Section Handler.

(** [SDL_GetKeyName(id).decode()] *)
Variable SDL_GetKeyName : Z -> string.

(** [InputHandler.key_name] *)
Definition key_name (id : Z) : result string :=
  key_name_sub (lower (SDL_GetKeyName id)).

(** [InputHandler.key] *)
Definition key (self : t) (key_name : string) : Z :=
  default 0 (keys self !! lower (strip key_name)).

Fixpoint update_joysticks (js : list (string * Joystick.t))
         (ds : list Joystick.device) : result (list (string * Joystick.t)) :=
  match js, ds with
  | (name, j) :: js, d :: ds =>
      j ← Joystick.update d j;
      js ← update_joysticks js ds;
      Ok ((name, j) :: js)
  | _, _ => Ok js
  end.

(** [InputHandler.update], up to the mouse buttons.  (The counters are
    updated in place; when a joystick raises, the result is the
    exception and the half-updated object is not returned.) *)
Definition update (s : sample) (self : t) : result t :=
  let keys := (fun n => n + 1) <$> keys self in
  joysticks ← update_joysticks (joysticks self) (devices s);
  let bit (mask old : Z) := if negb (Z.land (button_bits s) mask =? 0)
                            then old + 1 else 0 in
  Ok (mk keys joysticks
         (bit 1 (mouse_left self)) (bit 2 (mouse_middle self))
         (bit 4 (mouse_right self))).

(** [InputHandler.process] *)
Definition process (ev : event) (self : t) : result t :=
  match ev with
  | SDL_KEYDOWN sym repeat =>
      if negb repeat then
        name ← key_name sym;
        Ok (mk (<[name := 1]> (keys self)) (joysticks self)
               (mouse_left self) (mouse_middle self) (mouse_right self))
      else Ok self
  | SDL_KEYUP sym =>
      name ← key_name sym;
      match keys self !! name with
      | Some _ =>
          Ok (mk (delete name (keys self)) (joysticks self)
                 (mouse_left self) (mouse_middle self) (mouse_right self))
      | None => Raise KeyError
      end
  | SDL_OTHER => Ok self
  end.

(** [MicroPyApi.update] as far as the input goes: [self.input.update()],
    then [self.poll()], which hands every pending event to [process]. *)
Fixpoint poll (events : list event) (self : t) : result t :=
  match events with
  | [] => Ok self
  | ev :: rest => self ← process ev self; poll rest self
  end.

Definition api_update (s : sample) (events : list event) (self : t) : result t :=
  self ← update s self;
  poll events self.

(** The values [key(name)] returns when it is called after each of a
    series of calls of [InputHandler.update]. *)
Fixpoint readings (name : string) (ss : list sample) (self : t) : result (list Z) :=
  match ss with
  | [] => Ok []
  | s :: rest =>
      self ← update s self;
      later ← readings name rest self;
      Ok (key self name :: later)
  end.

(** The same, called once per frame after [MicroPyApi.update]. *)
Fixpoint frame_readings (name : string) (frames : list (sample * list event))
         (self : t) : result (list Z) :=
  match frames with
  | [] => Ok []
  | (s, events) :: rest =>
      self ← api_update s events self;
      later ← frame_readings name rest self;
      Ok (key self name :: later)
  end.

End Handler.

End InputHandler.

(* ===================================================================== *)
(** ** Concrete inputs for the examples *)
(* ===================================================================== *)

Module Scenario.

Import Resources.

(** The directory [res] holds [notes.txt] and [Arial.TTF]; [builtin] is
    empty. *)
Definition listdir (e : unit) (root : string) : result (list string) :=
  if String.eqb root "res" then Ok ["notes.txt"; "Arial.TTF"] else Ok [].

Definition resources_dirs : list string := ["res"; "builtin"].

(** [re.compile] on the three patterns the requests below build. *)
Definition compile (pattern : string) : option (string -> bool) :=
  if String.eqb pattern "arial.(fon|ttf)"
  then Some (Re.match_ (Re.find_rule "arial" FONT_EXTS))
  else if String.eqb pattern "courier.(fon|ttf)"
  then Some (Re.match_ (Re.find_rule "courier" FONT_EXTS))
  else if String.eqb pattern "a-b.(fon|ttf)"
  then Some (Re.match_ (Re.find_rule "a-b" FONT_EXTS))
  else None.

(** A font manager whose [TTF_OpenFont] succeeds with handle 1, and one
    for which [Arial.TTF] is not a font: [TTF_OpenFont] returns NULL. *)
Definition fonts : kind (world := unit) (resource := nat) (D := Z) :=
  FontManager (fun _ _ e => (Some 1%nat, e)) (fun _ e => e).

Definition corrupt_fonts : kind (world := unit) (resource := nat) (D := Z) :=
  FontManager (fun _ _ e => (None, e)) (fun _ e => e).

Definition st0 : state (world := unit) (resource := nat) (D := Z) :=
  mkState ∅ tt [] [].

Definition get_font (self : kind (world := unit) (resource := nat) (D := Z)) :=
  get compile listdir resources_dirs self.

(** A keyboard on which key 97 is called [A], no joystick, no mouse
    button down. *)
Definition key_a (id : Z) : string := "A".
Definition idle : InputHandler.sample := InputHandler.mkSample [] 0.
Definition no_input : InputHandler.t := InputHandler.mk ∅ [] 0 0 0.

(** A tile-map file with a comment, the directive and an empty line; and
    a [get_image] that finds every tile set. *)
Definition only_directive : list string :=
  [String.append "# level one" (String TileMapManager.newline EmptyString);
   String.append "tiles: my_tiles  ; the tile set"
                 (String TileMapManager.newline EmptyString);
   String TileMapManager.newline EmptyString].

Definition image_found (name : string) (e : unit) : result unit * unit := (Ok (), e).

(** A stick with no button and two axes: axis 0 rests at the reading 6553
    (normalized just under 0.2) and axis 1 is held at -16384, which
    normalizes to exactly 0.5. *)
Definition stick : Joystick.device :=
  Joystick.mkDevice 0 (fun _ => 0) 2 (fun a => if a =? 1 then -16384 else 6553).

End Scenario.

(* ===================================================================== *)
(** ** Notions used to state further properties *)
(* ===================================================================== *)

Module Spec.

(** A tile reference as the tile-map loader stores it: not empty, and
    starting with a digit or a lower-case letter. *)
Definition cell_ok (c : string) : bool :=
  match c with
  | String ch _ => is_digit ch || is_lower ch
  | EmptyString => false
  end.

(** The first six characters of a cleaned line are the [tiles] directive. *)
Definition directive_head (line : string) : bool :=
  String.eqb (substring 0 6 (TileMapManager.clean line)) "tiles:"
  || String.eqb (substring 0 6 (TileMapManager.clean line)) "tiles=".

(** What the loop of the tile-map loader keeps true of its locals: no
    row is longer than the width, the width of no rows is 0, some row is
    as long as the width, every stored cell is well formed, and no row is
    stored before the directive. *)
Definition grid_ok (l : TileMapManager.locals) : Prop :=
  (forall row, row ∈ TileMapManager.rows l -> len row <= TileMapManager.width l) /\
  (TileMapManager.rows l = [] -> TileMapManager.width l = 0) /\
  (TileMapManager.rows l <> [] ->
   exists row, row ∈ TileMapManager.rows l /\ len row = TileMapManager.width l) /\
  (forall row c, row ∈ TileMapManager.rows l -> c ∈ row -> cell_ok c = true) /\
  (TileMapManager.tiles_read l = false -> TileMapManager.rows l = []).

(** The sizes [Joystick.__init__] gives the three lists of a joystick. *)
Definition well_sized (d : Joystick.device) (j : Joystick.t) : Prop :=
  len (Joystick.buttons j) = Joystick.NumButtons d /\
  len (Joystick.axis j) = Joystick.NumAxes d /\
  len (Joystick.daxis j) = 2 * Joystick.NumAxes d.

(** Every key that has an entry has been held for at least one frame. *)
Definition keys_positive (self : InputHandler.t) : Prop :=
  forall k n, InputHandler.keys self !! k = Some n -> 1 <= n.

(** No character of the string satisfies the test. *)
Fixpoint none_of (p : ascii -> bool) (s : string) : bool :=
  match s with
  | EmptyString => true
  | String c r => negb (p c) && none_of p r
  end.

End Spec.

(* ===================================================================== *)
(** ** input.py: the joysticks of InputHandler *)
(* ===================================================================== *)

Module Joysticks.

(** [re.sub(r'[^0-9a-z]', '', s)]: the characters the test keeps. *)
Fixpoint keep (p : ascii -> bool) (s : string) : string :=
  match s with
  | EmptyString => EmptyString
  | String c r => if p c then String c (keep p r) else keep p r
  end.

(** [s.split()]: the words between runs of white space. *)
Fixpoint words (s : string) : list string :=
  match s with
  | EmptyString => []
  | String c r =>
      if is_space c then words r
      else match r with
           | EmptyString => [String c EmptyString]
           | String d _ =>
               if is_space d then String c EmptyString :: words r
               else match words r with
                    | w :: ws => String c w :: ws
                    | [] => [String c EmptyString]
                    end
           end
  end.

(** ['%d' % n] *)
Definition decimal (n : nat) : string :=
  DecimalString.NilEmpty.string_of_uint (Nat.to_uint n).

(** [base_name] of [InputHandler.__init__], from the name
    [SDL_JoystickName] reports. *)
Definition base_name (display : string) : string :=
  String.concat "_" (words (keep Re.lower_or_digit (lower display))).

(** [self.joysticks], a dictionary in insertion order, and
    [self.default_joystick].  The default is the very object stored in
    the dictionary; it is kept as the name it is stored under. *)
Record t : Type := mk {
  joysticks : list (string * Joystick.t);
  default_joystick : option string
}.

(** [name in self.joysticks] and [self.joysticks[name]] *)
Definition has_name (js : list (string * Joystick.t)) (name : string) : bool :=
  existsb (fun p => String.eqb p.1 name) js.

Definition lookup (js : list (string * Joystick.t)) (name : string)
  : option Joystick.t :=
  snd <$> List.find (fun p => String.eqb p.1 name) js.

(** The [while candidate in self.joysticks] loop, [fuel] bounding the
    number of times its body runs. *)
Fixpoint unique_name (fuel : nat) (js : list (string * Joystick.t))
         (base candidate : string) (index : nat) : option string :=
  if has_name js candidate then
    match fuel with
    | O => None
    | S fuel => unique_name fuel js base (String.append base (decimal index)) (S index)
    end
  else Some candidate.

(** The body of the [for] loop for a joystick that opened.  The loop
    runs at most once per stored name. *)
Definition add (display : string) (d : Joystick.device) (self : t) : option t :=
  let base_name := base_name display in
  match unique_name (length (joysticks self)) (joysticks self)
                    base_name base_name 2 with
  | None => None
  | Some name =>
      Some (mk (joysticks self ++ [(name, Joystick.init d)])
               (match default_joystick self with
                | None => Some name
                | Some first => Some first
                end))
  end.

(** The [for] loop over [range(SDL_NumJoysticks())]: a port is [None]
    when [SDL_JoystickOpen] returns NULL. *)
Fixpoint open_all (ports : list (option (string * Joystick.device))) (self : t)
  : option t :=
  match ports with
  | [] => Some self
  | None :: rest => open_all rest self
  | Some (display, d) :: rest =>
      match add display d self with
      | None => None
      | Some self => open_all rest self
      end
  end.

(** The joystick part of [InputHandler.__init__]. *)
Definition init (ports : list (option (string * Joystick.device))) : option t :=
  open_all ports (mk [] None).

(** [InputHandler.get_joystick] *)
Definition get_joystick (self : t) (joystick_name : option string)
  : result (option Joystick.t) :=
  match joystick_name with
  | Some name =>
      match lookup (joysticks self) (strip (lower name)) with
      | Some j => Ok (Some j)
      | None => Raise KeyError
      end
  | None =>
      match default_joystick self with
      | Some first => Ok (lookup (joysticks self) first)
      | None => Ok None
      end
  end.

(** [InputHandler.axis_count] and [InputHandler.button_count] *)
Definition axis_count (self : t) (joystick_name : option string) : result Z :=
  joystick ← get_joystick self joystick_name;
  match joystick with
  | None => Ok 0
  | Some j => Ok (len (Joystick.axis j))
  end.

Definition button_count (self : t) (joystick_name : option string) : result Z :=
  joystick ← get_joystick self joystick_name;
  match joystick with
  | None => Ok 0
  | Some j => Ok (len (Joystick.buttons j))
  end.

(** [InputHandler.get_daxis] *)
Definition get_daxis (self : t) (index dir : Z) (joystick_name : option string)
  : result Z :=
  joystick ← get_joystick self joystick_name;
  match joystick with
  | None => Ok 0
  | Some j =>
      if (0 <=? index) && (index <? len (Joystick.axis j))
      then getitem (Joystick.daxis j) (index * 2 + dir)
      else Ok 0
  end.

(** [InputHandler.get_button] *)
Definition get_button (self : t) (index : Z) (joystick_name : option string)
  : result Z :=
  joystick ← get_joystick self joystick_name;
  match joystick with
  | None => Ok 0
  | Some j =>
      if (0 <=? index) && (index <? len (Joystick.buttons j))
      then getitem (Joystick.buttons j) index
      else Ok 0
  end.

(** The candidates the loop tries, in order: the base name, then the base
    name followed by 2, 3, ... *)
Definition candidate (base : string) (i : nat) : string :=
  match i with
  | O => base
  | S _ => String.append base (decimal (S i))
  end.

(** The ports that opened, in order. *)
Definition opened (ports : list (option (string * Joystick.device)))
  : list (string * Joystick.device) := omap id ports.

(** A stored name comes from a display name: its base name, or its base
    name followed by a number from 2 on. *)
Definition named_after (name : string) (port : string * Joystick.device) : Prop :=
  name = base_name port.1 \/
  exists i, (2 <= i)%nat /\ name = String.append (base_name port.1) (decimal i).

End Joysticks.

(* ===================================================================== *)
(** * resources.py: [load_tile_desc], the sections of the metadata file *)
(* ===================================================================== *)

Module LoadTileDesc.

(** What [ConfigParser] answers for the options of a section: no entry
    for an option the section (and the defaults) do not give, the value
    after interpolation, or the [InterpolationError] that [config.get]
    raises for a value it cannot interpolate. *)
Definition options : Type := gmap string (result string).

(** What [config.read] leaves: the sections in the order of
    [config.sections()].  A file that is missing or empty gives the
    empty list; a file that cannot be parsed or decoded makes
    [config.read] raise, and there is no list. *)
Definition config : Type := list (string * options).

(** [config.get(section, option)] with a fallback, [None] standing for
    the fallback. *)
Definition get_option (o : options) (property : string) : result (option string) :=
  match o !! property with
  | None => Ok None
  | Some (Ok value) => Ok (Some value)
  | Some (Raise e) => Raise e
  end.

(** The body of the loop over [frames_str]: what is no integer counts as
    -1, and a negative frame raises [IOError]. *)
Definition frame_of (frame : string) : result Z :=
  let frame := match int_of_str (strip frame) with
               | Some i => i
               | None => -1
               end in
  if frame <? 0 then Raise IOError else Ok frame.

Fixpoint frames_of (frames_str : list string) : result (list Z) :=
  match frames_str with
  | [] => Ok []
  | frame :: rest =>
      frame ← frame_of frame;
      frames ← frames_of rest;
      Ok (frame :: frames)
  end.

(** The section of a name; [None] is [NoSectionError]. *)
Definition section_of (c : config) (name : string) : option options :=
  snd <$> List.find (fun s => String.eqb s.1 name) c.

(** The local function [getint]: [NoSectionError] becomes [IOError], a
    missing option the default, and an interpolation error is not
    caught. *)
Definition getint (section : option options) (property : string)
           (default min max : Z) : result Z :=
  match section with
  | None => Raise IOError
  | Some o =>
      value ← get_option o property;
      TileDesc.getint value default min max
  end.

Section Loader.

(** [float(value)]; [None] stands for [ValueError]. *)
Variable float_of_str : string -> option float.

(** [color_from_name], for what it raises; the colour is not kept by
    the [Image]. *)
Variable color_from_name : string -> result unit.

(** The animation of a section other than [.meta]: the rate (0.0 when
    left out), the loop setting ([loop] when left out) and the frames
    (the string [None] when left out, which is no integer). *)
Definition animation_of (o : options) : result Animation.t :=
  value ← get_option o "rate";
  rate ← match value with
         | None => Ok 0%float
         | Some value =>
             match float_of_str value with
             | Some rate => Ok rate
             | None => Raise IOError
             end
         end;
  value ← get_option o "loop";
  let loop := lower (default "loop" value) in
  if negb (String.eqb loop "none" || String.eqb loop "loop") then Raise IOError
  else
    value ← get_option o "frames";
    frames ← frames_of (TileMapManager.split_commas (default "None" value));
    match frames with
    | [] => Raise IOError
    | _ => Ok (Animation.mk rate loop frames)
    end.

(** The loop [for name in config.sections()], with its two locals. *)
Fixpoint sections_loop (sections : config) (animations : gmap string Animation.t)
         (tiles_name : string) : result (gmap string Animation.t * string) :=
  match sections with
  | [] => Ok (animations, tiles_name)
  | (name, o) :: rest =>
      let key := strip (lower name) in
      if negb (String.eqb key ".meta") then
        if negb (Re.match_ Re.animation_name key) then Raise IOError
        else
          animation ← animation_of o;
          sections_loop rest (<[key := animation]> animations) tiles_name
      else sections_loop rest animations name
  end.

(** [load_tile_desc] from what [config.read] gave, and the [Image] that
    [ImageManager.load_resource] builds from the description it returns
    (the texture apart).  [config[tiles_name]] cannot fail where it is
    reached: [getint] has found the section before. *)
Definition load_tile_desc (width height : Z) (read : result config)
  : result Image.t :=
  c ← read;
  r ← sections_loop c ∅ ".tiles";
  let section := section_of c r.2 in
  let shortest := Z.min width height in
  margin ← getint section "tile_margin" 0 0 (shortest / 2 - (1 - shortest mod 2));
  tile_width ← getint section "tile_width" width 1 (width - margin * 2);
  tile_height ← getint section "tile_height" height 1 (height - margin * 2);
  spacing ← getint section "tile_spacing" 0 0 (width - margin * 2 - tile_width);
  colorkey ← match section with
             | Some o => get_option o "colorkey"
             | None => Raise KeyError
             end;
  _ ← match colorkey with
      | Some name => color_from_name name
      | None => Ok ()
      end;
  Ok (Image.mk width height tile_width tile_height margin spacing r.1).

End Loader.

(** An animation as the loop stores it. *)
Definition animation_ok (a : Animation.t) : Prop :=
  (Animation.loop a = "none" \/ Animation.loop a = "loop") /\
  1 <= len (Animation.frames a) /\
  Forall (fun frame => 0 <= frame) (Animation.frames a).

(** [e] is what [config.get] raises for some option of some section. *)
Definition interpolation_error (c : config) (e : exn) : Prop :=
  exists name o property, (name, o) ∈ c /\ o !! property = Some (Raise e).

End LoadTileDesc.

(* ===================================================================== *)
(** * More concrete inputs *)
(* ===================================================================== *)

Module Examples.

(** A font manager whose [TTF_OpenFont] returns a handle that tells the
    point size. *)
Definition sized_fonts
  : Resources.kind (world := unit) (resource := nat) (D := Z) :=
  Resources.FontManager (fun _ size e => (Some (Z.to_nat size), e)) (fun _ e => e).

(** A tile-map file with the directive and two rows, the first with a
    repeated tile. *)
Definition two_rows : list string :=
  [String.append "tiles: my_tiles" (String TileMapManager.newline EmptyString);
   String.append "1, wall*3" (String TileMapManager.newline EmptyString);
   String.append "2" (String TileMapManager.newline EmptyString)].

(** Two lines without content, and a row where the directive should be. *)
Definition comments : list string :=
  [String.append "# level one" (String TileMapManager.newline EmptyString);
   String TileMapManager.newline EmptyString].

Definition early_row : string :=
  String.append "1, 2" (String TileMapManager.newline EmptyString).

(** A looping animation of three frames, ten frames a second. *)
Definition walk : Animation.t := Animation.mk 10 "loop" [4; 5; 6].

(** An image of 100 by 60 pixels cut into tiles of 16 by 16 with a margin
    of 2 and a spacing of 1, as computed from its metadata. *)
Definition sheet_meta : TileDesc.meta :=
  TileDesc.mkMeta (Some "2") (Some "16") (Some "16") (Some "1").

Definition sheet : Image.t :=
  Image.mk 100 60 16 16 2 1 {["walk" := walk]}.


(** A pad with two buttons, the first one held, and one axis at rest. *)
Definition pad : Joystick.device :=
  Joystick.mkDevice 2 (fun b => if b =? 0 then 1 else 0) 1 (fun _ => 0).

(** The same pad with both buttons released and the axis pushed. *)
Definition released_pad : Joystick.device :=
  Joystick.mkDevice 2 (fun _ => 0) 1 (fun _ => 32767).

(** An input handler on which [a] has been held for three frames. *)
Definition holding_a : InputHandler.t := InputHandler.mk {["a" := 3]} [] 0 0 0.

(** Three joystick ports: two devices that report the same name, and
    between them a port that does not open. *)
Definition ports : list (option (string * Joystick.device)) :=
  [Some ("Game Pad", Scenario.stick); None; Some ("Game Pad", pad)].

Definition two_joysticks : Joysticks.t :=
  Joysticks.mk [("gamepad", Joystick.init Scenario.stick);
                ("gamepad2", Joystick.init pad)]
               (Some "gamepad").

(** A metadata file with the section [.meta], spelled with a capital and
    spaces, and one animation; a file with an animation only; and
    [float] on the one rate they give. *)
Definition sheet_config : LoadTileDesc.config :=
  [(" .Meta ", {["tile_margin" := Ok "2"; "tile_width" := Ok "16";
                 "tile_height" := Ok "16"; "tile_spacing" := Ok "1"]});
   ("Walk", {["rate" := Ok "10"; "frames" := Ok "4, 5, 6"]})].

Definition no_meta_config : LoadTileDesc.config :=
  [("walk", {["frames" := Ok "4, 5, 6"]})].

(** A [color_from_name] that accepts every name. *)
Definition any_color (name : string) : result unit := Ok ().

Definition float_of_str (s : string) : option float :=
  if String.eqb s "10" then Some 10%float else None.

End Examples.

(* ===================================================================== *)
(** * Properties *)
(* ===================================================================== *)

(** ** Python's arithmetic and floats *)

Lemma len_nonneg {A} (l : list A) : 0 <= len l.
Proof. unfold len. lia. Qed.

Lemma mod_ok (a b : Z) : b <> 0 -> mod_ a b = Ok (a mod b).
Proof. intros Hb. unfold mod_. destruct (Z.eqb_spec b 0); [lia | reflexivity]. Qed.

Lemma floordiv_ok (a b : Z) : b <> 0 -> floordiv a b = Ok (a / b).
Proof. intros Hb. unfold floordiv. destruct (Z.eqb_spec b 0); [lia | reflexivity]. Qed.

Lemma mod_zero (a : Z) : mod_ a 0 = Raise ZeroDivisionError.
Proof. reflexivity. Qed.

(** Where the floor is not negative, truncation and floor agree. *)
Lemma SF_trunc_floor (sf : spec_float) (r : Z) :
  SF_floor sf = Some r -> 0 <= r -> SF_trunc sf = Some r.
Proof.
  destruct sf as [s | s | | s m e]; simpl; try congruence.
  intros [= <-] Hr. f_equal.
  destruct (0 <=? e) eqn:He, s; try reflexivity.
  exfalso.
  assert (0 < 2 ^ (- e)) by (apply Z.pow_pos_nonneg; lia).
  assert ((- Z.pos m) `div` 2 ^ (- e) < 0) by (apply Z.div_lt_upper_bound; lia).
  lia.
Qed.

Lemma int_of_float_floor (x : float) (r : Z) :
  floor x = Some r -> 0 <= r -> int_of_float x = Ok r.
Proof.
  unfold floor, int_of_float. intros Hf Hr.
  pose proof (SF_trunc_floor _ _ Hf Hr) as Ht.
  destruct (Prim2SF x); simpl in *; congruence.
Qed.

Lemma float_eqb_zero (x : float) :
  (x =? 0)%float = true -> exists s, Prim2SF x = S754_zero s.
Proof.
  rewrite FloatAxioms.eqb_spec.
  replace (Prim2SF 0%float) with (S754_zero false) by reflexivity.
  destruct (Prim2SF x) as [s | s | | s m e]; simpl; try discriminate.
  - eauto.
  - destruct s; discriminate.
  - destruct s; discriminate.
Qed.

Lemma int_of_float_mul_zero (t r : float) :
  isfinite t = true -> (r =? 0)%float = true -> int_of_float (t * r) = Ok 0.
Proof.
  unfold isfinite, int_of_float. intros Ht [s Hr]%float_eqb_zero.
  rewrite mul_spec, Hr. unfold SF64mul.
  destruct (Prim2SF t); try discriminate; reflexivity.
Qed.

(** Below zero, truncation is the floor of the opposite, negated: the
    floor itself or one more. *)
Lemma SF_trunc_floor_neg (sf : spec_float) (down : Z) :
  SF_floor sf = Some down -> down < 0 ->
  exists raw,
    SF_trunc sf = Some raw /\ SF_floor (SFopp sf) = Some (- raw) /\
    down <= raw <= down + 1.
Proof.
  destruct sf as [s | s | | s m e]; simpl; try discriminate.
  - intros [= <-]. lia.
  - intros [= <-] Hneg. destruct (0 <=? e) eqn:He, s; simpl; rewrite ?He.
    + eexists. split; [reflexivity |]. split; [f_equal; lia | lia].
    + assert (0 <= Z.pos m * 2 ^ e) by (apply Z.mul_nonneg_nonneg; lia). lia.
    + assert (Hd : 0 < 2 ^ (- e)) by (apply Z.pow_pos_nonneg; lia).
      eexists. split; [reflexivity |]. split; [f_equal; lia |].
      pose proof (Z.div_mod (Z.pos m) (2 ^ (- e)) ltac:(lia)) as Hdm.
      pose proof (Z.mod_pos_bound (Z.pos m) (2 ^ (- e)) Hd) as Hb.
      pose proof (Z.div_mod (- Z.pos m) (2 ^ (- e)) ltac:(lia)) as Hdm'.
      pose proof (Z.mod_pos_bound (- Z.pos m) (2 ^ (- e)) Hd) as Hb'.
      nia.
    + assert (0 <= Z.pos m / 2 ^ (- e)) by (apply Z.div_pos; lia). lia.
Qed.

(** [int] of a finite float, against its floor. *)
Lemma int_of_float_trunc (x : float) (down : Z) :
  floor x = Some down ->
  exists raw,
    int_of_float x = Ok raw /\
    (0 <= down -> raw = down) /\
    (down < 0 -> floor (- x) = Some (- raw) /\ down <= raw <= down + 1).
Proof.
  intros Hf. destruct (Z.le_gt_cases 0 down) as [Hpos | Hneg].
  - exists down. split; [apply int_of_float_floor; assumption |].
    split; [reflexivity | lia].
  - unfold floor in *. destruct (SF_trunc_floor_neg _ _ Hf Hneg) as (raw & Ht & Ho & Hb).
    exists raw. split; [| split; [lia |]].
    + unfold int_of_float. destruct (Prim2SF x); simpl in *; congruence.
    + intros _. rewrite FloatAxioms.opp_spec. auto.
Qed.

Lemma int_of_float_not_finite (x : float) :
  isfinite x = false ->
  int_of_float x = Raise ValueError \/ int_of_float x = Raise OverflowError.
Proof.
  unfold isfinite, int_of_float. destruct (Prim2SF x); try discriminate; auto.
Qed.

Lemma int_of_float_mul_zero_not_finite (t r : float) :
  isfinite t = false -> (r =? 0)%float = true ->
  int_of_float (t * r) = Raise ValueError.
Proof.
  unfold isfinite, int_of_float. intros Ht [s Hr]%float_eqb_zero.
  rewrite mul_spec, Hr. unfold SF64mul.
  destruct (Prim2SF t); try discriminate; reflexivity.
Qed.

(** ** Animation *)

Section AnimationFacts.

Import Animation.

Lemma get_frame_index_none_eq (a : t) (time : float) (raw : Z) :
  loop a = "none" -> int_of_float (time * rate a) = Ok raw ->
  get_frame_index a time = Ok (Z.min raw (len (frames a))).
Proof.
  intros Hl Hr. unfold get_frame_index. rewrite Hr, Hl. reflexivity.
Qed.

Lemma get_frame_index_loop_eq (a : t) (time : float) (raw : Z) :
  loop a = "loop" -> int_of_float (time * rate a) = Ok raw ->
  get_frame_index a time = mod_ raw (len (frames a)).
Proof.
  intros Hl Hr. unfold get_frame_index. rewrite Hr, Hl. reflexivity.
Qed.

(** [get_frame] reads the length of the frame table and nothing else. *)
Lemma get_frame_length_only (r : float) (l : string) (f1 f2 : list Z) (time : float) :
  length f1 = length f2 ->
  get_frame (mk r l f1) time = get_frame (mk r l f2) time.
Proof.
  intros Hlen. unfold get_frame, get_frame_index, len. simpl. rewrite Hlen.
  reflexivity.
Qed.

(** For a looping animation the result is the wrapped index plus one. *)
Lemma get_frame_loop (a : t) (time : float) (raw : Z) :
  loop a = "loop" -> 1 <= len (frames a) -> floor (time * rate a) = Some raw ->
  0 <= raw ->
  get_frame a time = Ok (raw mod len (frames a) + 1).
Proof.
  intros Hl Hn Hf Hr. unfold get_frame.
  rewrite (get_frame_index_loop_eq a time raw Hl (int_of_float_floor _ _ Hf Hr)).
  rewrite mod_ok by lia. reflexivity.
Qed.

(** C1 (the code departs from the claim): on the three-frame looping
    animation with rate 10 and frame table (4, 5, 6), at time 0.35 the raw
    index is 3 and wraps to 0, and at time 0.0 the index is 0, as claimed;
    but [get_frame] returns index + 1 = 1 both times, where the claim
    (frames[index] + 1, the index looked up in the table) gives 5. *)
Theorem get_frame_skips_frame_table :
  let a := Animation.mk 10 "loop" [4; 5; 6] in
  int_of_float (0.35 * rate a) = Ok 3 /\
  get_frame_index a 0.35 = Ok 0 /\
  get_frame_index a 0 = Ok 0 /\
  get_frame a 0.35 = Ok 1 /\
  get_frame a 0 = Ok 1 /\
  get_frame_through_table a 0.35 = Ok 5 /\
  get_frame a 0.35 <> get_frame_through_table a 0.35.
Proof.
  vm_compute. repeat split; discriminate.
Qed.

(** C2 (amended).  [int] rounds the product towards zero: with rate -10
    and time 0.35, or rate 10 and time -0.35, the product is -3.5, its
    floor -4, and the index -3, not the -4 of the claim.  With rate 0 and
    an infinite time the product is no number and [get_frame] raises
    instead of returning index 0. *)
Lemma get_frame_index_truncates_toward_zero :
  floor (0.35 * -10) = Some (-4) /\
  get_frame_index (mk (-10) "none" [4; 5; 6]) 0.35 = Ok (-3) /\
  get_frame_index (mk (-10) "none" [4; 5; 6]) 0.35 <> Ok (Z.min (-4) 3) /\
  get_frame (mk (-10) "none" [4; 5; 6]) 0.35 = Ok (-2) /\
  get_frame_index (mk 10 "none" [4; 5; 6]) (-0.35) = Ok (-3) /\
  isfinite infinity = false /\
  get_frame_index (mk 0 "none" [4; 5; 6]) infinity = Raise ValueError /\
  get_frame (mk 0 "none" [4; 5; 6]) infinity = Raise ValueError.
Proof.
  vm_compute. repeat split; discriminate.
Qed.

(** C2 (amended): without looping, [get_frame] returns one more than the
    raw index clamped to the frame count [n], not to [n - 1], so the
    index reaches [n]: with three frames and rate 10, time 1.0 gives raw
    index 10 and index 3, one past the last offset 2 of the frame table.
    The raw index is the product of time and rate rounded towards zero:
    its floor when that is not negative, and otherwise the negated floor
    of the opposite product, which is the floor or one more.  A product
    that is infinite or no number raises.  With a rate equal to zero the
    index is 0 at every finite time, whatever the loop mode, and
    [get_frame] raises [ValueError] at every other time. *)
Theorem get_frame_clamps_truncated_index (a : t) (time : float) :
  1 <= len (frames a) ->
  (loop a = "none" ->
   (forall down, floor (time * rate a) = Some down ->
      exists raw,
        int_of_float (time * rate a) = Ok raw /\
        (0 <= down -> raw = down) /\
        (down < 0 ->
         floor (- (time * rate a)) = Some (- raw) /\ down <= raw <= down + 1) /\
        get_frame_index a time = Ok (Z.min raw (len (frames a))) /\
        get_frame a time = Ok (Z.min raw (len (frames a)) + 1) /\
        (len (frames a) <= raw -> get_frame a time = Ok (len (frames a) + 1))) /\
   (isfinite (time * rate a) = false ->
    get_frame a time = Raise ValueError \/ get_frame a time = Raise OverflowError)) /\
  (forall f0 f1 f2,
     floor (1 * 10) = Some 10 /\
     get_frame_index (mk 10 "none" [f0; f1; f2]) 1 = Ok 3 /\
     get_frame (mk 10 "none" [f0; f1; f2]) 1 = Ok 4 /\
     getitem [f0; f1; f2] 2 = Ok f2 /\
     getitem [f0; f1; f2] 3 = Raise IndexError) /\
  ((rate a =? 0)%float = true ->
   (isfinite time = true ->
    get_frame_index a time = Ok 0 /\ get_frame a time = Ok 1) /\
   (isfinite time = false -> get_frame a time = Raise ValueError)).
Proof.
  intros Hn. split; [| split].
  - intros Hl. split.
    + intros down Hf.
      destruct (int_of_float_trunc _ _ Hf) as (raw & Hraw & Hpos & Hneg).
      exists raw. split; [exact Hraw |]. split; [exact Hpos |]. split; [exact Hneg |].
      pose proof (get_frame_index_none_eq a time raw Hl Hraw) as Hi.
      split; [exact Hi |]. unfold get_frame. rewrite Hi. simpl.
      split; [reflexivity |]. intros Hge. do 2 f_equal. lia.
    + intros Hfin. unfold get_frame, get_frame_index.
      destruct (int_of_float_not_finite _ Hfin) as [-> | ->]; simpl; auto.
  - intros f0 f1 f2. repeat split.
  - intros Hz. split.
    + intros Ht.
      assert (Hi : get_frame_index a time = Ok 0).
      { unfold get_frame_index.
        rewrite (int_of_float_mul_zero time (rate a) Ht Hz). simpl.
        destruct (String.eqb (loop a) "none").
        - f_equal. lia.
        - destruct (String.eqb (loop a) "loop"); [| reflexivity].
          rewrite mod_ok by lia. rewrite Z.mod_0_l by lia. reflexivity. }
      split; [exact Hi |]. unfold get_frame. rewrite Hi. reflexivity.
    + intros Ht. unfold get_frame, get_frame_index.
      rewrite (int_of_float_mul_zero_not_finite time (rate a) Ht Hz). reflexivity.
Qed.

Lemma get_frame_clamps_truncated_index_witness :
  1 <= len (frames (mk 10 "none" [0; 1; 2])) /\
  get_frame (mk 10 "none" [0; 1; 2]) 1 = Ok 4 /\
  1 <= len (frames (mk (-10) "none" [0; 1; 2])) /\
  get_frame (mk (-10) "none" [0; 1; 2]) 0.35 = Ok (-2) /\
  get_frame (mk 0 "loop" [0; 1; 2]) 0.35 = Ok 1.
Proof.
  assert (Hn : 1 <= len (frames (mk 10 "none" [0; 1; 2]))) by (vm_compute; discriminate).
  assert (Hm : 1 <= len (frames (mk (-10) "none" [0; 1; 2]))) by (vm_compute; discriminate).
  assert (Hz : 1 <= len (frames (mk 0 "loop" [0; 1; 2]))) by (vm_compute; discriminate).
  split; [exact Hn |]. split; [| split; [exact Hm | split]].
  - destruct (get_frame_clamps_truncated_index (mk 10 "none" [0; 1; 2]) 1 Hn)
      as [H1 _].
    destruct (H1 eq_refl) as [H2 _].
    destruct (H2 10 eq_refl) as (raw & _ & Hpos & _ & _ & _ & Hclamp).
    rewrite Hclamp; [reflexivity |]. rewrite (Hpos ltac:(lia)). vm_compute. discriminate.
  - destruct (get_frame_clamps_truncated_index (mk (-10) "none" [0; 1; 2]) 0.35 Hm)
      as [H1 _].
    destruct (H1 eq_refl) as [H2 _].
    destruct (H2 (-4) eq_refl) as (raw & Hraw & _ & _ & _ & Hframe & _).
    rewrite Hframe. vm_compute in Hraw. injection Hraw as <-. reflexivity.
  - destruct (get_frame_clamps_truncated_index (mk 0 "loop" [0; 1; 2]) 0.35 Hz)
      as [_ [_ H3]].
    destruct (H3 eq_refl) as [H4 _]. apply H4. reflexivity.
Defined.

End AnimationFacts.

(** ** Image: integer references *)

Section ImageFacts.

Import Image.

Lemma columns_positive (img : t) :
  1 <= tile_width img <= width img - 2 * tile_margin img ->
  columns img = Ok ((width img - 2 * tile_margin img) / tile_width img) /\
  1 <= (width img - 2 * tile_margin img) / tile_width img.
Proof.
  intros Hw. unfold columns.
  replace (tile_margin img * 2) with (2 * tile_margin img) by lia.
  rewrite floordiv_ok by lia. split; [reflexivity |].
  assert (0 < (width img - 2 * tile_margin img) / tile_width img)
    by (apply Z.div_str_pos; lia).
  lia.
Qed.

(** Every image the loader builds has at least one column of tiles. *)
Lemma getint_range (value : option string) (default lo hi i : Z) :
  TileDesc.getint value default lo hi = Ok i -> lo <= i <= hi.
Proof.
  unfold TileDesc.getint.
  destruct (match value with Some v => int_of_str v | None => Some default end)
    as [j |]; [| discriminate].
  destruct (Z.ltb_spec j lo); simpl; [discriminate |].
  destruct (Z.ltb_spec hi j); [discriminate |].
  intros [= <-]. lia.
Qed.

Lemma load_image_tile_width (w0 h0 : Z) (m : TileDesc.meta)
      (anims : gmap string Animation.t) (img : t) :
  TileDesc.load_image w0 h0 m anims = Ok img ->
  1 <= tile_width img <= width img - 2 * tile_margin img.
Proof.
  unfold TileDesc.load_image.
  destruct (TileDesc.getint (TileDesc.tile_margin m) _ _ _) as [margin |];
    simpl; [| discriminate].
  destruct (TileDesc.getint (TileDesc.tile_width m) _ _ _) as [tw |] eqn:Htw;
    simpl; [| discriminate].
  destruct (TileDesc.getint (TileDesc.tile_height m) _ _ _) as [th |];
    simpl; [| discriminate].
  destruct (TileDesc.getint (TileDesc.tile_spacing m) _ _ _) as [sp |];
    simpl; [| discriminate].
  intros [= <-]. simpl. apply getint_range in Htw. lia.
Qed.

Lemma plain_image_tile_width (w0 h0 : Z) :
  1 <= w0 ->
  1 <= tile_width (TileDesc.plain_image w0 h0)
    <= width (TileDesc.plain_image w0 h0) - 2 * tile_margin (TileDesc.plain_image w0 h0).
Proof. intros Hw. simpl. lia. Qed.

(** A value that fits in 32 bits is stored as it is. *)
Lemma c_int_fits (v : Z) : - 2 ^ 31 <= v < 2 ^ 31 -> c_int v = v.
Proof.
  intros Hv. unfold c_int. rewrite Z.mod_small by lia. lia.
Qed.

Lemma c_int_range (v : Z) : - 2 ^ 31 <= c_int v < 2 ^ 31.
Proof.
  unfold c_int. pose proof (Z.mod_pos_bound (v + 2 ^ 31) (2 ^ 32)). lia.
Qed.

Lemma SDL_Rect_of_fits (x0 y0 w0 h0 : Z) :
  - 2 ^ 31 <= x0 < 2 ^ 31 -> - 2 ^ 31 <= y0 < 2 ^ 31 ->
  - 2 ^ 31 <= w0 < 2 ^ 31 -> - 2 ^ 31 <= h0 < 2 ^ 31 ->
  SDL_Rect_of x0 y0 w0 h0 = mkRect x0 y0 w0 h0.
Proof.
  intros Hx Hy Hw Hh. unfold SDL_Rect_of.
  rewrite !c_int_fits by assumption. reflexivity.
Qed.

Lemma frame_rect_zero (img : t) :
  frame_rect img 0 = Ok (SDL_Rect_of 0 0 (width img) (height img)).
Proof. reflexivity. Qed.

(** The tile of a frame other than 0, on an image that has a tile width
    and at least one column (or a negative number of columns). *)
Lemma frame_rect_eq (img : t) (r : Z) :
  r <> 0 -> tile_width img <> 0 ->
  let cols := (width img - 2 * tile_margin img) / tile_width img in
  cols <> 0 ->
  columns img = Ok cols /\
  frame_rect img r =
  Ok (SDL_Rect_of
        (tile_margin img + ((r - 1) mod cols) * (tile_width img + tile_spacing img))
        (tile_margin img + ((r - 1) / cols) * (tile_height img + tile_spacing img))
        (tile_width img) (tile_height img)).
Proof.
  intros Hr Htw cols Hcols.
  assert (Hc : columns img = Ok cols).
  { unfold columns. replace (tile_margin img * 2) with (2 * tile_margin img) by lia.
    apply floordiv_ok. exact Htw. }
  split; [exact Hc |].
  unfold frame_rect. destruct (Z.eqb_spec r 0); [contradiction |].
  rewrite Hc. simpl.
  rewrite mod_ok by exact Hcols. simpl.
  rewrite floordiv_ok by exact Hcols. reflexivity.
Qed.

(** Without a tile width or without a column the division fails. *)
Lemma frame_rect_raises (img : t) (r : Z) :
  r <> 0 ->
  tile_width img = 0 \/ (width img - 2 * tile_margin img) / tile_width img = 0 ->
  frame_rect img r = Raise ZeroDivisionError.
Proof.
  intros Hr Hz. unfold frame_rect. destruct (Z.eqb_spec r 0); [contradiction |].
  unfold columns. replace (tile_margin img * 2) with (2 * tile_margin img) by lia.
  destruct (Z.eq_dec (tile_width img) 0) as [Htw | Htw].
  - rewrite Htw. reflexivity.
  - rewrite floordiv_ok by exact Htw. simpl.
    destruct Hz as [Hz | Hz]; [contradiction |]. rewrite Hz. reflexivity.
Qed.

Lemma frame_rect_tile (img : t) (r : Z) :
  1 <= tile_width img <= width img - 2 * tile_margin img -> r <> 0 ->
  let cols := (width img - 2 * tile_margin img) / tile_width img in
  frame_rect img r =
  Ok (SDL_Rect_of
        (tile_margin img + ((r - 1) mod cols) * (tile_width img + tile_spacing img))
        (tile_margin img + ((r - 1) / cols) * (tile_height img + tile_spacing img))
        (tile_width img) (tile_height img)).
Proof.
  intros Hw Hr cols. destruct (columns_positive img Hw) as [_ Hpos].
  apply (frame_rect_eq img r Hr); [lia |]. fold cols. lia.
Qed.

Lemma get_source_rect_int (img : t) (a : reference) (r : Z) (time : float) :
  int_of_reference a = Some r -> get_source_rect img a time = frame_rect img r.
Proof. intros Hr. unfold get_source_rect. rewrite Hr. reflexivity. Qed.

(** C5 (amended).  The claim gives the four fields of the rectangle as
    unbounded integers; [SDL_Rect] holds each in 32 bits.  On the 100 x
    100 image of the claim the reference 500000000 resolves to
    [y = -1794967306], where the claim's formula gives 2499999990. *)
Lemma get_source_rect_wraps_to_32_bits :
  let img100 := mk 100 100 20 20 10 0 ∅ in
  let frame := 500000000 - 1 in
  columns img100 = Ok 4 /\
  10 + (frame mod 4) * (20 + 0) = 70 /\
  10 + (frame / 4) * (20 + 0) = 2499999990 /\
  get_source_rect img100 (RefInt 500000000) 0 = Ok (mkRect 70 (-1794967306) 20 20) /\
  get_source_rect img100 (RefInt 500000000) 0 <> Ok (mkRect 70 2499999990 20 20).
Proof.
  vm_compute. repeat split; discriminate.
Qed.

(** C5 (amended): a reference that reads as the integer 0 resolves to
    the whole image; one that reads as [r <> 0] (so every [r >= 1])
    resolves, with [frame = r - 1] and [columns = (width - 2 * margin) //
    tile_width], to the tile at column [frame mod columns] and row
    [frame // columns], whether or not that tile lies inside the image;
    each field of the rectangle is the value reduced to 32 bits, and so
    the value itself when it fits (frame 1000 of the 100 x 100 image
    starts at y = 4990).  An image with no tile width or no column raises
    [ZeroDivisionError] for every reference but 0. *)
Theorem get_source_rect_of_integer (img : t) (a : reference) (r : Z) (time : float) :
  int_of_reference a = Some r ->
  (r = 0 ->
   get_source_rect img a time = Ok (SDL_Rect_of 0 0 (width img) (height img))) /\
  (r <> 0 ->
   let frame := r - 1 in
   let cols := (width img - 2 * tile_margin img) / tile_width img in
   (tile_width img <> 0 -> cols <> 0 ->
    columns img = Ok cols /\
    get_source_rect img a time =
    Ok (SDL_Rect_of
          (tile_margin img + (frame mod cols) * (tile_width img + tile_spacing img))
          (tile_margin img + (frame / cols) * (tile_height img + tile_spacing img))
          (tile_width img) (tile_height img))) /\
   (tile_width img = 0 \/ cols = 0 ->
    get_source_rect img a time = Raise ZeroDivisionError)) /\
  (forall x0 y0 w0 h0,
     - 2 ^ 31 <= x0 < 2 ^ 31 -> - 2 ^ 31 <= y0 < 2 ^ 31 ->
     - 2 ^ 31 <= w0 < 2 ^ 31 -> - 2 ^ 31 <= h0 < 2 ^ 31 ->
     SDL_Rect_of x0 y0 w0 h0 = mkRect x0 y0 w0 h0) /\
  (forall x0 y0 w0 h0,
     SDL_Rect_of x0 y0 w0 h0
     = mkRect ((x0 + 2 ^ 31) mod 2 ^ 32 - 2 ^ 31) ((y0 + 2 ^ 31) mod 2 ^ 32 - 2 ^ 31)
              ((w0 + 2 ^ 31) mod 2 ^ 32 - 2 ^ 31) ((h0 + 2 ^ 31) mod 2 ^ 32 - 2 ^ 31)) /\
  (let img100 := mk 100 100 20 20 10 0 ∅ in
   columns img100 = Ok 4 /\
   get_source_rect img100 (RefInt 0) time = Ok (mkRect 0 0 100 100) /\
   get_source_rect img100 (RefInt 5) time = Ok (mkRect 10 30 20 20) /\
   get_source_rect img100 (RefStr "5") time = Ok (mkRect 10 30 20 20) /\
   get_source_rect img100 (RefInt 1000) time = Ok (mkRect 70 4990 20 20)).
Proof.
  intros Ha. rewrite (get_source_rect_int img a r time Ha).
  split; [| split; [| split; [| split]]].
  - intros ->. apply frame_rect_zero.
  - intros Hr. cbv zeta. split.
    + intros Htw Hcols. apply (frame_rect_eq img r Hr Htw Hcols).
    + apply (frame_rect_raises img r Hr).
  - apply SDL_Rect_of_fits.
  - reflexivity.
  - cbv zeta. repeat split.
Qed.

Lemma get_source_rect_of_integer_witness :
  int_of_reference (RefStr " 5 ") = Some 5 /\
  get_source_rect (mk 100 100 20 20 10 0 ∅) (RefStr " 5 ") 0 = Ok (mkRect 10 30 20 20).
Proof.
  assert (Ha : int_of_reference (RefStr " 5 ") = Some 5) by (vm_compute; reflexivity).
  split; [exact Ha |].
  destruct (get_source_rect_of_integer (mk 100 100 20 20 10 0 ∅) (RefStr " 5 ") 5 0 Ha)
    as (_ & Htile & Hfits & _).
  destruct (Htile ltac:(lia)) as [Hrect _].
  destruct (Hrect ltac:(simpl; lia) ltac:(vm_compute; discriminate)) as [_ Hr].
  rewrite Hr. f_equal.
Defined.

End ImageFacts.

(** ** TileMap: wrap-around addressing *)

Section TileMapFacts.

Import TileMap.

Lemma getitem_lookup {A} (l : list A) (i : Z) :
  0 <= i -> getitem l i =
            match l !! Z.to_nat i with Some a => Ok a | None => Raise IndexError end.
Proof.
  intros Hi. unfold getitem.
  destruct (Z.ltb_spec i 0); [lia |].
  destruct (Z.ltb_spec i 0); [lia |]. reflexivity.
Qed.

Lemma getitem_in_range {A} (l : list A) (i : Z) :
  0 <= i < len l -> exists a, l !! Z.to_nat i = Some a /\ getitem l i = Ok a.
Proof.
  intros Hi. rewrite getitem_lookup by lia.
  destruct (lookup_lt_is_Some_2 l (Z.to_nat i)) as [a Ha].
  { unfold len in Hi. lia. }
  exists a. rewrite Ha. auto.
Qed.

(** On a grid of positive size with as many rows as its height, [get]
    returns the cell at the wrapped coordinates. *)
Lemma get_cell (tm : t) (x y : Z) :
  1 <= width tm -> 1 <= height tm -> height tm = len (rows tm) ->
  get tm x y = Ok (cell tm (Z.to_nat (y mod height tm)) (Z.to_nat (x mod width tm))).
Proof.
  intros Hw Hh Hrows. unfold get, cell.
  rewrite mod_ok by lia. simpl. rewrite mod_ok by lia. simpl.
  assert (Hy : 0 <= y mod height tm < len (rows tm))
    by (rewrite <- Hrows; apply Z.mod_pos_bound; lia).
  assert (Hx : 0 <= x mod width tm) by (apply Z.mod_pos_bound; lia).
  destruct (getitem_in_range (rows tm) _ Hy) as [row [Hrow ->]]. simpl.
  rewrite Hrow.
  destruct (Z.leb_spec (len row) (x mod width tm)) as [Hge | Hlt].
  - rewrite lookup_ge_None_2; [reflexivity |]. unfold len in Hge. lia.
  - destruct (getitem_in_range row (x mod width tm)) as [c [Hc ->]]; [lia |].
    rewrite Hc. reflexivity.
Qed.

(** [get] depends on its arguments through their residues only. *)
Lemma get_periodic (tm : t) (x y i j : Z) :
  get tm (x + i * width tm) (y + j * height tm) = get tm x y.
Proof.
  unfold get, mod_.
  destruct (Z.eqb_spec (width tm) 0) as [Hw | Hw]; [reflexivity |].
  destruct (Z.eqb_spec (height tm) 0) as [Hh | Hh]; [reflexivity |].
  rewrite !Z_mod_plus_full. reflexivity.
Qed.

(** C6: on a grid of width [w >= 1] and height [h >= 1] (the height being
    the number of rows), [get x y] is the cell of row [y mod h] and column
    [x mod w] for all integers, negative ones included; the row exists,
    and a column at or past the end of that row reads as ["0"].  On a
    4 x 3 grid [get 4 0 = get 0 0] and [get (-1) 0 = get 3 0]. *)
Theorem tilemap_get_wraps_both_axes (tm : t) (x y : Z) :
  1 <= width tm -> 1 <= height tm -> height tm = len (rows tm) ->
  get tm x y = Ok (cell tm (Z.to_nat (y mod height tm)) (Z.to_nat (x mod width tm))) /\
  get tm x y = get tm (x mod width tm) (y mod height tm) /\
  (exists row, rows tm !! Z.to_nat (y mod height tm) = Some row /\
     (len row <= x mod width tm -> get tm x y = Ok "0") /\
     (forall c, row !! Z.to_nat (x mod width tm) = Some c -> get tm x y = Ok c)) /\
  (width tm = 4 -> height tm = 3 ->
   get tm 4 0 = get tm 0 0 /\ get tm (-1) 0 = get tm 3 0).
Proof.
  intros Hw Hh Hrows. split; [| split; [| split]].
  - apply get_cell; assumption.
  - rewrite !get_cell by assumption.
    rewrite !Z.mod_mod by lia. reflexivity.
  - assert (Hy : 0 <= y mod height tm < len (rows tm))
      by (rewrite <- Hrows; apply Z.mod_pos_bound; lia).
    destruct (getitem_in_range (rows tm) _ Hy) as [row [Hrow _]].
    exists row. split; [exact Hrow |]. rewrite get_cell by assumption.
    unfold cell. rewrite Hrow. split.
    + intros Hge. rewrite lookup_ge_None_2; [reflexivity |].
      assert (0 <= x mod width tm) by (apply Z.mod_pos_bound; lia).
      unfold len in Hge. lia.
    + intros c ->. reflexivity.
  - intros W4 H3. split.
    + pose proof (get_periodic tm 0 0 1 0) as P. rewrite W4, H3 in P. exact P.
    + pose proof (get_periodic tm 3 0 (-1) 0) as P. rewrite W4, H3 in P.
      exact P.
Qed.

Lemma tilemap_get_wraps_both_axes_witness :
  let tm := mk "tiles" 4 3 [["1"; "2"; "3"; "4"]; ["5"]; ["a"; "b"; "c"; "d"]] in
  get tm (-1) 4 = Ok "0" /\ get tm (-1) 0 = Ok "4" /\ get tm 4 0 = get tm 0 0.
Proof.
  cbv zeta.
  set (tm := mk "tiles" 4 3 [["1"; "2"; "3"; "4"]; ["5"]; ["a"; "b"; "c"; "d"]]).
  assert (Hw : 1 <= width tm) by (simpl; lia).
  assert (Hh : 1 <= height tm) by (simpl; lia).
  assert (Hr : height tm = len (rows tm)) by reflexivity.
  split; [| split].
  - destruct (tilemap_get_wraps_both_axes tm (-1) 4 Hw Hh Hr) as [H _].
    rewrite H. reflexivity.
  - destruct (tilemap_get_wraps_both_axes tm (-1) 0 Hw Hh Hr) as [H _].
    rewrite H. reflexivity.
  - destruct (tilemap_get_wraps_both_axes tm 0 0 Hw Hh Hr) as [_ [_ [_ H]]].
    apply H; reflexivity.
Defined.

End TileMapFacts.

(** ** The resource cache *)

Section ResourceFacts.

Import Resources.

Context {world resource D : Type} `{Countable D}.
Variable re_compile_I : string -> option (string -> bool).
Variable listdir : world -> string -> result (list string).
Variable resources_dirs : list string.
Variable self : kind (world := world) (resource := resource) (D := D).

Abbreviation state := (state (world := world) (resource := resource) (D := D)).
Abbreviation find := (find_resource re_compile_I listdir).
Abbreviation get_ := (get re_compile_I listdir resources_dirs self).

(** A search reads directories and changes neither the cache nor the
    world. *)
Lemma scan_roots_cache (rule : string -> bool) (roots : list string) (st st' : state)
      (res : result (option string)) :
  scan_roots listdir rule roots st = (res, st') ->
  cache st' = cache st /\ env st' = env st.
Proof.
  revert st. induction roots as [| root rest IH]; simpl; intros st Hs.
  - injection Hs as _ <-. auto.
  - destruct (listdir (env st) root) as [candidates | ex].
    + destruct (first_match rule root candidates).
      * injection Hs as _ <-. auto.
      * apply IH in Hs. simpl in Hs. exact Hs.
    + injection Hs as _ <-. auto.
Qed.

Lemma find_resource_cache (name : string) (types roots : list string) (st st' : state)
      (res : result (option string)) :
  find name types roots st = (res, st') ->
  cache st' = cache st /\ env st' = env st.
Proof.
  unfold find_resource. destruct (re_compile_I _).
  - apply scan_roots_cache.
  - intros [= _ <-]. auto.
Qed.

Lemma find_meta_cache (id : string) (st st' : state) (res : result (option string)) :
  match meta_file_types self with
  | [] => (Ok None, st)
  | _ => find id (meta_file_types self) resources_dirs st
  end = (res, st') ->
  cache st' = cache st /\ env st' = env st.
Proof.
  destruct (meta_file_types self).
  - intros [= _ <-]. auto.
  - apply find_resource_cache.
Qed.

(** A request whose key is cached returns the cached handle and leaves
    the state, hence the list of outside calls, as it was. *)
Lemma get_cached (name : string) (more_key : list D) (internal : bool) (st : state)
      (r : resource) :
  (internal = true \/ Re.match_ Re.resource_name (lower (strip name)) = true) ->
  cache st !! (lower (strip name), more_key) = Some r ->
  get_ name more_key internal st = (Ok r, st).
Proof.
  intros Hv Hc. unfold get.
  replace (negb internal && negb (Re.match_ Re.resource_name (lower (strip name))))
    with false by (destruct Hv as [-> | ->]; [reflexivity | apply eq_sym, andb_false_r]).
  rewrite Hc. reflexivity.
Qed.

(** What a request leaves in the cache: on success the handle it
    returned, under the lowered and stripped name and the extra key
    components; on failure what was there before. *)
Lemma get_outcome (name : string) (more_key : list D) (internal : bool) (st st' : state)
      (res : result resource) :
  get_ name more_key internal st = (res, st') ->
  match res with
  | Ok r =>
      (internal = true \/ Re.match_ Re.resource_name (lower (strip name)) = true) /\
      cache st' !! (lower (strip name), more_key) = Some r /\
      (cache st' = cache st \/
       cache st !! (lower (strip name), more_key) = None /\
       cache st' = <[(lower (strip name), more_key) := r]> (cache st))
  | Raise _ => cache st' = cache st
  end.
Proof.
  unfold get.
  destruct (negb internal && negb (Re.match_ Re.resource_name (lower (strip name))))
    eqn:Hv.
  { intros [= <- <-]. reflexivity. }
  assert (Hvalid : internal = true \/
                   Re.match_ Re.resource_name (lower (strip name)) = true).
  { destruct internal; [auto |]. right. simpl in Hv.
    destruct (Re.match_ _ _); [reflexivity | discriminate]. }
  destruct (cache st !! (lower (strip name), more_key)) as [r0 |] eqn:Hc.
  { intros [= <- <-]. auto. }
  destruct internal.
  - destruct (load_internal_resource self _ _) as [[[r |] | ex] e];
      intros [= <- <-]; simpl; [| reflexivity | reflexivity].
    split; [assumption |]. split; [apply lookup_insert_eq | auto].
  - destruct (find _ (file_types self) resources_dirs st) as [[filename | ex] st1] eqn:Hf.
    2:{ intros [= <- <-]. apply (find_resource_cache _ _ _ _ _ _ Hf). }
    destruct (find_resource_cache _ _ _ _ _ _ Hf) as [Hc1 He1].
    destruct (match meta_file_types self with
              | [] => (Ok None, st1)
              | _ => find _ (meta_file_types self) resources_dirs st1
              end) as [[meta | ex] st2] eqn:Hm.
    2:{ intros [= <- <-]. destruct (find_meta_cache _ _ _ _ Hm). congruence. }
    destruct (find_meta_cache _ _ _ _ Hm) as [Hc2 He2].
    destruct filename as [filename |].
    2:{ intros [= <- <-]. congruence. }
    destruct (load_resource self _ _ _ _) as [[[r |] | ex] e];
      intros [= <- <-]; simpl; try congruence.
    split; [assumption |]. split; [apply lookup_insert_eq |].
    right. split; [reflexivity |]. rewrite Hc2, Hc1. reflexivity.
Qed.

(** Entries stay in the cache across later requests. *)
Lemma get_keeps_entries (name : string) (more_key : list D) (internal : bool)
      (st st' : state) (res : result resource) (k : key) (r : resource) :
  get_ name more_key internal st = (res, st') ->
  cache st !! k = Some r -> cache st' !! k = Some r.
Proof.
  intros Hg Hk. apply get_outcome in Hg. destruct res as [r' | ex].
  - destruct Hg as [_ [_ [-> | [Hnone ->]]]]; [assumption |].
    rewrite lookup_insert_ne; [assumption |].
    intros Heq. subst k.
    assert (Some r = None) by (etransitivity; [symmetry; exact Hk | exact Hnone]).
    discriminate.
  - rewrite Hg. assumption.
Qed.

(** C3: once a request has returned a handle [r], the handle is cached
    under the lowered and stripped name and the discriminators, and every
    later request for that pair, also with the name spelt in another
    letter case, returns [r] from any state that still holds the entry
    (no dispose in between), whatever the directories then contain, and
    leaves the state untouched: no directory is listed and no loader is
    called again. *)
Theorem get_is_idempotent (name : string) (more_key : list D) (internal : bool)
        (st st1 : state) (r : resource) :
  get_ name more_key internal st = (Ok r, st1) ->
  cache st1 !! (lower (strip name), more_key) = Some r /\
  get_ name more_key internal st1 = (Ok r, st1) /\
  (forall (name2 : string) (st2 : state),
     lower (strip name2) = lower (strip name) ->
     cache st2 !! (lower (strip name), more_key) = Some r ->
     get_ name2 more_key internal st2 = (Ok r, st2) /\
     calls (get_ name2 more_key internal st2).2 = calls st2).
Proof.
  intros Hg. apply get_outcome in Hg. destruct Hg as [Hv [Hc _]].
  split; [exact Hc |]. split.
  - apply get_cached; assumption.
  - intros name2 st2 Hn Hc2.
    assert (Hg2 : get_ name2 more_key internal st2 = (Ok r, st2)).
    { apply get_cached; rewrite Hn; assumption. }
    rewrite Hg2. auto.
Qed.

End ResourceFacts.


(** ** The errors of a request *)

Section ResourceErrors.

Import Resources.

Context {world resource D : Type} `{Countable D}.
Variable re_compile_I : string -> option (string -> bool).
Variable listdir : world -> string -> result (list string).
Variable resources_dirs : list string.
Variable self : kind (world := world) (resource := resource) (D := D).

Abbreviation state' := (state (world := world) (resource := resource) (D := D)).
Abbreviation find' := (find_resource re_compile_I listdir).
Abbreviation get' := (get re_compile_I listdir resources_dirs self).

(** A name whose lowered form [re.match] rejects raises [ValueError]
    before anything else happens. *)
Lemma get_invalid_name (name : string) (more_key : list D) (st : state') :
  Re.match_ Re.resource_name (lower (strip name)) = false ->
  get' name more_key false st = (Raise ValueError, st).
Proof. intros Hm. unfold get. rewrite Hm. reflexivity. Qed.

(** No backing file: [KeyError]. *)
Lemma get_not_found (name : string) (more_key : list D) (st st1 st2 : state')
      (meta : option string) :
  Re.match_ Re.resource_name (lower (strip name)) = true ->
  cache st !! (lower (strip name), more_key) = None ->
  find' (lower (strip name)) (file_types self) resources_dirs st = (Ok None, st1) ->
  match meta_file_types self with
  | [] => (Ok None, st1)
  | _ => find' (lower (strip name)) (meta_file_types self) resources_dirs st1
  end = (Ok meta, st2) ->
  get' name more_key false st = (Raise KeyError, st2).
Proof.
  intros Hm Hc Hf Hmeta. unfold get. rewrite Hm, Hc. simpl.
  rewrite Hf, Hmeta. reflexivity.
Qed.

(** An exception of the loader reaches the caller as it is. *)
Lemma get_loader_raises (name : string) (more_key : list D) (st st1 st2 : state')
      (filename : string) (meta : option string) (ex : exn) (e : world) :
  Re.match_ Re.resource_name (lower (strip name)) = true ->
  cache st !! (lower (strip name), more_key) = None ->
  find' (lower (strip name)) (file_types self) resources_dirs st = (Ok (Some filename), st1) ->
  match meta_file_types self with
  | [] => (Ok None, st1)
  | _ => find' (lower (strip name)) (meta_file_types self) resources_dirs st1
  end = (Ok meta, st2) ->
  load_resource self (lower (strip name), more_key) filename meta (env st2) = (Raise ex, e) ->
  (get' name more_key false st).1 = Raise ex.
Proof.
  intros Hm Hc Hf Hmeta Hl. unfold get. rewrite Hm, Hc. simpl.
  rewrite Hf, Hmeta. simpl. rewrite Hl. reflexivity.
Qed.

(** A loader that returns a false value (a null pointer) makes [get]
    raise [AttributeError]. *)
Lemma get_loader_false (name : string) (more_key : list D) (st st1 st2 : state')
      (filename : string) (meta : option string) (e : world) :
  Re.match_ Re.resource_name (lower (strip name)) = true ->
  cache st !! (lower (strip name), more_key) = None ->
  find' (lower (strip name)) (file_types self) resources_dirs st = (Ok (Some filename), st1) ->
  match meta_file_types self with
  | [] => (Ok None, st1)
  | _ => find' (lower (strip name)) (meta_file_types self) resources_dirs st1
  end = (Ok meta, st2) ->
  load_resource self (lower (strip name), more_key) filename meta (env st2) = (Ok None, e) ->
  (get' name more_key false st).1 = Raise AttributeError.
Proof.
  intros Hm Hc Hf Hmeta Hl. unfold get. rewrite Hm, Hc. simpl.
  rewrite Hf, Hmeta. simpl. rewrite Hl. reflexivity.
Qed.

(** A request that raises leaves the cache as it was. *)
Lemma get_failure_not_cached (name : string) (more_key : list D) (internal : bool)
      (st st1 : state') (ex : exn) :
  get' name more_key internal st = (Raise ex, st1) -> cache st1 = cache st.
Proof. intros Hg. apply get_outcome in Hg. exact Hg. Qed.

End ResourceErrors.

Section ScenarioFacts.

Import Resources Scenario.

Lemma get_is_idempotent_witness :
  let st1 := (get_font fonts "Arial" [12] false st0).2 in
  get_font fonts "Arial" [12] false st0 = (Ok 1%nat, st1) /\
  calls st1 = [CallListdir "res"; CallLoad ("arial", [12]) "res/Arial.TTF" None] /\
  get_font fonts " ARIAL " [12] false st1 = (Ok 1%nat, st1).
Proof.
  cbv zeta.
  assert (Hg : get_font fonts "Arial" [12] false st0
               = (Ok 1%nat, (get_font fonts "Arial" [12] false st0).2))
    by (vm_compute; reflexivity).
  split; [exact Hg |]. split; [vm_compute; reflexivity |].
  destruct (get_is_idempotent compile listdir resources_dirs fonts
              "Arial" [12] false st0 _ 1%nat Hg) as [Hc [_ Hall]].
  destruct (Hall " ARIAL " _ eq_refl Hc) as [H2 _]. exact H2.
Defined.

(** C7 (the code departs from the claim).  [Arial.TTF] is found in [res]
    but [TTF_OpenFont] returns NULL: the request raises [AttributeError],
    not the [IOError] the claim calls LoadError.  The cache stays empty
    and the same request made again lists the directory and calls the
    loader again, as claimed.  A name with no file ([courier]) raises
    [KeyError] and a name that starts with a digit raises [ValueError],
    as claimed; but [a-b], which is no identifier, passes the name test
    and ends in [KeyError]. *)
Theorem get_failed_load_raises_attribute_error :
  let attempt := [CallListdir "res"; CallLoad ("arial", [12]) "res/Arial.TTF" None] in
  let r1 := get_font corrupt_fonts "Arial" [12] false st0 in
  let r2 := get_font corrupt_fonts "Arial" [12] false r1.2 in
  r1.1 = Raise AttributeError /\ r1.1 <> Raise IOError /\
  cache r1.2 = ∅ /\ calls r1.2 = attempt /\
  r2.1 = Raise AttributeError /\ cache r2.2 = ∅ /\
  calls r2.2 = (attempt ++ attempt)%list /\
  (get_font fonts "courier" [12] false st0).1 = Raise KeyError /\
  (get_font fonts "4x4" [12] false st0).1 = Raise ValueError /\
  Re.fullmatch Re.resource_name "a-b" = false /\
  (get_font fonts "a-b" [12] false st0).1 = Raise KeyError.
Proof.
  vm_compute. repeat split; discriminate.
Qed.

End ScenarioFacts.

(** ** Names and [re.match] *)

Section NameFacts.

Import Re.

Lemma append_empty (s1 s2 : string) :
  String.append s1 s2 = EmptyString -> s1 = EmptyString /\ s2 = EmptyString.
Proof. destruct s1; simpl; [auto | discriminate]. Qed.

(** The matcher is correct for the patterns' languages. *)
Lemma nullable_lang (r : regex) : nullable r = true <-> lang r EmptyString.
Proof.
  split.
  - induction r; simpl; intros Hn; try discriminate.
    + constructor.
    + apply andb_true_iff in Hn as [H1 H2].
      change EmptyString with (String.append EmptyString EmptyString).
      constructor; auto.
    + apply orb_true_iff in Hn as [H1 | H2]; [apply lang_alt_l | apply lang_alt_r]; auto.
    + constructor.
  - intros Hl. remember EmptyString as s eqn:Hs.
    induction Hl; simpl; try reflexivity; try discriminate.
    + apply append_empty in Hs as [-> ->]. rewrite IHHl1, IHHl2; reflexivity.
    + rewrite (IHHl Hs). reflexivity.
    + rewrite (IHHl Hs). apply orb_true_r.
Qed.

Lemma star_cons_inv (r : regex) (c : ascii) (s : string) :
  lang (Star r) (String c s) ->
  exists s1 s2, s = String.append s1 s2 /\ lang r (String c s1) /\ lang (Star r) s2.
Proof.
  intros Hl. remember (Star r) as r' eqn:Hr. remember (String c s) as t eqn:Ht.
  revert s Ht. induction Hl; intros s0 Ht; try discriminate.
  injection Hr as ->.
  destruct s1 as [| d s1].
  - apply IHHl2; [reflexivity | exact Ht].
  - change (String d (String.append s1 s2) = String c s0) in Ht.
    injection Ht as -> <-. exists s1, s2. auto.
Qed.

Lemma append_nil_l (s : string) : String.append EmptyString s = s.
Proof. reflexivity. Qed.

Lemma append_cons (c : ascii) (s1 s2 : string) :
  String.append (String c s1) s2 = String c (String.append s1 s2).
Proof. reflexivity. Qed.

Lemma seq_cons_inv (r1 r2 : regex) (c : ascii) (s : string) :
  lang (Seq r1 r2) (String c s) ->
  (lang r1 EmptyString /\ lang r2 (String c s)) \/
  (exists s1 s2, s = String.append s1 s2 /\ lang r1 (String c s1) /\ lang r2 s2).
Proof.
  intros Hl. inversion Hl as [| | ? ? s1 s2 Hl1 Hl2 [Hr1 Hr2] Heq | | | |]; subst.
  destruct s1 as [| d s1].
  - rewrite append_nil_l in Heq. subst. left. auto.
  - rewrite append_cons in Heq. injection Heq as -> <-. right. eauto.
Qed.

Lemma deriv_lang (r : regex) (c : ascii) (s : string) :
  lang (deriv c r) s <-> lang r (String c s).
Proof.
  revert s. induction r as [| | p | r1 IHr1 r2 IHr2 | r1 IHr1 r2 IHr2 | r IHr];
    intros s; simpl.
  - split; intros Hl; inversion Hl.
  - split; intros Hl; inversion Hl.
  - split.
    + destruct (p c) eqn:Hp; intros Hl; inversion Hl; subst. constructor. exact Hp.
    + intros Hl. inversion Hl as [| ? ? Hp | | | | |]; subst. rewrite Hp. constructor.
  - split.
    + intros Hl.
      assert (Hseq : forall t, lang (Seq (deriv c r1) r2) t -> lang (Seq r1 r2) (String c t)).
      { intros t Ht. inversion Ht as [| | ? ? s1 s2 H1 H2 | | | |]; subst.
        rewrite <- append_cons. constructor; [apply IHr1 |]; assumption. }
      destruct (nullable r1) eqn:Hn; [| apply Hseq; exact Hl].
      inversion Hl as [| | | ? ? ? Hl' | ? ? ? Hl' | |]; subst; [apply Hseq; exact Hl' |].
      rewrite <- (append_nil_l (String c s)).
      constructor; [apply nullable_lang; exact Hn | apply IHr2; exact Hl'].
    + intros [[Hn Hl] | [s1 [s2 [-> [H1 H2]]]]]%seq_cons_inv.
      * apply nullable_lang in Hn. rewrite Hn. apply lang_alt_r, IHr2. exact Hl.
      * assert (Hd : lang (Seq (deriv c r1) r2) (String.append s1 s2))
          by (constructor; [apply IHr1 |]; assumption).
        destruct (nullable r1); [apply lang_alt_l |]; exact Hd.
  - split; intros Hl; inversion Hl; subst;
      solve [apply lang_alt_l, IHr1; assumption | apply lang_alt_r, IHr2; assumption].
  - split.
    + intros Hl. inversion Hl as [| | ? ? s1 s2 H1 H2 | | | |]; subst.
      rewrite <- append_cons. constructor; [apply IHr |]; assumption.
    + intros [s1 [s2 [-> [H1 H2]]]]%star_cons_inv.
      constructor; [apply IHr |]; assumption.
Qed.

(** [fullmatch] and [match_] decide what their names say: the whole
    string, respectively some prefix of it, is matched by the pattern. *)
Lemma fullmatch_lang (r : regex) (s : string) : fullmatch r s = true <-> lang r s.
Proof.
  revert r. induction s as [| c s IH]; intros r; simpl.
  - apply nullable_lang.
  - rewrite IH. apply deriv_lang.
Qed.

Lemma match_lang (r : regex) (s : string) :
  match_ r s = true <-> exists p q, s = String.append p q /\ lang r p.
Proof.
  revert r. induction s as [| c s IH]; intros r; simpl.
  - rewrite orb_false_r. rewrite nullable_lang. split.
    + intros Hl. exists EmptyString, EmptyString. auto.
    + intros [p [q [Hs Hl]]]. symmetry in Hs. apply append_empty in Hs as [-> _]. exact Hl.
  - rewrite orb_true_iff, IH, nullable_lang. split.
    + intros [Hl | [p [q [-> Hl]]]].
      * exists EmptyString, (String c s). auto.
      * exists (String c p), q. split; [reflexivity |]. apply deriv_lang. exact Hl.
    + intros [p [q [Hs Hl]]]. destruct p as [| d p]; simpl in Hs.
      * left. exact Hl.
      * injection Hs as <- ->. right. exists p, q. split; [reflexivity |].
        apply deriv_lang. exact Hl.
Qed.

Lemma match_void (s : string) : match_ Void s = false.
Proof. induction s; simpl; auto. Qed.

Lemma match_seq_void (r : regex) (s : string) : match_ (Seq Void r) s = false.
Proof. induction s; simpl; auto. Qed.

Lemma match_alt (r1 r2 : regex) (s : string) :
  match_ (Alt r1 r2) s = match_ r1 s || match_ r2 s.
Proof.
  revert r1 r2. induction s as [| c s IH]; intros r1 r2; simpl.
  - destruct (nullable r1), (nullable r2); reflexivity.
  - rewrite IH. destruct (nullable r1), (nullable r2), (match_ (deriv c r1) s);
      reflexivity.
Qed.

Lemma match_nullable (r : regex) (s : string) : nullable r = true -> match_ r s = true.
Proof. intros Hn. destruct s; simpl; rewrite Hn; reflexivity. Qed.

(** A string the pattern matches as a whole is a string [re.match]
    accepts. *)
Lemma fullmatch_match (r : regex) (s : string) :
  fullmatch r s = true -> match_ r s = true.
Proof.
  revert r. induction s as [| c s IH]; simpl; intros r Hf.
  - rewrite Hf. reflexivity.
  - rewrite (IH _ Hf). apply orb_true_r.
Qed.

(** [re.match(r'[a-z][0-9a-z]*', key)] looks at the first character
    only. *)
Lemma match_resource_name (key : string) :
  match_ resource_name key =
  match key with
  | String c _ => is_lower c
  | EmptyString => false
  end.
Proof.
  destruct key as [| c rest]; [reflexivity |].
  unfold resource_name. simpl. destruct (is_lower c).
  - apply match_nullable. reflexivity.
  - apply match_seq_void.
Qed.

(** [re.match(r'[a-z][0-9a-z]+', key)] looks at the first two
    characters only. *)
Lemma match_animation_name (key : string) :
  match_ animation_name key =
  match key with
  | String c (String d _) => is_lower c && lower_or_digit d
  | _ => false
  end.
Proof.
  destruct key as [| c [| d rest]]; [reflexivity | |].
  - unfold animation_name, Plus. simpl. destruct (is_lower c); reflexivity.
  - unfold animation_name, Plus. simpl. destruct (is_lower c); simpl.
    + destruct (lower_or_digit d); simpl.
      * apply match_nullable. reflexivity.
      * rewrite match_alt, !match_seq_void. reflexivity.
    + apply match_seq_void.
Qed.

End NameFacts.

(** ** Image: animation names *)

Section ImageNameFacts.

Import Image.

(** What [get_source_rect] does with a string that is no integer. *)
Lemma get_source_rect_of_name (img : t) (s : string) (time : float) :
  int_of_str s = None ->
  get_source_rect img (RefStr s) time =
  if negb (Re.match_ Re.animation_name (lower (strip s))) then Raise ValueError
  else match animations img !! lower (strip s) with
       | None => Raise KeyError
       | Some a => frame ← Animation.get_frame a time; frame_rect img frame
       end.
Proof. intros Hs. unfold get_source_rect. simpl. rewrite Hs. reflexivity. Qed.

(** A well-formed animation name never raises [ValueError] for its
    spelling: the test of the code accepts every identifier. *)
Lemma well_formed_name_accepted (key : string) :
  Re.fullmatch Re.animation_name key = true ->
  Re.match_ Re.animation_name key = true.
Proof. apply fullmatch_match. Qed.

(** C8 (the code departs from the claim).  The reference [ab!] is no
    integer and no identifier.  On an image with no animation it raises
    [KeyError] (UnknownAnimationError), not [ValueError]
    (InvalidNameError); on an image whose metadata file has a section
    [ab!] (a name [load_tile_desc] accepts by the same test) it resolves
    to a tile.  Identifiers behave as claimed: [walk] undefined raises
    [KeyError], defined it resolves through [get_frame], in any letter
    case; and [a] and [9lives] raise [ValueError]. *)
Theorem get_source_rect_accepts_malformed_name :
  let plain := mk 100 100 20 20 10 0 ∅ in
  let walk := Animation.mk 10 "loop" [0; 1; 2] in
  let odd := mk 100 100 20 20 10 0 {[ "ab!" := walk ]} in
  let good := mk 100 100 20 20 10 0 {[ "walk" := walk ]} in
  int_of_str "ab!" = None /\
  Re.fullmatch Re.animation_name (lower (strip "ab!")) = false /\
  Re.match_ Re.animation_name (lower (strip "ab!")) = true /\
  get_source_rect plain (RefStr "ab!") 0 = Raise KeyError /\
  get_source_rect plain (RefStr "ab!") 0 <> Raise ValueError /\
  get_source_rect odd (RefStr "ab!") 0.15 = Ok (mkRect 30 10 20 20) /\
  get_source_rect plain (RefStr "walk") 0 = Raise KeyError /\
  Animation.get_frame walk 0.15 = Ok 2 /\
  get_source_rect good (RefStr " Walk ") 0.15 = frame_rect good 2 /\
  get_source_rect good (RefStr "a") 0 = Raise ValueError /\
  get_source_rect good (RefStr "9lives") 0 = Raise ValueError.
Proof.
  vm_compute. repeat split; discriminate.
Qed.

End ImageNameFacts.

(** ** Key hold counters *)

Section KeyFacts.

Import InputHandler.

Variable SDL_GetKeyName : Z -> string.

Abbreviation key_name_ := (key_name SDL_GetKeyName).
Abbreviation process_ := (process SDL_GetKeyName).

Lemma key_lookup (self : t) (q : string) (n : Z) :
  keys self !! lower (strip q) = Some n -> key self q = n.
Proof. intros Hk. unfold key. rewrite Hk. reflexivity. Qed.

(** A press that is not a repeat sets the counter to 1. *)
Lemma process_press (self : t) (sym : Z) (name : string) :
  key_name_ sym = Ok name ->
  exists self', process_ (SDL_KEYDOWN sym false) self = Ok self' /\
                keys self' = <[name := 1]> (keys self).
Proof.
  intros Hn. simpl. rewrite Hn. simpl. eexists. split; reflexivity.
Qed.

(** A repeated press changes nothing. *)
Lemma process_repeat (self : t) (sym : Z) :
  process_ (SDL_KEYDOWN sym true) self = Ok self.
Proof. reflexivity. Qed.

(** A release of a held key removes its entry; a release of a key that
    has no entry raises [KeyError]. *)
Lemma process_release (self : t) (sym : Z) (name : string) :
  key_name_ sym = Ok name ->
  process_ (SDL_KEYUP sym) self =
  match keys self !! name with
  | Some _ => Ok (mk (delete name (keys self)) (joysticks self)
                     (mouse_left self) (mouse_middle self) (mouse_right self))
  | None => Raise KeyError
  end.
Proof. intros Hn. simpl. rewrite Hn. reflexivity. Qed.

(** An update adds one to the counter of every key that has an entry. *)
Lemma update_keys (s : sample) (self self' : t) :
  update s self = Ok self' -> keys self' = (fun n => n + 1) <$> keys self.
Proof.
  unfold update. destruct (update_joysticks _ _); simpl; [| discriminate].
  intros [= <-]. reflexivity.
Qed.

Lemma readings_held (q : string) (ss : list sample) (self : t) (n : Z) (l : list Z) :
  keys self !! lower (strip q) = Some n ->
  readings q ss self = Ok l ->
  l = map (fun i => n + Z.of_nat i) (seq 1 (length ss)).
Proof.
  revert self n l. induction ss as [| s ss IH]; simpl; intros self n l Hk Hr.
  - injection Hr as <-. reflexivity.
  - destruct (update s self) as [self1 |] eqn:Hu; simpl in Hr; [| discriminate].
    destruct (readings q ss self1) as [later |] eqn:Hl; simpl in Hr; [| discriminate].
    injection Hr as <-.
    assert (Hk1 : keys self1 !! lower (strip q) = Some (n + 1)).
    { rewrite (update_keys _ _ _ Hu), lookup_fmap, Hk. reflexivity. }
    rewrite (key_lookup _ _ _ Hk1). f_equal.
    rewrite (IH _ _ _ Hk1 Hl). rewrite <- (seq_shift (length ss) 1), map_map.
    apply map_ext. intros i. lia.
Qed.

Lemma frame_readings_cons (q : string) (s : sample) (events : list event)
      (rest : list (sample * list event)) (self : t) :
  frame_readings SDL_GetKeyName q ((s, events) :: rest) self =
  (self ← api_update SDL_GetKeyName s events self;
   later ← frame_readings SDL_GetKeyName q rest self;
   Ok (key self q :: later)).
Proof. reflexivity. Qed.

Lemma frame_readings_idle (q : string) (ss : list sample) (self : t) :
  frame_readings SDL_GetKeyName q (map (fun s => (s, [])) ss) self = readings q ss self.
Proof.
  revert self. induction ss as [| s ss IH]; simpl; intros self; [reflexivity |].
  unfold api_update. destruct (update s self) as [self1 |]; simpl; [| reflexivity].
  rewrite IH. reflexivity.
Qed.

(** C4, as amended: a press that is not a repeat sets the counter of the
    key to 1; every call of [InputHandler.update] adds 1, so the values
    read after each of five successive updates that follow the press are
    2, 3, 4, 5, 6.  Read once per frame after [MicroPyApi.update], which
    runs the input update first and hands over the pending events
    afterwards, the values are 1, 2, 3, 4, 5 when the press arrives in the
    first of five frames.  While the key has an entry, a repeated press
    leaves the state as it is, and a release removes the entry, after
    which the key reads 0. *)
Theorem key_hold_counter (sym : Z) (name q : string) (self self1 : t) :
  key_name_ sym = Ok name -> lower (strip q) = name ->
  process_ (SDL_KEYDOWN sym false) self = Ok self1 ->
  key self1 q = 1 /\
  (forall ss l, readings q ss self1 = Ok l ->
                l = map (fun i => 1 + Z.of_nat i) (seq 1 (length ss))) /\
  (forall s1 s2 s3 s4 s5 l,
     readings q [s1; s2; s3; s4; s5] self1 = Ok l -> l = [2; 3; 4; 5; 6]) /\
  (forall s1 s2 s3 s4 s5 l,
     frame_readings SDL_GetKeyName q
       [(s1, [SDL_KEYDOWN sym false]); (s2, []); (s3, []); (s4, []); (s5, [])] self
     = Ok l ->
     l = [1; 2; 3; 4; 5]) /\
  (forall self2 n, keys self2 !! name = Some n ->
     process_ (SDL_KEYDOWN sym true) self2 = Ok self2 /\
     exists self3, process_ (SDL_KEYUP sym) self2 = Ok self3 /\
                   keys self3 !! name = None /\ key self3 q = 0).
Proof.
  intros Hn Hq Hp.
  destruct (process_press self sym name Hn) as [self1' [Hp' Hk]].
  rewrite Hp in Hp'. injection Hp' as <-.
  assert (Hk1 : keys self1 !! lower (strip q) = Some 1).
  { rewrite Hq, Hk. apply lookup_insert_eq. }
  split; [apply key_lookup; exact Hk1 |].
  split; [intros ss l; apply readings_held; exact Hk1 |].
  split; [intros s1 s2 s3 s4 s5 l Hr;
          apply (readings_held _ _ _ _ _ Hk1) in Hr; exact Hr |].
  split.
  - intros s1 s2 s3 s4 s5 l.
    change [(s2, []); (s3, []); (s4, []); (s5, [])]
      with (map (fun s : sample => (s, @nil event)) [s2; s3; s4; s5]).
    rewrite frame_readings_cons. unfold api_update.
    destruct (update s1 self) as [u |]; [| discriminate].
    destruct (process_press u sym name Hn) as [pressed [Hpp Hkeys]].
    cbn [mbind result_bind Py.bind poll]. rewrite Hpp.
    cbn [mbind result_bind Py.bind].
    assert (Hkp : keys pressed !! lower (strip q) = Some 1).
    { rewrite Hq, Hkeys. apply lookup_insert_eq. }
    rewrite frame_readings_idle.
    destruct (readings q [s2; s3; s4; s5] pressed) as [later |] eqn:Hl;
      simpl; [| discriminate].
    intros [= <-]. rewrite (key_lookup _ _ _ Hkp).
    rewrite (readings_held _ _ _ _ _ Hkp Hl). reflexivity.
  - intros self2 n Hheld. split; [apply process_repeat |].
    rewrite (process_release self2 sym name Hn), Hheld.
    eexists. split; [reflexivity |]. simpl.
    split; [apply lookup_delete_eq |].
    unfold key. simpl. rewrite Hq, lookup_delete_eq. reflexivity.
Qed.

End KeyFacts.

Section KeyScenario.

Import InputHandler Scenario.

(** C4, as stated, fails: after a press the values read after each of
    five successive updates are 2, 3, 4, 5, 6 and not 1, 2, 3, 4, 5. *)
Lemma press_then_five_updates :
  exists pressed,
    process key_a (SDL_KEYDOWN 97 false) no_input = Ok pressed /\
    readings "a" [idle; idle; idle; idle; idle] pressed = Ok [2; 3; 4; 5; 6] /\
    readings "a" [idle; idle; idle; idle; idle] pressed <> Ok [1; 2; 3; 4; 5].
Proof.
  eexists. split; [reflexivity |]. split; [vm_compute; reflexivity |].
  vm_compute. discriminate.
Qed.

Lemma key_hold_counter_witness :
  frame_readings key_a "A"
    [(idle, [SDL_KEYDOWN 97 false]); (idle, []); (idle, []); (idle, []); (idle, [])]
    no_input
  = Ok [1; 2; 3; 4; 5].
Proof.
  assert (Hn : key_name key_a 97 = Ok "a") by reflexivity.
  assert (Hq : lower (strip "A") = "a") by reflexivity.
  destruct (process_press key_a no_input 97 "a" Hn) as [pressed [Hp _]].
  destruct (key_hold_counter key_a 97 "a" "A" no_input pressed Hn Hq Hp)
    as [_ [_ [_ [H _]]]].
  destruct (frame_readings key_a "A"
    [(idle, [SDL_KEYDOWN 97 false]); (idle, []); (idle, []); (idle, []); (idle, [])]
    no_input) as [l |] eqn:Hl; [| vm_compute in Hl; discriminate].
  f_equal. apply (H idle idle idle idle idle). exact Hl.
Defined.

End KeyScenario.

(** ** Tile-maps with no rows *)

Section EmptyGridFacts.

Import TileMap TileMapManager.

Context {world : Type}.
Variable get_image : string -> world -> result unit * world.

Abbreviation run_ := (run get_image).
Abbreviation load_ := (TileMapManager.load_resource get_image).

Lemma run_blank (lines : list string) (l : locals) (e : world) :
  Forall blank lines -> run_ lines l e = (Ok l, e).
Proof.
  induction 1 as [| line lines Hb _ IH]; simpl; [reflexivity |].
  unfold step. rewrite Hb. simpl. exact IH.
Qed.

Lemma run_app (xs ys : list string) (l l1 : locals) (e e1 : world) :
  run_ xs l e = (Ok l1, e1) -> run_ (xs ++ ys) l e = run_ ys l1 e1.
Proof.
  revert l e. induction xs as [| x xs IH]; simpl; intros l e Hr.
  - injection Hr as <- <-. reflexivity.
  - destruct (step get_image x l e) as [[l' | ex] e']; [| discriminate].
    apply IH. exact Hr.
Qed.

Lemma substring_0_0 (s : string) : substring 0 0 s = "".
Proof. destruct s; reflexivity. Qed.

Lemma step_directive (name line : string) (l : locals) (e e1 : world) :
  directive name line -> tiles_read l = false -> get_image name e = (Ok (), e1) ->
  step get_image line l e
  = (Ok (mkLocals true (TileMapManager.width l) (TileMapManager.rows l) (Some name)), e1).
Proof.
  intros Hd Hl Hg. unfold step. rewrite Hl.
  destruct Hd as [-> | ->]; simpl; change (String.append "" name) with name;
    rewrite substring_0_0; simpl; rewrite Hg; reflexivity.
Qed.

(** A file whose only content is the directive loads as a grid of width
    0 and height 0. *)
Lemma load_resource_no_rows (before after : list string) (line name : string)
      (e e1 : world) :
  Forall blank before -> Forall blank after -> directive name line ->
  get_image name e = (Ok (), e1) ->
  load_ (before ++ line :: after) e = (Ok (TileMap.mk name 0 0 []), e1).
Proof.
  intros Hb Ha Hd Hg. unfold TileMapManager.load_resource.
  rewrite (run_app before (line :: after) _ _ _ _ (run_blank before _ e Hb)).
  simpl. rewrite (step_directive name line (mkLocals false 0 [] None) e e1 Hd eq_refl Hg).
  rewrite (run_blank after _ e1 Ha). reflexivity.
Qed.

(** The loader always sets the height to the number of rows. *)
Lemma load_resource_height (lines : list string) (e e1 : world) (tm : TileMap.t) :
  load_ lines e = (Ok tm, e1) -> TileMap.height tm = len (TileMap.rows tm).
Proof.
  unfold TileMapManager.load_resource.
  destruct (run_ lines _ e) as [[l | ex] e2]; [| discriminate].
  destruct (tileset l); [| discriminate].
  intros [= <- _]. reflexivity.
Qed.

Lemma get_zero_width (tm : TileMap.t) (x y : Z) :
  TileMap.width tm = 0 -> get tm x y = Raise ZeroDivisionError.
Proof. intros Hw. unfold get. rewrite Hw. reflexivity. Qed.

Lemma get_zero_height (tm : TileMap.t) (x y : Z) :
  TileMap.height tm = 0 -> get tm x y = Raise ZeroDivisionError.
Proof.
  intros Hh. unfold get, mod_. rewrite Hh.
  destruct (TileMap.width tm =? 0); reflexivity.
Qed.

(** C10: on a grid whose width or height is 0 every call of [get] raises
    [ZeroDivisionError]; such a grid is what a file with a [tiles]
    directive and no row line loads as; [get] returns a tile only where
    neither is 0, and it does return one on every grid of positive width
    and height with as many rows as its height. *)
Theorem get_on_grid_without_rows (tm : TileMap.t) (x y : Z) :
  (TileMap.width tm = 0 \/ TileMap.height tm = 0 ->
   get tm x y = Raise ZeroDivisionError) /\
  (forall before after line name e e1,
     Forall blank before -> Forall blank after -> directive name line ->
     get_image name e = (Ok (), e1) ->
     exists empty,
       load_ (before ++ line :: after) e = (Ok empty, e1) /\
       TileMap.width empty = 0 /\ TileMap.height empty = 0 /\
       get empty x y = Raise ZeroDivisionError) /\
  (is_ok (get tm x y) = true -> TileMap.width tm <> 0 /\ TileMap.height tm <> 0) /\
  (1 <= TileMap.width tm -> 1 <= TileMap.height tm ->
   TileMap.height tm = len (TileMap.rows tm) -> is_ok (get tm x y) = true).
Proof.
  split; [| split; [| split]].
  - intros [Hw | Hh]; [apply get_zero_width | apply get_zero_height]; assumption.
  - intros before after line name e e1 Hb Ha Hd Hg.
    exists (TileMap.mk name 0 0 []). split.
    + apply load_resource_no_rows; assumption.
    + repeat split.
  - intros Hok. split; intros Hz.
    + rewrite (get_zero_width tm x y Hz) in Hok. discriminate.
    + rewrite (get_zero_height tm x y Hz) in Hok. discriminate.
  - intros Hw Hh Hr. rewrite (get_cell tm x y Hw Hh Hr). reflexivity.
Qed.

End EmptyGridFacts.

Section EmptyGridScenario.

Import TileMap TileMapManager Scenario.

Lemma get_on_grid_without_rows_witness :
  exists empty,
    TileMapManager.load_resource image_found only_directive () = (Ok empty, ()) /\
    TileMap.width empty = 0 /\ TileMap.height empty = 0 /\
    get empty 0 0 = Raise ZeroDivisionError.
Proof.
  destruct (get_on_grid_without_rows image_found (TileMap.mk "my_tiles" 0 0 []) 0 0)
    as [_ [H _]].
  apply (H [String.append "# level one" (String newline EmptyString)]
           [String newline EmptyString]
           (String.append "tiles: my_tiles  ; the tile set" (String newline EmptyString))
           "my_tiles" () ()).
  - repeat constructor.
  - repeat constructor.
  - left. reflexivity.
  - reflexivity.
Defined.

End EmptyGridScenario.

(** ** Joystick axes *)

Section JoystickFacts.

Import Joystick.

Lemma setitem_ok {A} (l : list A) (i : Z) (v : A) :
  0 <= i < len l -> setitem l i v = Ok (<[Z.to_nat i := v]> l).
Proof.
  intros Hi. unfold setitem.
  destruct (Z.ltb_spec i 0); [lia |].
  destruct (Z.ltb_spec i 0); [lia |].
  destruct (Z.leb_spec (len l) i); [lia |]. reflexivity.
Qed.

Lemma len_insert {A} (l : list A) (i : nat) (v : A) : len (<[i := v]> l) = len l.
Proof. unfold len. rewrite length_insert. reflexivity. Qed.

Lemma elem_of_range (n a : Z) : a ∈ range n <-> 0 <= a < n.
Proof. unfold range. rewrite elem_of_seqZ. lia. Qed.

Lemma for_each_ok {A} (P : A -> Prop) (body : Z -> A -> result A) (l : list Z) (a : A) :
  P a ->
  (forall i x, i ∈ l -> P x -> exists x', body i x = Ok x' /\ P x') ->
  exists a', for_each body l a = Ok a' /\ P a'.
Proof.
  revert a. induction l as [| i l IH]; intros a Ha Hbody; simpl.
  - eauto.
  - destruct (Hbody i a) as [a1 [-> Ha1]]; [left | assumption |]. simpl.
    apply IH; [assumption |]. intros j x Hj. apply Hbody. right. exact Hj.
Qed.

Lemma button_step_ok (d : device) (b : Z) (buttons : list Z) :
  0 <= b < len buttons ->
  exists buttons', button_step d b buttons = Ok buttons' /\ len buttons' = len buttons.
Proof.
  intros Hb. unfold button_step.
  destruct (getitem_in_range buttons b Hb) as [old [_ ->]].
  destruct (negb (GetButton d b =? 0)); simpl; rewrite setitem_ok by assumption;
    eexists; (split; [reflexivity | apply len_insert]).
Qed.

(** The two tests on [self.daxis] rewrite the two counters of the axis. *)
Lemma daxis_step_ok (a : Z) (v : float) (daxis : list Z) :
  0 <= a -> a * 2 + 1 < len daxis ->
  exists n p,
    daxis !! Z.to_nat (a * 2) = Some n /\ daxis !! Z.to_nat (a * 2 + 1) = Some p /\
    daxis_step a v daxis =
    Ok (<[Z.to_nat (a * 2 + 1) := positive_count v p]>
          (<[Z.to_nat (a * 2) := negative_count v n]> daxis)).
Proof.
  intros Ha Hlen.
  destruct (getitem_in_range daxis (a * 2)) as [n [Hn Hgn]]; [lia |].
  destruct (getitem_in_range daxis (a * 2 + 1)) as [p [Hp Hgp]]; [lia |].
  exists n, p. split; [exact Hn |]. split; [exact Hp |].
  unfold daxis_step, negative_count, positive_count.
  replace (a * 2 + 0) with (a * 2) by lia.
  assert (Hne : Z.to_nat (a * 2) <> Z.to_nat (a * 2 + 1)) by lia.
  assert (Hp' : forall x, getitem (<[Z.to_nat (a * 2) := x]> daxis) (a * 2 + 1) = Ok p).
  { intros x. rewrite getitem_lookup by lia.
    rewrite list_lookup_insert_ne by exact Hne. rewrite Hp. reflexivity. }
  destruct (v <? - 0.333)%float; simpl.
  - rewrite Hgn. simpl. rewrite setitem_ok by lia. simpl.
    destruct (0.333 <? v)%float.
    + rewrite Hp'. simpl. rewrite setitem_ok by (rewrite len_insert; lia). reflexivity.
    + rewrite setitem_ok by (rewrite len_insert; lia). reflexivity.
  - rewrite setitem_ok by lia. simpl.
    destruct (0.333 <? v)%float.
    + rewrite Hp'. simpl. rewrite setitem_ok by (rewrite len_insert; lia). reflexivity.
    + rewrite setitem_ok by (rewrite len_insert; lia). reflexivity.
Qed.

Lemma axis_step_ok (d : device) (a : Z) (st : list float * list Z) :
  0 <= a < len st.1 -> len st.2 = 2 * len st.1 ->
  exists n p,
    st.2 !! Z.to_nat (a * 2) = Some n /\ st.2 !! Z.to_nat (a * 2 + 1) = Some p /\
    axis_step d a st =
    Ok (<[Z.to_nat a := normalize a (GetAxis d a)]> st.1,
        <[Z.to_nat (a * 2 + 1) := positive_count (normalize a (GetAxis d a)) p]>
          (<[Z.to_nat (a * 2) := negative_count (normalize a (GetAxis d a)) n]> st.2)).
Proof.
  intros Ha Hlen.
  destruct (daxis_step_ok a (normalize a (GetAxis d a)) st.2) as [n [p [Hn [Hp Hs]]]];
    [lia | lia |].
  exists n, p. split; [exact Hn |]. split; [exact Hp |].
  unfold axis_step. rewrite Hs. simpl. rewrite setitem_ok by lia. reflexivity.
Qed.

(** The loop over the axes: an axis of the list gets its normalized
    value and its two counters stepped, the others keep theirs. *)
Lemma axes_loop (d : device) (l : list Z) (st : list float * list Z) :
  NoDup l -> (forall a, a ∈ l -> 0 <= a < len st.1) -> len st.2 = 2 * len st.1 ->
  exists st',
    for_each (axis_step d) l st = Ok st' /\
    len st'.1 = len st.1 /\ len st'.2 = len st.2 /\
    forall a, 0 <= a ->
      let v := normalize a (GetAxis d a) in
      (a ∈ l ->
       st'.1 !! Z.to_nat a = Some v /\
       st'.2 !! Z.to_nat (a * 2) = negative_count v <$> st.2 !! Z.to_nat (a * 2) /\
       st'.2 !! Z.to_nat (a * 2 + 1) = positive_count v <$> st.2 !! Z.to_nat (a * 2 + 1)) /\
      (a ∉ l ->
       st'.1 !! Z.to_nat a = st.1 !! Z.to_nat a /\
       st'.2 !! Z.to_nat (a * 2) = st.2 !! Z.to_nat (a * 2) /\
       st'.2 !! Z.to_nat (a * 2 + 1) = st.2 !! Z.to_nat (a * 2 + 1)).
Proof.
  revert st. induction l as [| i l IH]; intros st Hnd Hin Hlen.
  - exists st. split; [reflexivity |]. split; [reflexivity |].
    split; [reflexivity |]. intros a Ha v. split; [| auto].
    intros Hx. inversion Hx.
  - apply NoDup_cons in Hnd as [Hi Hnd].
    assert (Hir : 0 <= i < len st.1) by (apply Hin; left).
    destruct (axis_step_ok d i st Hir Hlen) as [n [p [Hn [Hp Hs]]]].
    set (vi := normalize i (GetAxis d i)) in *.
    set (st1 := (<[Z.to_nat i := vi]> st.1,
                 <[Z.to_nat (i * 2 + 1) := positive_count vi p]>
                   (<[Z.to_nat (i * 2) := negative_count vi n]> st.2))) in *.
    assert (Hl1 : len st1.1 = len st.1) by apply len_insert.
    assert (Hl2 : len st1.2 = len st.2) by (simpl; rewrite !len_insert; reflexivity).
    destruct (IH st1 Hnd) as [st' [Hrun [Hlen1 [Hlen2 Hall]]]].
    { intros a Ha. rewrite Hl1. apply Hin. right. exact Ha. }
    { rewrite Hl1, Hl2. exact Hlen. }
    exists st'. simpl. rewrite Hs. simpl.
    split; [exact Hrun |]. split; [lia |]. split; [lia |].
    intros a Ha. specialize (Hall a Ha). cbv zeta in Hall.
    destruct Hall as [Hmem Hnot].
    assert (Hother : a <> i ->
              st1.1 !! Z.to_nat a = st.1 !! Z.to_nat a /\
              st1.2 !! Z.to_nat (a * 2) = st.2 !! Z.to_nat (a * 2) /\
              st1.2 !! Z.to_nat (a * 2 + 1) = st.2 !! Z.to_nat (a * 2 + 1)).
    { intros Hne. simpl. rewrite !list_lookup_insert_ne by lia. auto. }
    split.
    + intros [-> | Hal]%elem_of_cons.
      * destruct (Hnot Hi) as [H1 [H2 H3]]. rewrite H1, H2, H3. simpl.
        unfold len in Hir, Hlen.
        rewrite list_lookup_insert_eq by lia.
        rewrite list_lookup_insert_ne by lia.
        rewrite list_lookup_insert_eq by lia.
        rewrite list_lookup_insert_eq by (rewrite length_insert; lia).
        rewrite Hn, Hp. auto.
      * assert (Hne : a <> i) by (intros ->; contradiction).
        destruct (Hmem Hal) as [H1 [H2 H3]]. destruct (Hother Hne) as [_ [O2 O3]].
        rewrite H1, H2, H3, O2, O3. auto.
    + intros [Hne Hal]%not_elem_of_cons.
      destruct (Hnot Hal) as [H1 [H2 H3]]. destruct (Hother Hne) as [O1 [O2 O3]].
      rewrite H1, H2, H3. auto.
Qed.

(** The claim's wording of the normalized value and the code agree: at a
    reading of 0 the code divides by 32768.0 where the claim divides by
    32767.0, and both quotients are 0.0. *)
Lemma normalize_as_claimed (a raw : Z) : normalize a raw = normalized_as_claimed a raw.
Proof.
  unfold normalize, normalized_as_claimed.
  destruct (Z.ltb_spec 0 raw) as [Hpos | Hle].
  - destruct (Z.ltb_spec raw 0); [lia | reflexivity].
  - destruct (Z.ltb_spec raw 0) as [Hneg | Hge]; [reflexivity |].
    assert (raw = 0) as -> by lia. reflexivity.
Qed.

(** On axis 1 a zero result is the positive zero. *)
Lemma normalize_axis_1_zero (raw : Z) :
  (normalize 1 raw =? 0)%float = true -> normalize 1 raw = 0%float.
Proof.
  unfold normalize. simpl.
  generalize (- (if (0 <? raw)%Z then float_of_int raw / 32767.0
                 else float_of_int raw / 32768.0))%float.
  intros q. destruct (q =? 0)%float eqn:Hz; [reflexivity |].
  intros Hv. rewrite Hz in Hv. discriminate.
Qed.

(** C9: on a joystick whose lists have the sizes [__init__] gave them,
    [update] succeeds, and for every axis: the stored value is the
    reading divided by 32768.0 when negative and by 32767.0 otherwise,
    negated on axis 1, where a zero is the positive zero; the
    positive-direction counter (index [2 * axis + 1]) is one more than
    before when the value exceeds 0.333 and 0 otherwise, and the
    negative-direction counter (index [2 * axis]) likewise for values
    below -0.333.  A value of 0.2 resets both counters, a value of 0.5
    steps the positive one and resets the negative one. *)
Theorem joystick_update_axes (d : device) (self : t) :
  len (buttons self) = NumButtons d ->
  len (axis self) = NumAxes d ->
  len (daxis self) = 2 * NumAxes d ->
  exists self',
    update d self = Ok self' /\
    (forall a, 0 <= a < NumAxes d ->
       let v := normalize a (GetAxis d a) in
       v = normalized_as_claimed a (GetAxis d a) /\
       (a = 1 -> (v =? 0)%float = true -> v = 0%float) /\
       axis self' !! Z.to_nat a = Some v /\
       (exists n p,
          daxis self !! Z.to_nat (a * 2) = Some n /\
          daxis self !! Z.to_nat (a * 2 + 1) = Some p /\
          daxis self' !! Z.to_nat (a * 2) =
            Some (if (v <? - 0.333)%float then n + 1 else 0) /\
          daxis self' !! Z.to_nat (a * 2 + 1) =
            Some (if (0.333 <? v)%float then p + 1 else 0))) /\
    (forall old, negative_count 0.2 old = 0 /\ positive_count 0.2 old = 0) /\
    (forall old, negative_count 0.5 old = 0 /\ positive_count 0.5 old = old + 1).
Proof.
  intros Hb Ha Hd.
  destruct (for_each_ok (fun b => len b = NumButtons d) (button_step d)
              (range (NumButtons d)) (buttons self) Hb) as [buttons' [Hbs _]].
  { intros i x Hi%elem_of_range Hx.
    destruct (button_step_ok d i x) as [x' [Hs Hl]]; [lia |].
    exists x'. split; [exact Hs | lia]. }
  destruct (axes_loop d (range (NumAxes d)) (axis self, daxis self))
    as [st' [Hrun [_ [_ Hall]]]].
  { apply NoDup_seqZ. }
  { intros a Hr%elem_of_range. simpl. lia. }
  { simpl. lia. }
  exists (mk buttons' st'.1 st'.2). split; [| split; [| split]].
  - unfold update. rewrite Hbs. simpl. rewrite Hrun. reflexivity.
  - intros a Hr. cbv zeta. specialize (Hall a ltac:(lia)). cbv zeta in Hall.
    destruct Hall as [Hmem _].
    destruct (Hmem (proj2 (elem_of_range _ _) Hr)) as [H1 [H2 H3]]. simpl in *.
    split; [apply normalize_as_claimed |].
    split; [intros ->; apply normalize_axis_1_zero |].
    split; [exact H1 |].
    destruct (getitem_in_range (daxis self) (a * 2)) as [n [Hn _]]; [lia |].
    destruct (getitem_in_range (daxis self) (a * 2 + 1)) as [p [Hp _]]; [lia |].
    exists n, p. rewrite H2, H3, Hn, Hp. auto.
  - intros old. split; reflexivity.
  - intros old. split; reflexivity.
Qed.

End JoystickFacts.

Section JoystickScenario.

Import Joystick Scenario.

Lemma joystick_update_axes_witness :
  normalize 1 (-16384) = 0.5%float /\
  Prim2SF (normalize 1 0) = S754_zero false /\
  Prim2SF (- (float_of_int 0 / 32768.0))%float = S754_zero true /\
  option_map (map daxis) (match updates [stick; stick; stick] (init stick) with
                          | Ok l => Some l | Raise _ => None end)
  = Some [[0; 0; 0; 1]; [0; 0; 0; 2]; [0; 0; 0; 3]] /\
  exists self', update stick (init stick) = Ok self' /\
                axis self' !! 1%nat = Some 0.5%float /\
                daxis self' !! 2%nat = Some 0 /\ daxis self' !! 3%nat = Some 1.
Proof.
  split; [reflexivity |]. split; [reflexivity |]. split; [reflexivity |].
  split; [vm_compute; reflexivity |].
  destruct (joystick_update_axes stick (init stick) eq_refl eq_refl eq_refl)
    as [self' [Hu [Hall _]]].
  exists self'. split; [exact Hu |].
  destruct (Hall 1 ltac:(simpl; lia)) as [_ [_ [Hv [n [p [Hn [Hp [Hneg Hpos]]]]]]]].
  split; [exact Hv |].
  injection Hn as <-. injection Hp as <-.
  split; [exact Hneg | exact Hpos].
Defined.

End JoystickScenario.

(* ===================================================================== *)
(** * Further properties of the modelled code *)
(* ===================================================================== *)

(** ** find_resource, the cache and dispose *)

Section ResourceMore.

Import Resources.

Context {world resource D : Type} `{Countable D}.
Variable re_compile_I : string -> option (string -> bool).
Variable listdir : world -> string -> result (list string).
Variable resources_dirs : list string.
Variable self : kind (world := world) (resource := resource) (D := D).

Abbreviation state2 := (state (world := world) (resource := resource) (D := D)).
Abbreviation find2 := (find_resource re_compile_I listdir).
Abbreviation get2 := (get re_compile_I listdir resources_dirs self).
Abbreviation dispose2 := (dispose (world := world) (resource := resource) (D := D) self).

Abbreviation no_match := (Resources.no_match listdir).
Abbreviation key2 := (key (D := D)).

Lemma first_match_some (rule : string -> bool) (root : string)
      (candidates : list string) (path : string) :
  first_match rule root candidates = Some path ->
  exists before c after,
    candidates = (before ++ c :: after)%list /\ rule c = true /\
    (forall b, b ∈ before -> rule b = false) /\ path = path_join root c.
Proof.
  induction candidates as [| c cs IH]; simpl; [discriminate |].
  destruct (rule c) eqn:Hc.
  - intros [= <-]. exists [], c, cs. repeat split; auto.
    intros b Hb. inversion Hb.
  - intros Hf. destruct (IH Hf) as (before & c' & after & -> & Hr & Hb & ->).
    exists (c :: before), c', after. repeat split; auto.
    intros b [-> | Hin]%elem_of_cons; auto.
Qed.

Lemma first_match_none (rule : string -> bool) (root : string)
      (candidates : list string) :
  first_match rule root candidates = None ->
  forall c, c ∈ candidates -> rule c = false.
Proof.
  induction candidates as [| c cs IH]; simpl; intros Hf x Hx; [inversion Hx |].
  destruct (rule c) eqn:Hc; [discriminate |].
  apply elem_of_cons in Hx as [-> | Hx]; auto.
Qed.

Lemma scan_roots_found (rule : string -> bool) (roots : list string) (st st' : state2)
      (path : string) :
  scan_roots listdir rule roots st = (Ok (Some path), st') ->
  exists before root after candidates,
    roots = (before ++ root :: after)%list /\
    (forall r, r ∈ before -> no_match rule (env st) r) /\
    listdir (env st) root = Ok candidates /\
    first_match rule root candidates = Some path /\
    calls st' = (calls st ++ (CallListdir <$> before ++ [root]))%list.
Proof.
  revert st. induction roots as [| root rest IH]; simpl; intros st Hs; [discriminate |].
  destruct (listdir (env st) root) as [candidates | ex] eqn:Hl; [| discriminate].
  destruct (first_match rule root candidates) as [p |] eqn:Hf.
  - injection Hs as <- <-. exists [], root, rest, candidates.
    repeat split; auto. intros r Hr. inversion Hr.
  - apply IH in Hs as (before & root' & after & cs & -> & Hb & Hl' & Hf' & Hc).
    exists (root :: before), root', after, cs. simpl in *.
    split; [reflexivity |]. split.
    { intros r [-> | Hr]%elem_of_cons; [| auto].
      exists candidates. split; [exact Hl |]. apply (first_match_none _ _ _ Hf). }
    split; [exact Hl' |]. split; [exact Hf' |].
    rewrite Hc, <- app_assoc. reflexivity.
Qed.

Lemma scan_roots_not_found (rule : string -> bool) (roots : list string)
      (st st' : state2) :
  scan_roots listdir rule roots st = (Ok None, st') ->
  (forall r, r ∈ roots -> no_match rule (env st) r) /\
  calls st' = (calls st ++ (CallListdir <$> roots))%list.
Proof.
  revert st. induction roots as [| root rest IH]; simpl; intros st Hs.
  - injection Hs as <-. split; [intros r Hr; inversion Hr |].
    rewrite app_nil_r. reflexivity.
  - destruct (listdir (env st) root) as [candidates | ex] eqn:Hl; [| discriminate].
    destruct (first_match rule root candidates) as [p |] eqn:Hf; [discriminate |].
    apply IH in Hs as [Hall Hc]. simpl in *. split.
    + intros r [-> | Hr]%elem_of_cons; [| auto].
      exists candidates. split; [exact Hl |]. apply (first_match_none _ _ _ Hf).
    + rewrite Hc, <- app_assoc. reflexivity.
Qed.

(** X1: a search that returns a path returns the first accepted entry of
    the first directory that has one, joined to that directory; the
    directories before it were listed and hold no accepted entry, the
    directories after it are not listed.  A search that returns [None]
    has listed every directory and found no accepted entry in any. *)
Theorem find_resource_first_of_first (name : string) (types roots : list string)
        (st st' : state2) (found : option string) :
  find2 name types roots st = (Ok found, st') ->
  exists rule,
    re_compile_I (name ++ ".(" ++ String.concat "|" types ++ ")") = Some rule /\
    match found with
    | Some path =>
        exists before root after cs_before c cs_after,
          roots = (before ++ root :: after)%list /\
          (forall r, r ∈ before -> no_match rule (env st) r) /\
          listdir (env st) root = Ok (cs_before ++ c :: cs_after)%list /\
          (forall b, b ∈ cs_before -> rule b = false) /\
          rule c = true /\
          path = path_join root c /\
          calls st' = (calls st ++ (CallListdir <$> before ++ [root]))%list
    | None =>
        (forall r, r ∈ roots -> no_match rule (env st) r) /\
        calls st' = (calls st ++ (CallListdir <$> roots))%list
    end.
Proof.
  unfold find_resource.
  destruct (re_compile_I _) as [rule |]; [| discriminate].
  intros Hs. exists rule. split; [reflexivity |].
  destruct found as [path |].
  - apply scan_roots_found in Hs
      as (before & root & after & cs & -> & Hb & Hl & Hf & Hc).
    apply first_match_some in Hf as (pre & c & post & -> & Hr & Hpre & ->).
    exists before, root, after, pre, c, post. repeat split; auto.
  - apply scan_roots_not_found in Hs. exact Hs.
Qed.

(** X2: a request touches no cache entry but its own: an entry under
    another name, or under the same name with other discriminators (a
    font in another size), is neither added, changed nor removed. *)
Theorem get_leaves_other_keys (name : string) (more_key : list D) (internal : bool)
        (st st' : state2) (res : result resource) (k : key2) :
  get2 name more_key internal st = (res, st') ->
  k <> (lower (strip name), more_key) ->
  cache st' !! k = cache st !! k.
Proof.
  intros Hg Hk. apply get_outcome in Hg. destruct res as [r | ex].
  - destruct Hg as [_ [_ [-> | [_ ->]]]]; [reflexivity |].
    apply lookup_insert_ne. intros Heq. apply Hk. symmetry. exact Heq.
  - rewrite Hg. reflexivity.
Qed.

Lemma dispose_fold (l : list (key2 * resource)) (st : state2) :
  let st' := fold_left
               (fun st kr => set_env (free_resource self kr.2 (env st))
                                     (record (CallFree kr.2) st)) l st in
  cache st' = cache st /\
  calls st' = (calls st ++ ((fun kr => CallFree kr.2) <$> l))%list.
Proof.
  revert st. induction l as [| kr l IH]; intros st; simpl.
  - split; [reflexivity |]. rewrite app_nil_r. reflexivity.
  - destruct (IH (set_env (free_resource self kr.2 (env st))
                          (record (CallFree kr.2) st))) as [Hc Hl].
    simpl in *. split; [exact Hc |]. rewrite Hl, <- app_assoc. reflexivity.
Qed.

Lemma items_listed_nodup (m : gmap key2 resource) (ks : list key2) :
  NoDup ks -> NoDup (omap (fun k => pair k <$> m !! k) ks).
Proof.
  induction 1 as [| k ks Hk Hks IH]; simpl; [constructor |].
  destruct (m !! k) as [r |]; simpl; [| exact IH].
  constructor; [| exact IH].
  intros (k' & Hin & Hsome)%list_elem_of_omap.
  destruct (m !! k') as [r' |]; simpl in Hsome; [| discriminate].
  injection Hsome as -> ->. contradiction.
Qed.

(** [items] lists every entry of the cache once. *)
Lemma items_perm (st : state2) : items st ≡ₚ map_to_list (cache st).
Proof.
  apply NoDup_Permutation.
  - unfold items. apply NoDup_app. split; [| split].
    + apply items_listed_nodup, NoDup_remove_dups.
    + intros [k r] (k' & Hin & Hsome)%list_elem_of_omap Hf.
      destruct (cache st !! k') as [r' |]; simpl in Hsome; [| discriminate].
      injection Hsome as -> ->.
      apply list_elem_of_filter in Hf as [Hnot _]. simpl in Hnot.
      apply Hnot. exact (proj1 (elem_of_remove_dups _ _) Hin).
    + apply NoDup_filter, NoDup_map_to_list.
  - apply NoDup_map_to_list.
  - intros [k r]. unfold items. rewrite elem_of_app, elem_of_map_to_list. split.
    + intros [(k' & Hin & Hsome)%list_elem_of_omap | Hf].
      * destruct (cache st !! k') as [r' |] eqn:Hk; simpl in Hsome; [| discriminate].
        injection Hsome as -> ->. exact Hk.
      * apply list_elem_of_filter in Hf as [_ Hin].
        apply elem_of_map_to_list in Hin. exact Hin.
    + intros Hk. destruct (decide (k ∈ order st)) as [Hin | Hnot].
      * left. apply list_elem_of_omap. exists k.
        split; [exact (proj2 (elem_of_remove_dups _ _) Hin) |]. rewrite Hk. reflexivity.
      * right. apply list_elem_of_filter. split; [exact Hnot |].
        apply elem_of_map_to_list. exact Hk.
Qed.

(** X3: [dispose] empties the cache and frees every cached resource, each
    entry once and nothing else: the calls it adds are one [free_resource]
    per entry of the cache. *)
Theorem dispose_frees_every_entry (st : state2) :
  cache (dispose self st) = ∅ /\
  (exists freed,
     calls (dispose self st) = (calls st ++ (CallFree <$> freed))%list /\
     length freed = size (cache st) /\
     forall r, r ∈ freed <-> exists k, cache st !! k = Some r).
Proof.
  unfold dispose. split; [reflexivity |].
  destruct (dispose_fold (items st) st) as [_ Hcalls].
  cbv zeta in Hcalls. exists (snd <$> items st). split; [| split].
  - simpl. rewrite Hcalls. rewrite <- list_fmap_compose. reflexivity.
  - rewrite length_fmap, (Permutation_length (items_perm st)).
    apply length_map_to_list.
  - intros r. rewrite list_elem_of_fmap. split.
    + intros [[k r'] [-> Hin]]. exists k.
      rewrite (items_perm st) in Hin. apply elem_of_map_to_list in Hin. exact Hin.
    + intros [k Hk]. exists (k, r). split; [reflexivity |].
      rewrite (items_perm st). apply elem_of_map_to_list. exact Hk.
Qed.

Lemma scan_roots_order (rule : string -> bool) (roots : list string)
      (st st' : state2) (res : result (option string)) :
  scan_roots listdir rule roots st = (res, st') -> order st' = order st.
Proof.
  revert st. induction roots as [| root rest IH]; simpl; intros st Hs.
  - injection Hs as _ <-. reflexivity.
  - destruct (listdir (env st) root) as [candidates | ex].
    + destruct (first_match rule root candidates).
      * injection Hs as _ <-. reflexivity.
      * apply IH in Hs. simpl in Hs. exact Hs.
    + injection Hs as _ <-. reflexivity.
Qed.

Lemma find_resource_order (name : string) (types roots : list string)
      (st st' : state2) (res : result (option string)) :
  find2 name types roots st = (res, st') -> order st' = order st.
Proof.
  unfold find_resource. destruct (re_compile_I _).
  - apply scan_roots_order.
  - intros [= _ <-]. reflexivity.
Qed.

(** What a request does to the order of the dictionary: a handle loaded
    for a key that was not cached puts its key last; nothing else
    changes the order. *)
Lemma get_order (name : string) (more_key : list D) (internal : bool)
      (st st' : state2) (res : result resource) :
  get2 name more_key internal st = (res, st') ->
  order st' =
  match res, cache st !! (lower (strip name), more_key) with
  | Ok _, None => (order st ++ [(lower (strip name), more_key)])%list
  | _, _ => order st
  end.
Proof.
  unfold get.
  destruct (negb internal && negb (Re.match_ Re.resource_name (lower (strip name)))).
  { intros [= <- <-]. reflexivity. }
  destruct (cache st !! (lower (strip name), more_key)) as [r0 |] eqn:Hc.
  { intros [= <- <-]. reflexivity. }
  destruct internal.
  - destruct (load_internal_resource self _ _) as [[[r |] | ex] e];
      intros [= <- <-]; simpl; try reflexivity.
    match goal with
    | |- match ?x with _ => _ end = _ =>
        replace x with (@None resource) by (symmetry; exact Hc)
    end.
    reflexivity.
  - destruct (find_resource _ _ _ (file_types self) resources_dirs st)
      as [[filename | ex] st1] eqn:Hf.
    2:{ intros [= <- <-]. apply (find_resource_order _ _ _ _ _ _ Hf). }
    pose proof (find_resource_order _ _ _ _ _ _ Hf) as Ho1.
    destruct (find_resource_cache _ _ _ _ _ _ _ _ Hf) as [Hc1 _].
    destruct (match meta_file_types self with
              | [] => (Ok None, st1)
              | _ => find_resource _ _ _ (meta_file_types self) resources_dirs st1
              end) as [[meta | ex] st2] eqn:Hm.
    2:{ intros [= <- <-]. destruct (meta_file_types self).
        - injection Hm as _ <-. exact Ho1.
        - rewrite (find_resource_order _ _ _ _ _ _ Hm). exact Ho1. }
    assert (Ho2 : order st2 = order st /\ cache st2 = cache st).
    { destruct (meta_file_types self).
      - injection Hm as _ <-. auto.
      - rewrite (find_resource_order _ _ _ _ _ _ Hm).
        destruct (find_resource_cache _ _ _ _ _ _ _ _ Hm) as [Hc2 _].
        split; [exact Ho1 | congruence]. }
    destruct Ho2 as [Ho2 Hc2].
    destruct filename as [filename |].
    2:{ intros [= <- <-]. exact Ho2. }
    destruct (load_resource self _ _ _ _) as [[[r |] | ex] e];
      intros [= <- <-]; simpl; try exact Ho2.
    rewrite Ho2.
    match goal with
    | |- match ?x with _ => _ end = _ =>
        replace x with (@None resource)
          by (symmetry; etransitivity; [| exact Hc]; f_equal; exact Hc2)
    end.
    reflexivity.
Qed.

Lemma in_order_items (st : state2) :
  in_order st ->
  (items st).*2 = omap (fun k => cache st !! k) (order st).
Proof.
  intros [Hnd Hkeys]. unfold items.
  assert (Hrest : filter (fun kr => kr.1 ∉ order st) (map_to_list (cache st)) = []).
  { destruct (filter _ (map_to_list (cache st))) as [| [k r] rest] eqn:Hf;
      [reflexivity |].
    assert (Hin : (k, r) ∈ filter (fun kr => kr.1 ∉ order st)
                              (map_to_list (cache st)))
      by (rewrite Hf; left).
    apply list_elem_of_filter in Hin as [Hnot Hin].
    apply elem_of_map_to_list in Hin. exfalso. apply Hnot, Hkeys. eauto. }
  rewrite Hrest, app_nil_r.
  assert (Hid : remove_dups (order st) = order st).
  { clear -Hnd. induction Hnd as [| k ks Hk Hks IH]; [reflexivity |].
    simpl. destruct (decide_rel elem_of k ks); [contradiction |].
    rewrite IH. reflexivity. }
  rewrite Hid. clear.
  induction (order st) as [| k ks IH]; [reflexivity |].
  cbn [omap list_omap]. destruct (cache st !! k) as [r |]; cbn [fmap option_fmap option_map].
  - rewrite fmap_cons. cbn [snd]. f_equal. exact IH.
  - exact IH.
Qed.

(** X25: [dispose] frees the resources in the order in which they were
    first loaded.  A cache that has only been filled by [get] since it
    was empty lists its keys, each once, in the order of the first
    successful load; [get] keeps this true and puts the key of a newly
    loaded resource last; and [dispose] calls [free_resource] on the
    resources in exactly that order, leaving an empty cache with the
    same property. *)
Theorem dispose_frees_in_insertion_order (st : state2) :
  in_order st ->
  calls (dispose self st)
  = (calls st ++ (CallFree <$> omap (fun k => cache st !! k) (order st)))%list /\
  in_order (dispose self st) /\
  (forall name more_key internal res st',
     get2 name more_key internal st = (res, st') ->
     in_order st' /\
     order st' =
     match res, cache st !! (lower (strip name), more_key) with
     | Ok _, None => (order st ++ [(lower (strip name), more_key)])%list
     | _, _ => order st
     end).
Proof.
  intros Hin. split; [| split].
  - unfold dispose. destruct (dispose_fold (items st) st) as [_ Hcalls].
    cbv zeta in Hcalls. simpl. rewrite Hcalls.
    rewrite <- (in_order_items st Hin), <- list_fmap_compose. reflexivity.
  - unfold dispose, in_order. simpl. split; [constructor |].
    intros k. rewrite lookup_empty. split.
    + intros Hk. inversion Hk.
    + intros [r Hr]. discriminate Hr.
  - intros name more_key internal res st' Hget.
    pose proof (get_order _ _ _ _ _ _ Hget) as Ho. split; [| exact Ho].
    pose proof (get_outcome _ _ _ _ _ _ _ _ _ _ Hget) as Hout.
    destruct Hin as [Hnd Hkeys]. unfold in_order.
    destruct res as [r | ex].
    + destruct Hout as (_ & _ & [Hsame | [Hnone Hins]]).
      * assert (Hsome : is_Some (cache st !! (lower (strip name), more_key))).
        { rewrite <- Hsame.
          destruct (get_outcome _ _ _ _ _ _ _ _ _ _ Hget) as (_ & Hr & _). eauto. }
        destruct Hsome as [r0 Hr0]. rewrite Hr0 in Ho. rewrite Ho, Hsame. auto.
      * rewrite Hnone in Ho. rewrite Ho, Hins. split.
        -- apply NoDup_app. split; [exact Hnd |]. split; [| apply NoDup_singleton].
           intros k Hk ->%list_elem_of_singleton.
           apply Hkeys in Hk as [r0 Hr0].
           assert (Hboth : Some r0 = None)
             by (etransitivity; [symmetry; exact Hr0 | exact Hnone]).
           discriminate Hboth.
        -- intros k. rewrite elem_of_app, list_elem_of_singleton, Hkeys.
           destruct (decide (k = (lower (strip name), more_key))) as [-> | Hne].
           ++ rewrite lookup_insert_eq. split; [eauto | auto].
           ++ rewrite lookup_insert_ne by congruence. split; [| auto].
              intros [Hk | Hk]; [exact Hk | contradiction].
    + rewrite Ho, Hout. auto.
Qed.


End ResourceMore.

(** ** The tile-map loader *)

Section LoaderMore.

Import TileMapManager.

Context {world : Type}.
Variable get_image : string -> world -> result unit * world.

Abbreviation run2 := (run get_image).
Abbreviation step2 := (step get_image).
Abbreviation load2 := (TileMapManager.load_resource get_image).

Lemma match_tile_description_first (c : ascii) (r : string) :
  Re.match_ Re.tile_description (String c r) = true -> is_digit c || is_lower c = true.
Proof.
  unfold Re.tile_description, Re.Plus, Re.Opt, Re.Lit. simpl.
  destruct (is_digit c); [reflexivity |]. destruct (is_lower c); [reflexivity |].
  rewrite match_alt, !match_seq_void. discriminate.
Qed.

Lemma repeat_groups_first (c : ascii) (r g1 g2 : string) :
  is_digit c || is_lower c = true ->
  repeat_groups (String c r) = Some (g1, g2) -> exists g, g1 = String c g.
Proof.
  intros Hc. simpl.
  assert (Hstar : Ascii.eqb c "*" = false).
  { destruct (Ascii.eqb_spec c "*") as [-> | _]; [discriminate | reflexivity]. }
  rewrite Hstar. simpl. destruct (Ascii.eqb c newline); [discriminate |].
  destruct (repeat_groups r) as [[g1' g2'] |]; [| discriminate].
  intros [= <- _]. eauto.
Qed.

Lemma elem_of_repeat {A} (x y : A) (n : nat) : x ∈ repeat y n -> x = y.
Proof.
  induction n as [| n IH]; simpl; intros Hx; [inversion Hx |].
  apply elem_of_cons in Hx as [-> | Hx]; auto.
Qed.

Lemma parse_tiles_cells (tiles row row' : list string) :
  (forall c, c ∈ row -> Spec.cell_ok c = true) ->
  parse_tiles tiles row = Ok row' ->
  forall c, c ∈ row' -> Spec.cell_ok c = true.
Proof.
  revert row. induction tiles as [| tile rest IH]; simpl; intros row Hrow Hp.
  - injection Hp as <-. exact Hrow.
  - destruct (negb (String.eqb tile "") && negb (Re.match_ Re.tile_description tile))
      eqn:Hbad; [discriminate |].
    set (tile1 := if String.eqb tile "" then "0" else tile) in *.
    assert (Hok : Spec.cell_ok tile1 = true).
    { subst tile1. destruct tile as [| ch t]; [reflexivity |].
      change (String.eqb (String ch t) "") with false in *.
      apply match_tile_description_first with (r := t).
      destruct (Re.match_ Re.tile_description (String ch t)); [reflexivity | discriminate]. }
    destruct (repeat_groups tile1) as [[g1 g2] |] eqn:Hg.
    + eapply IH; [| exact Hp].
      intros c [Hc | Hc]%elem_of_app; [auto |].
      apply elem_of_repeat in Hc as ->.
      destruct tile1 as [| ch t]; [discriminate |].
      destruct (repeat_groups_first ch t g1 g2 Hok Hg) as [g ->]. exact Hok.
    + eapply IH; [| exact Hp].
      intros c [Hc | Hc]%elem_of_app; [auto |].
      apply elem_of_repeat in Hc as ->. exact Hok.
Qed.

Lemma step_grid_ok (line : string) (l l' : locals) (e e' : world) :
  Spec.grid_ok l -> step2 line l e = (Ok l', e') -> Spec.grid_ok l'.
Proof.
  intros (Hfit & Hempty & Hmax & Hcells & Hdir). unfold step.
  destruct (String.eqb (clean line) "").
  { intros [= <- _]. repeat split; assumption. }
  destruct (tiles_read l) eqn:Hread.
  - destruct (parse_tiles (split_commas (clean line)) []) as [row |] eqn:Hp;
      [| discriminate].
    intros [= <- _]. unfold Spec.grid_ok. simpl. repeat split.
    + intros r [Hr | ->%list_elem_of_singleton]%elem_of_app; [| lia].
      specialize (Hfit r Hr). lia.
    + intros Hnil. destruct (rows l); discriminate.
    + intros _. destruct (Z.le_gt_cases (width l) (len row)) as [Hle | Hgt].
      * exists row. split; [apply elem_of_app; right; left | lia].
      * destruct (rows l) as [| r0 rs] eqn:Hrows.
        { rewrite Hempty in Hgt by reflexivity. pose proof (len_nonneg row). lia. }
        destruct Hmax as (r & Hr & Hlen); [discriminate |].
        exists r. split; [apply elem_of_app; left; exact Hr | lia].
    + intros r c [Hr | ->%list_elem_of_singleton]%elem_of_app Hc; [eauto |].
      apply (parse_tiles_cells (split_commas (clean line)) [] row); [| exact Hp | exact Hc].
      intros c' Hc'. inversion Hc'.
    + discriminate.
  - destruct (String.eqb (substring 0 6 (clean line)) "tiles:"
              || String.eqb (substring 0 6 (clean line)) "tiles="); [| discriminate].
    destruct (after_first_sep (clean line)) as [name |]; [| discriminate].
    destruct (get_image name e) as [[u | ex] e1]; [| discriminate].
    intros [= <- _]. unfold Spec.grid_ok. simpl.
    rewrite (Hdir eq_refl) in *. repeat split; auto; discriminate.
Qed.

Lemma run_grid_ok (lines : list string) (l l' : locals) (e e' : world) :
  Spec.grid_ok l -> run2 lines l e = (Ok l', e') -> Spec.grid_ok l'.
Proof.
  revert l e. induction lines as [| line rest IH]; simpl; intros l e Hok Hr.
  - injection Hr as <- _. exact Hok.
  - destruct (step2 line l e) as [[l1 | ex] e1] eqn:Hs; [| discriminate].
    apply (IH l1 e1); [| exact Hr]. apply (step_grid_ok _ _ _ _ _ Hok Hs).
Qed.

Lemma load_resource_locals (lines : list string) (e e' : world) (tm : TileMap.t) :
  load2 lines e = (Ok tm, e') ->
  exists l, Spec.grid_ok l /\ TileMap.rows tm = rows l /\ TileMap.width tm = width l /\
            TileMap.height tm = len (rows l).
Proof.
  unfold TileMapManager.load_resource.
  destruct (run2 lines _ e) as [[l | ex] e1] eqn:Hr; [| discriminate].
  destruct (tileset l); [| discriminate].
  intros [= <- _]. exists l. split; [| simpl; auto].
  apply (run_grid_ok _ _ _ _ _) in Hr; [exact Hr |].
  unfold Spec.grid_ok. simpl. repeat split; auto.
  - intros r Hr'. inversion Hr'.
  - intros Hne. contradiction.
  - intros r c Hr'. inversion Hr'.
Qed.

(** X5: the grid of a loaded tile-map: its height is the number of
    stored rows, no row is longer than its width, and its width is the
    length of a longest row (0 when there are no rows and whenever every
    row is empty). *)
Theorem load_resource_width_is_longest_row (lines : list string) (e e' : world)
        (tm : TileMap.t) :
  load2 lines e = (Ok tm, e') ->
  TileMap.height tm = len (TileMap.rows tm) /\
  (forall row, row ∈ TileMap.rows tm -> len row <= TileMap.width tm) /\
  (TileMap.rows tm = [] -> TileMap.width tm = 0) /\
  (TileMap.rows tm <> [] ->
   exists row, row ∈ TileMap.rows tm /\ len row = TileMap.width tm).
Proof.
  intros (l & (Hfit & Hempty & Hmax & _ & _) & Hrows & Hw & Hh)%load_resource_locals.
  rewrite Hrows, Hw, Hh. auto.
Qed.

(** X6: every cell a loaded tile-map stores is a well-formed tile
    reference: it is not empty and starts with a digit or a lower-case
    letter (an empty cell of the file is stored as ["0"], and a repeat
    suffix is stripped). *)
Theorem load_resource_cells_well_formed (lines : list string) (e e' : world)
        (tm : TileMap.t) (row : list string) (c : string) :
  load2 lines e = (Ok tm, e') ->
  row ∈ TileMap.rows tm -> c ∈ row -> Spec.cell_ok c = true.
Proof.
  intros (l & (_ & _ & _ & Hcells & _) & Hrows & _)%load_resource_locals.
  rewrite Hrows. apply Hcells.
Qed.

(** X7: on a loaded tile-map of width at least 1, [get] never raises: for
    all integers it returns ["0"] or a well-formed tile reference stored
    in the file. *)
Theorem load_then_get_never_raises (lines : list string) (e e' : world)
        (tm : TileMap.t) (x y : Z) :
  load2 lines e = (Ok tm, e') -> 1 <= TileMap.width tm ->
  exists c, TileMap.get tm x y = Ok c /\ (c = "0" \/ Spec.cell_ok c = true).
Proof.
  intros (l & (_ & Hempty & _ & Hcells & _) & Hrows & Hw & Hh)%load_resource_locals Hpos.
  assert (Hne : rows l <> []).
  { intros Hnil. rewrite Hw, (Hempty Hnil) in Hpos. lia. }
  assert (Hheight : 1 <= TileMap.height tm).
  { rewrite Hh. destruct (rows l); [contradiction |]. unfold len. simpl. lia. }
  rewrite get_cell; [| assumption | assumption | rewrite Hh, Hrows; reflexivity].
  eexists. split; [reflexivity |]. unfold TileMap.cell. rewrite Hrows.
  destruct (rows l !! _) as [row |] eqn:Hrow; [| auto].
  destruct (row !! _) as [c |] eqn:Hc; [| auto]. simpl. right.
  apply (Hcells row c).
  - apply list_elem_of_lookup. eauto.
  - apply list_elem_of_lookup. eauto.
Qed.

(** X8: a file with no content line (empty, or only comments and blank
    lines) does not raise the loader's [IOError] but [UnboundLocalError]:
    the tile set was never named when the [TileMap] is built.  A file
    whose first content line is not the directive raises [IOError], and
    [get_image] is not called. *)
Theorem load_resource_without_directive (before after : list string) (line : string)
        (e : world) :
  Forall blank before ->
  load2 before e = (Raise UnboundLocalError, e) /\
  (~ blank line -> Spec.directive_head line = false ->
   load2 (before ++ line :: after) e = (Raise IOError, e)).
Proof.
  intros Hb. unfold TileMapManager.load_resource. split.
  - rewrite (run_blank get_image before _ e Hb). reflexivity.
  - intros Hnb Hhead.
    rewrite (run_app get_image before (line :: after) _ _ _ _
               (run_blank get_image before _ e Hb)).
    simpl. unfold step. unfold blank in Hnb.
    destruct (String.eqb_spec (clean line) ""); [contradiction |]. simpl.
    unfold Spec.directive_head in Hhead. rewrite Hhead. reflexivity.
Qed.

End LoaderMore.

(** ** Animations and tile geometry *)

Section GeometryMore.

(** A test that holds of each of the 256 characters holds of every
    character. *)
Lemma ascii_cases (P : ascii -> bool) :
  List.forallb P (List.map ascii_of_nat (List.seq 0 256)) = true ->
  forall c, P c = true.
Proof.
  intros Hall c. rewrite List.forallb_forall in Hall. apply Hall.
  rewrite <- (ascii_nat_embedding c). apply List.in_map, List.in_seq.
  pose proof (nat_ascii_bounded c). lia.
Qed.

(** What is left of a string that starts with a character [int] does
    not skip. *)
Lemma int_rstrip_head (c : ascii) (r : string) :
  is_c_space c = false -> exists r', int_rstrip (String c r) = String c r'.
Proof.
  intros Hc. cbn [int_rstrip]. rewrite Hc. destruct (int_rstrip r); eauto.
Qed.

Lemma strip_head (s : string) (c : ascii) (r : string) :
  strip s = String c r -> exists r1, lstrip s = String c r1.
Proof.
  unfold strip. destruct (lstrip s) as [| c0 r1]; [discriminate |].
  cbn [rstrip]. destruct (rstrip r1).
  - destruct (is_space c0); [discriminate |]. intros [= -> _]. eauto.
  - intros [= -> _]. eauto.
Qed.

(** The first character [int] does not skip is the first one [strip]
    does not remove, or one of the four separators before it. *)
Lemma int_lstrip_head (s : string) (c : ascii) (r1 : string) :
  lstrip s = String c r1 ->
  exists c0 rest,
    int_lstrip s = String c0 rest /\
    (c0 = c \/ is_space c0 = true) /\ is_c_space c0 = false.
Proof.
  assert (Hsub : forall a, is_c_space a = true -> is_space a = true).
  { intros a Ha.
    pose proof (ascii_cases (fun a => implb (is_c_space a) (is_space a))
                  ltac:(vm_compute; reflexivity) a) as Hall.
    simpl in Hall. rewrite Ha in Hall. exact Hall. }
  induction s as [| a s IH]; [discriminate |].
  cbn [lstrip int_lstrip]. destruct (is_space a) eqn:Hsp.
  - intros Hl. destruct (is_c_space a) eqn:Hcs.
    + apply IH, Hl.
    + exists a, s. auto.
  - intros [= -> ->]. destruct (is_c_space c) eqn:Hcs.
    + apply Hsub in Hcs. congruence.
    + exists c, r1. auto.
Qed.

Lemma int_of_str_head (s : string) (c : ascii) (r : string) :
  int_rstrip (int_lstrip s) = String c r -> is_digit c = false ->
  c <> "-"%char -> c <> "+"%char -> c <> "_"%char ->
  int_of_str s = None.
Proof.
  intros Hs Hd Hm Hp Hu. unfold int_of_str. rewrite Hs.
  assert (Hnone : int_digits 0 false (String c r) = None).
  { simpl. rewrite Hd. destruct (Ascii.eqb_spec c "_"); [contradiction | reflexivity]. }
  destruct c as [[] [] [] [] [] [] [] []];
    first [ exact Hnone
          | exfalso; apply Hm; reflexivity
          | exfalso; apply Hp; reflexivity ].
Qed.

(** A name that passes the test of [get_source_rect] is no integer. *)
Lemma name_not_int (s : string) :
  Re.match_ Re.animation_name (lower (strip s)) = true -> int_of_str s = None.
Proof.
  intros Hmatch. rewrite match_animation_name in Hmatch.
  destruct (strip s) as [| c r] eqn:Hs; simpl in Hmatch; [discriminate |].
  destruct (lower r) as [| d r']; [discriminate |].
  apply andb_true_iff in Hmatch as [Hc _].
  destruct (strip_head s c r Hs) as [r1 Hl].
  destruct (int_lstrip_head s c r1 Hl) as (c0 & rest & Hint & Hc0 & Hcs).
  destruct (int_rstrip_head c0 rest Hcs) as [rest' Hr].
  pose proof (ascii_cases
    (fun c => implb (is_lower (lower_char c) || is_space c)
                    (negb (is_digit c) && negb (Ascii.eqb c "-")
                     && negb (Ascii.eqb c "+") && negb (Ascii.eqb c "_")))
    ltac:(vm_compute; reflexivity) c0) as Hall.
  simpl in Hall.
  assert (Hpre : is_lower (lower_char c0) || is_space c0 = true).
  { destruct Hc0 as [-> | Hsp]; [rewrite Hc; reflexivity |].
    rewrite Hsp. apply orb_true_r. }
  rewrite Hpre in Hall. simpl in Hall.
  apply andb_true_iff in Hall as [[[Hd Hm]%andb_true_iff Hp]%andb_true_iff Hu].
  apply negb_true_iff in Hd, Hm, Hp, Hu.
  apply (int_of_str_head s c0 rest'); [rewrite Hint; exact Hr | exact Hd | | |].
  - intros ->. discriminate Hm.
  - intros ->. discriminate Hp.
  - intros ->. discriminate Hu.
Qed.

Lemma int_of_float_finite (x : float) :
  isfinite x = true -> exists raw, int_of_float x = Ok raw.
Proof.
  unfold isfinite, int_of_float.
  destruct (Prim2SF x); try discriminate; simpl; eauto.
Qed.

Lemma get_frame_ok_inv (a : Animation.t) (time : float) (f : Z) :
  Animation.get_frame a time = Ok f ->
  exists raw i,
    int_of_float (time * Animation.rate a) = Ok raw /\ f = i + 1 /\
    (Animation.loop a = "none" -> i = Z.min raw (len (Animation.frames a))) /\
    (Animation.loop a = "loop" ->
     len (Animation.frames a) <> 0 /\ i = raw mod len (Animation.frames a)).
Proof.
  unfold Animation.get_frame, Animation.get_frame_index.
  destruct (int_of_float _) as [raw |]; simpl; [| discriminate].
  destruct (String.eqb_spec (Animation.loop a) "none") as [Hn | Hn].
  - simpl. intros [= <-]. exists raw, (Z.min raw (len (Animation.frames a))).
    split; [reflexivity |]. split; [reflexivity |]. split; [reflexivity |].
    intros Hl. rewrite Hn in Hl. discriminate.
  - destruct (String.eqb_spec (Animation.loop a) "loop") as [Hl | Hl].
    + unfold mod_. destruct (Z.eqb_spec (len (Animation.frames a)) 0); simpl;
        [discriminate |].
      intros [= <-]. exists raw, (raw mod len (Animation.frames a)).
      split; [reflexivity |]. split; [reflexivity |]. split; [contradiction | auto].
    + simpl. intros [= <-]. exists raw, raw.
      split; [reflexivity |]. split; [reflexivity |]. split; contradiction.
Qed.

(** X9: whenever [get_frame] of a looping animation returns, the frame
    number lies in [1 .. n] for the frame count [n] (so [n >= 1]),
    whatever the sign of time and rate; without looping it is at most
    [n + 1]. *)
Theorem get_frame_range (a : Animation.t) (time : float) (f : Z) :
  Animation.get_frame a time = Ok f ->
  (Animation.loop a = "loop" -> 1 <= f <= len (Animation.frames a)) /\
  (Animation.loop a = "none" -> f <= len (Animation.frames a) + 1).
Proof.
  intros (raw & i & _ & -> & Hnone & Hloop)%get_frame_ok_inv. split.
  - intros Hl. destruct (Hloop Hl) as [Hn ->].
    pose proof (len_nonneg (Animation.frames a)).
    pose proof (Z.mod_pos_bound raw (len (Animation.frames a))). lia.
  - intros Hl. rewrite (Hnone Hl). lia.
Qed.

(** X10: on an image with at least one column of tiles, the name of a
    looping animation with a non-empty frame table resolves, at every
    time whose product with the rate is finite, to the rectangle of one of
    the tiles [1 .. n], its four fields stored in 32 bits: never to the
    whole image and never to an error.  The name, which passes the name
    test, is never read as an integer. *)
Theorem get_source_rect_of_looping_animation
        (img : Image.t) (s : string) (a : Animation.t) (time : float) :
  1 <= Image.tile_width img <= Image.width img - 2 * Image.tile_margin img ->
  Re.match_ Re.animation_name (lower (strip s)) = true ->
  Image.animations img !! lower (strip s) = Some a ->
  Animation.loop a = "loop" -> 1 <= len (Animation.frames a) ->
  isfinite (time * Animation.rate a) = true ->
  exists f,
    1 <= f <= len (Animation.frames a) /\
    Animation.get_frame a time = Ok f /\
    Image.get_source_rect img (RefStr s) time = Image.frame_rect img f /\
    let cols := (Image.width img - 2 * Image.tile_margin img) / Image.tile_width img in
    Image.get_source_rect img (RefStr s) time =
    Ok (SDL_Rect_of
          (Image.tile_margin img
           + ((f - 1) mod cols) * (Image.tile_width img + Image.tile_spacing img))
          (Image.tile_margin img
           + ((f - 1) / cols) * (Image.tile_height img + Image.tile_spacing img))
          (Image.tile_width img) (Image.tile_height img)).
Proof.
  intros Hw Hm Ha Hl Hn [raw Hraw]%int_of_float_finite.
  pose proof (name_not_int s Hm) as Hs.
  assert (Hf : Animation.get_frame a time = Ok (raw mod len (Animation.frames a) + 1)).
  { unfold Animation.get_frame.
    rewrite (get_frame_index_loop_eq a time raw Hl Hraw), mod_ok by lia. reflexivity. }
  pose proof (Z.mod_pos_bound raw (len (Animation.frames a)) ltac:(lia)) as Hb.
  exists (raw mod len (Animation.frames a) + 1).
  split; [lia |]. split; [exact Hf |].
  assert (Hrect : Image.get_source_rect img (RefStr s) time
                  = Image.frame_rect img (raw mod len (Animation.frames a) + 1)).
  { rewrite (get_source_rect_of_name img s time Hs), Hm, Ha. simpl. rewrite Hf.
    reflexivity. }
  split; [exact Hrect |]. cbv zeta. rewrite Hrect.
  apply (frame_rect_tile img _ Hw). lia.
Qed.

(** X11: what [load_tile_desc] accepts: the margin leaves at least one
    pixel in both directions, the tile fits between the margins in both
    directions, and the spacing fits beside one tile in the width; so the
    image is at least 1 x 1, and tile 1 lies inside it when the width and
    height are those of an SDL surface, which fit in 32 bits. *)
Theorem load_image_geometry (w0 h0 : Z) (m : TileDesc.meta)
        (anims : gmap string Animation.t) (img : Image.t) (time : float) :
  TileDesc.load_image w0 h0 m anims = Ok img ->
  Image.width img = w0 /\ Image.height img = h0 /\ Image.animations img = anims /\
  0 <= Image.tile_margin img /\
  2 * Image.tile_margin img < Z.min w0 h0 /\
  1 <= Image.tile_width img <= w0 - 2 * Image.tile_margin img /\
  1 <= Image.tile_height img <= h0 - 2 * Image.tile_margin img /\
  0 <= Image.tile_spacing img
    <= w0 - 2 * Image.tile_margin img - Image.tile_width img /\
  exists r,
    Image.get_source_rect img (RefInt 1) time = Ok r /\
    r = SDL_Rect_of (Image.tile_margin img) (Image.tile_margin img)
                    (Image.tile_width img) (Image.tile_height img) /\
    (w0 < 2 ^ 31 -> h0 < 2 ^ 31 ->
     0 <= x r /\ 0 <= y r /\ x r + w r <= w0 /\ y r + h r <= h0).
Proof.
  unfold TileDesc.load_image.
  destruct (TileDesc.getint (TileDesc.tile_margin m) _ _ _) as [margin |] eqn:Hm;
    simpl; [| discriminate].
  destruct (TileDesc.getint (TileDesc.tile_width m) _ _ _) as [tw |] eqn:Htw;
    simpl; [| discriminate].
  destruct (TileDesc.getint (TileDesc.tile_height m) _ _ _) as [th |] eqn:Hth;
    simpl; [| discriminate].
  destruct (TileDesc.getint (TileDesc.tile_spacing m) _ _ _) as [sp |] eqn:Hsp;
    simpl; [| discriminate].
  intros [= <-]. simpl.
  apply getint_range in Hm, Htw, Hth, Hsp.
  assert (Hmargin : 2 * margin < Z.min w0 h0).
  { pose proof (Z.div_mod (Z.min w0 h0) 2 ltac:(lia)).
    pose proof (Z.mod_pos_bound (Z.min w0 h0) 2 ltac:(lia)). lia. }
  repeat (split; [reflexivity || lia |]).
  set (img := Image.mk w0 h0 tw th margin sp anims).
  assert (Hw : 1 <= Image.tile_width img
               <= Image.width img - 2 * Image.tile_margin img) by (simpl; lia).
  pose proof (frame_rect_tile img 1 Hw ltac:(lia)) as Hrect. cbv zeta in Hrect.
  destruct (columns_positive img Hw) as [_ Hcols].
  replace (1 - 1) with 0 in Hrect by lia.
  rewrite Z.mod_0_l, Z.div_0_l in Hrect by lia.
  eexists. split; [exact Hrect |]. split; [simpl; do 2 f_equal; lia |].
  intros Hw0 Hh0. simpl in *.
  rewrite !c_int_fits by lia. lia.
Qed.


(** X13: on an image without metadata there is one column of one tile:
    tile 1 is the whole image, the same rectangle as reference 0, and
    tile [r] for [r >= 2] starts [(r - 1)] image heights below the top,
    outside the image; the four fields are stored in 32 bits, and are the
    values themselves when these fit. *)
Theorem plain_image_tiles (w0 h0 r : Z) (time : float) :
  1 <= w0 -> 1 <= r ->
  Image.get_source_rect (TileDesc.plain_image w0 h0) (RefInt r) time
  = Ok (SDL_Rect_of 0 ((r - 1) * h0) w0 h0) /\
  Image.get_source_rect (TileDesc.plain_image w0 h0) (RefInt 1) time
  = Image.get_source_rect (TileDesc.plain_image w0 h0) (RefInt 0) time /\
  (w0 < 2 ^ 31 -> 0 <= h0 -> (r - 1) * h0 < 2 ^ 31 -> h0 < 2 ^ 31 ->
   Image.get_source_rect (TileDesc.plain_image w0 h0) (RefInt r) time
   = Ok (mkRect 0 ((r - 1) * h0) w0 h0)).
Proof.
  intros Hw Hr.
  assert (Hgeo : 1 <= Image.tile_width (TileDesc.plain_image w0 h0)
                 <= Image.width (TileDesc.plain_image w0 h0)
                    - 2 * Image.tile_margin (TileDesc.plain_image w0 h0))
    by (simpl; lia).
  assert (Htile : forall q, 1 <= q ->
            Image.get_source_rect (TileDesc.plain_image w0 h0) (RefInt q) time
            = Ok (SDL_Rect_of 0 ((q - 1) * h0) w0 h0)).
  { intros q Hq. unfold Image.get_source_rect. simpl.
    rewrite (frame_rect_tile _ q Hgeo) by lia. simpl.
    replace (w0 - 2 * 0) with w0 by lia. rewrite Z.div_same by lia.
    rewrite Z.mod_1_r, Z.div_1_r. f_equal. f_equal; lia. }
  split; [apply Htile; exact Hr |]. split.
  - rewrite (Htile 1) by lia. unfold Image.get_source_rect. simpl.
    rewrite frame_rect_zero. reflexivity.
  - intros Hw0 Hh0 Hy Hh1. rewrite (Htile r Hr).
    rewrite SDL_Rect_of_fits by nia. reflexivity.
Qed.

End GeometryMore.

(** ** Joystick buttons and sizes *)

Section JoystickMore.

Import Joystick.

(** The loop over the buttons: a button of the list is stepped, the
    others keep their counter. *)
Lemma buttons_loop (d : device) (l : list Z) (bs : list Z) :
  NoDup l -> (forall b, b ∈ l -> 0 <= b < len bs) ->
  exists bs',
    for_each (button_step d) l bs = Ok bs' /\ len bs' = len bs /\
    forall b, 0 <= b ->
      (b ∈ l ->
       bs' !! Z.to_nat b =
       (fun old => if negb (GetButton d b =? 0) then old + 1 else 0)
         <$> bs !! Z.to_nat b) /\
      (b ∉ l -> bs' !! Z.to_nat b = bs !! Z.to_nat b).
Proof.
  revert bs. induction l as [| i l IH]; intros bs Hnd Hin.
  - exists bs. split; [reflexivity |]. split; [reflexivity |].
    intros b Hb. split; [intros Hx; inversion Hx | auto].
  - apply NoDup_cons in Hnd as [Hi Hnd].
    assert (Hir : 0 <= i < len bs) by (apply Hin; left).
    destruct (getitem_in_range bs i Hir) as [old [Hold Hget]].
    set (new := if negb (GetButton d i =? 0) then old + 1 else 0).
    assert (Hs : button_step d i bs = Ok (<[Z.to_nat i := new]> bs)).
    { unfold button_step, new. rewrite Hget.
      destruct (negb (GetButton d i =? 0)); simpl; apply setitem_ok; exact Hir. }
    destruct (IH (<[Z.to_nat i := new]> bs) Hnd) as [bs' [Hrun [Hlen Hall]]].
    { intros b Hb. rewrite len_insert. apply Hin. right. exact Hb. }
    exists bs'. simpl. rewrite Hs. simpl.
    split; [exact Hrun |]. split; [rewrite Hlen; apply len_insert |].
    intros b Hb. destruct (Hall b Hb) as [Hmem Hnot]. split.
    + intros [-> | Hbl]%elem_of_cons.
      * rewrite (Hnot Hi). unfold len in Hir.
        rewrite list_lookup_insert_eq by lia. rewrite Hold. reflexivity.
      * assert (b <> i) by (intros ->; contradiction).
        rewrite (Hmem Hbl), list_lookup_insert_ne by lia. reflexivity.
    + intros [Hne Hbl]%not_elem_of_cons.
      rewrite (Hnot Hbl), list_lookup_insert_ne by lia. reflexivity.
Qed.

Lemma update_well_sized (d : device) (self : t) :
  Spec.well_sized d self ->
  exists self', update d self = Ok self' /\ Spec.well_sized d self' /\
    forall b, 0 <= b < NumButtons d ->
      buttons self' !! Z.to_nat b =
      (fun old => if negb (GetButton d b =? 0) then old + 1 else 0)
        <$> buttons self !! Z.to_nat b.
Proof.
  intros (Hb & Ha & Hd).
  destruct (buttons_loop d (range (NumButtons d)) (buttons self))
    as [bs' [Hbs [Hbl Hball]]].
  { apply NoDup_seqZ. }
  { intros b Hr%elem_of_range. lia. }
  destruct (axes_loop d (range (NumAxes d)) (axis self, daxis self))
    as [st' [Hrun [Hl1 [Hl2 _]]]].
  { apply NoDup_seqZ. }
  { intros a Hr%elem_of_range. simpl. lia. }
  { simpl. lia. }
  exists (mk bs' st'.1 st'.2). split; [| split].
  - unfold update. rewrite Hbs. simpl. rewrite Hrun. reflexivity.
  - unfold Spec.well_sized. simpl in *. lia.
  - intros b Hr. simpl. apply Hball; [lia |]. apply elem_of_range. exact Hr.
Qed.

Lemma init_well_sized (d : device) :
  0 <= NumButtons d -> 0 <= NumAxes d -> Spec.well_sized d (init d).
Proof.
  intros Hb Ha. unfold Spec.well_sized, init, len. simpl.
  rewrite !repeat_length. lia.
Qed.

(** X14: a joystick made by [__init__] can be updated any number of
    times, whatever SDL reports for its buttons and axes from one frame
    to the next (the device keeps its numbers of buttons and axes):
    no update raises, and each result has the sizes, and so the button
    and axis counts reported to callers, of the first. *)
Theorem joystick_updates_never_raise (d : device) (ds : list device) :
  0 <= NumButtons d -> 0 <= NumAxes d ->
  Forall (fun d' => NumButtons d' = NumButtons d /\ NumAxes d' = NumAxes d) ds ->
  exists l,
    updates ds (init d) = Ok l /\ length l = length ds /\
    Forall (Spec.well_sized d) l.
Proof.
  intros Hb Ha Hds. pose proof (init_well_sized d Hb Ha) as Hinit.
  revert Hinit. generalize (init d) as self.
  induction Hds as [| d' ds [Hnb Hna] Hds IH]; intros self Hself; simpl.
  - exists []. auto.
  - assert (Hself' : Spec.well_sized d' self).
    { unfold Spec.well_sized in *. rewrite Hnb, Hna. exact Hself. }
    destruct (update_well_sized d' self Hself') as [self1 [-> [Hself1 _]]]. simpl.
    assert (Hself2 : Spec.well_sized d self1).
    { unfold Spec.well_sized in *. rewrite <- Hnb, <- Hna. exact Hself1. }
    destruct (IH self1 Hself2) as [l [-> [Hlen Hall]]]. simpl.
    exists (self1 :: l). split; [reflexivity |]. split; [simpl; lia |].
    constructor; assumption.
Qed.

(** X15: after an update the counter of every button is one more than
    before when the device reports the button down, and 0 when it
    reports it up. *)
Theorem joystick_update_buttons (d : device) (self self' : t) (b : Z) :
  Spec.well_sized d self -> update d self = Ok self' ->
  0 <= b < NumButtons d ->
  exists old,
    buttons self !! Z.to_nat b = Some old /\
    buttons self' !! Z.to_nat b =
    Some (if negb (GetButton d b =? 0) then old + 1 else 0).
Proof.
  intros Hw Hu Hb.
  destruct (update_well_sized d self Hw) as [self2 [Hu2 [_ Hall]]].
  rewrite Hu in Hu2. injection Hu2 as <-.
  destruct Hw as (Hlen & _).
  destruct (getitem_in_range (buttons self) b) as [old [Hold _]]; [lia |].
  exists old. split; [exact Hold |]. rewrite (Hall b Hb), Hold. reflexivity.
Qed.

End JoystickMore.

(** ** The key table *)

Section KeyMore.

Import InputHandler.

Variable SDL_GetKeyName : Z -> string.

Abbreviation key_name2 := (key_name SDL_GetKeyName).
Abbreviation process2 := (process SDL_GetKeyName).

(** X16: the key table only ever holds counters of at least 1, and an
    update neither adds nor removes an entry: both are kept by every
    update and every event that does not raise.  Hence [key] returns 0
    exactly for the keys that have no entry. *)
Theorem key_counters_stay_positive (self : t) :
  Spec.keys_positive self ->
  (forall s self', update s self = Ok self' ->
     Spec.keys_positive self' /\ dom (keys self') = dom (keys self)) /\
  (forall ev self', process2 ev self = Ok self' -> Spec.keys_positive self') /\
  (forall q, key self q = 0 <-> keys self !! lower (strip q) = None).
Proof.
  intros Hpos. split; [| split].
  - intros s self' Hu. split; [| rewrite (update_keys _ _ _ Hu); apply dom_fmap_L].
    + intros k n. rewrite (update_keys _ _ _ Hu), lookup_fmap.
      destruct (keys self !! k) as [m |] eqn:Hk; simpl; [| discriminate].
      intros [= <-]. specialize (Hpos k m Hk). lia.
  - intros ev self'. destruct ev as [sym [|] | sym |]; simpl.
    + intros [= <-]. exact Hpos.
    + destruct (key_name2 sym) as [name |]; simpl; [| discriminate].
      intros [= <-] k n. simpl. rewrite lookup_insert.
      destruct (decide (name = k)); [intros [= <-]; lia | apply Hpos].
    + destruct (key_name2 sym) as [name |]; simpl; [| discriminate].
      destruct (keys self !! name); [| discriminate].
      intros [= <-] k n. simpl. rewrite lookup_delete.
      destruct (decide (name = k)); [discriminate | apply Hpos].
    + intros [= <-]. exact Hpos.
  - intros q. unfold key.
    destruct (keys self !! lower (strip q)) as [n |] eqn:Hk; simpl.
    + specialize (Hpos _ _ Hk). split; [lia | discriminate].
    + split; reflexivity.
Qed.

(** X17: pressing a key that has no entry and releasing it restores the
    key table exactly; a second release raises [KeyError], as does the
    release of any key that has no entry. *)
Theorem press_release_round_trip (self : t) (sym : Z) (name : string) :
  key_name2 sym = Ok name -> keys self !! name = None ->
  process2 (SDL_KEYUP sym) self = Raise KeyError /\
  exists pressed released,
    process2 (SDL_KEYDOWN sym false) self = Ok pressed /\
    keys pressed !! name = Some 1 /\
    process2 (SDL_KEYUP sym) pressed = Ok released /\
    keys released = keys self /\
    process2 (SDL_KEYUP sym) released = Raise KeyError.
Proof.
  intros Hn Hk. split.
  { rewrite (process_release _ self sym name Hn), Hk. reflexivity. }
  destruct (process_press SDL_GetKeyName self sym name Hn) as [pressed [Hp Hkeys]].
  assert (Hone : keys pressed !! name = Some 1).
  { rewrite Hkeys. apply lookup_insert_eq. }
  eexists pressed, _. split; [exact Hp |]. split; [exact Hone |].
  rewrite (process_release _ pressed sym name Hn), Hone.
  split; [reflexivity |]. simpl. split.
  - rewrite Hkeys, delete_insert_eq. apply delete_id. exact Hk.
  - rewrite Hn. simpl. rewrite Hkeys, delete_insert_eq, lookup_delete_eq. reflexivity.
Qed.

End KeyMore.

(** ** Key names *)

Section KeyNameMore.

Import InputHandler.

Variable SDL_GetKeyName : Z -> string.

Lemma none_of_app (p : ascii -> bool) (a b : string) :
  Spec.none_of p (String.append a b) = Spec.none_of p a && Spec.none_of p b.
Proof.
  induction a as [| c a IH]; [reflexivity |].
  change (String.append (String c a) b) with (String c (String.append a b)).
  simpl. rewrite IH. apply andb_assoc.
Qed.

Lemma rstrip_no_space (s : string) : Spec.none_of is_space s = true -> rstrip s = s.
Proof.
  induction s as [| c s IH]; simpl; [reflexivity |].
  intros [Hc Hs]%andb_true_iff. rewrite (IH Hs).
  destruct s; [| reflexivity].
  destruct (is_space c); [discriminate | reflexivity].
Qed.

Lemma strip_no_space (s : string) : Spec.none_of is_space s = true -> strip s = s.
Proof.
  intros Hs. unfold strip.
  assert (Hl : lstrip s = s).
  { destruct s as [| c s]; [reflexivity |]. simpl in *.
    destruct (is_space c); [discriminate | reflexivity]. }
  rewrite Hl. apply rstrip_no_space. exact Hs.
Qed.

Lemma lower_no_upper (s : string) : Spec.none_of is_upper s = true -> lower s = s.
Proof.
  induction s as [| c s IH]; simpl; [reflexivity |].
  intros [Hc Hs]%andb_true_iff. rewrite (IH Hs). unfold lower_char.
  destruct (is_upper c); [discriminate | reflexivity].
Qed.

(** The replacement of a lowered character holds no white space and no
    upper-case letter. *)
Lemma key_name_char_clean (c : ascii) (w : string) :
  key_name_char (lower_char c) = Ok w ->
  Spec.none_of is_space w && Spec.none_of is_upper w = true.
Proof.
  intros Hw.
  pose proof (ascii_cases
    (fun c => match key_name_char (lower_char c) with
              | Ok w => Spec.none_of is_space w && Spec.none_of is_upper w
              | Raise _ => true
              end) ltac:(vm_compute; reflexivity) c) as Hall.
  simpl in Hall. rewrite Hw in Hall. exact Hall.
Qed.

Lemma key_name_sub_clean (s n : string) :
  key_name_sub (lower s) = Ok n ->
  Spec.none_of is_space n = true /\ Spec.none_of is_upper n = true.
Proof.
  revert n. induction s as [| c s IH]; simpl; intros n.
  - intros [= <-]. auto.
  - destruct (key_name_char (lower_char c)) as [w |] eqn:Hw; simpl; [| discriminate].
    destruct (key_name_sub (lower s)) as [r |]; simpl; [| discriminate].
    intros [= <-]. apply key_name_char_clean in Hw as [Hw1 Hw2]%andb_true_iff.
    destruct (IH r eq_refl) as [Hr1 Hr2].
    rewrite !none_of_app, Hw1, Hw2, Hr1, Hr2. auto.
Qed.

(** X18: the name under which a key is stored is the name under which
    [key] looks it up: [key_name] returns names that lowering and
    stripping leave as they are, so after a press [key] called with the
    key's own name reads 1. *)
Theorem key_name_is_normalized (sym : Z) (name : string) (self : t) :
  key_name SDL_GetKeyName sym = Ok name ->
  lower (strip name) = name /\
  exists pressed,
    process SDL_GetKeyName (SDL_KEYDOWN sym false) self = Ok pressed /\
    key pressed name = 1.
Proof.
  intros Hn. assert (Hnorm : lower (strip name) = name).
  { destruct (key_name_sub_clean _ _ Hn) as [Hs Hu].
    rewrite (strip_no_space _ Hs). apply lower_no_upper. exact Hu. }
  split; [exact Hnorm |].
  destruct (process_press SDL_GetKeyName self sym name Hn) as [pressed [Hp Hk]].
  exists pressed. split; [exact Hp |]. apply key_lookup.
  rewrite Hnorm, Hk. apply lookup_insert_eq.
Qed.

End KeyNameMore.

(** ** The joysticks of the input handler *)

Section JoysticksMore.

Import Joysticks.

Lemma decimal_inj (m n : nat) : decimal m = decimal n -> m = n.
Proof.
  unfold decimal. intros Hs.
  assert (Hu : Nat.to_uint m = Nat.to_uint n).
  { pose proof (DecimalString.NilEmpty.usu (Nat.to_uint m)) as H1.
    pose proof (DecimalString.NilEmpty.usu (Nat.to_uint n)) as H2.
    rewrite Hs in H1. rewrite H1 in H2. injection H2 as ->. reflexivity. }
  rewrite <- (DecimalNat.Unsigned.of_to m), <- (DecimalNat.Unsigned.of_to n), Hu.
  reflexivity.
Qed.

Lemma decimal_not_empty (n : nat) : decimal n <> "".
Proof.
  intros Hs. assert (Hn : n = 0%nat).
  { pose proof (DecimalString.NilEmpty.usu (Nat.to_uint n)) as H1.
    fold (decimal n) in H1. rewrite Hs in H1. simpl in H1. injection H1 as H1.
    rewrite <- (DecimalNat.Unsigned.of_to n), <- H1. reflexivity. }
  subst n. discriminate Hs.
Qed.

Lemma append_inv_head (a b c : string) :
  String.append a b = String.append a c -> b = c.
Proof.
  induction a as [| ch a IH]; intros Heq.
  - exact Heq.
  - injection Heq as Heq. exact (IH Heq).
Qed.

Lemma append_same (a b : string) : String.append a b = a -> b = "".
Proof.
  induction a as [| ch a IH]; intros Heq.
  - exact Heq.
  - injection Heq as Heq. exact (IH Heq).
Qed.

Lemma candidate_inj (base : string) (i j : nat) :
  candidate base i = candidate base j -> i = j.
Proof.
  destruct i as [| i], j as [| j]; simpl; intros Heq.
  - reflexivity.
  - symmetry in Heq. apply append_same, decimal_not_empty in Heq. contradiction.
  - apply append_same, decimal_not_empty in Heq. contradiction.
  - apply append_inv_head, decimal_inj in Heq. lia.
Qed.

Lemma has_name_elem (js : list (string * Joystick.t)) (name : string) :
  has_name js name = true <-> name ∈ js.*1.
Proof.
  unfold has_name. induction js as [| [n j] js IH]; simpl.
  - split; [discriminate | intros Hx; inversion Hx].
  - rewrite orb_true_iff, IH, elem_of_cons.
    destruct (String.eqb_spec n name) as [-> | Hne].
    + split; intros _; left; reflexivity.
    + split; (intros [Hx | Hx]; [| right; exact Hx]).
      * discriminate Hx.
      * subst. contradiction.
Qed.

Lemma unique_name_spec (js : list (string * Joystick.t)) (base : string)
      (fuel k : nat) :
  match unique_name fuel js base (candidate base k) (k + 2) with
  | Some name =>
      exists j, (k <= j)%nat /\ name = candidate base j /\ has_name js name = false
  | None => forall j, (k <= j <= k + fuel)%nat -> has_name js (candidate base j) = true
  end.
Proof.
  revert k. induction fuel as [| fuel IH]; intros k; simpl.
  - destruct (has_name js (candidate base k)) eqn:Hk.
    + intros j Hj. replace j with k by lia. exact Hk.
    + exists k. auto.
  - destruct (has_name js (candidate base k)) eqn:Hk; [| exists k; auto].
    specialize (IH (S k)).
    replace (String.append base (decimal (k + 2))) with (candidate base (S k))
      by (simpl; do 2 f_equal; lia).
    replace (S (k + 2)) with (S k + 2)%nat by lia.
    destruct (unique_name fuel js base (candidate base (S k)) (S k + 2)) as [name |].
    + destruct IH as (j & Hj & Hn & Hfree). exists j. split; [lia | auto].
    + intros j Hj. destruct (decide (j = k)) as [-> | Hne]; [exact Hk |].
      apply IH. lia.
Qed.

(** The loop always ends within as many rounds as there are stored
    names, with a name that is not stored yet. *)
Lemma unique_name_fresh (js : list (string * Joystick.t)) (base : string) :
  exists name,
    unique_name (length js) js base base 2 = Some name /\ (name ∉ js.*1) /\
    (name = base \/ exists i, (2 <= i)%nat /\ name = String.append base (decimal i)).
Proof.
  pose proof (unique_name_spec js base (length js) 0) as Hspec. simpl in Hspec.
  destruct (unique_name (length js) js base base 2) as [name |].
  - destruct Hspec as (j & _ & -> & Hfree). eexists. split; [reflexivity |]. split.
    + intros Hin%has_name_elem. rewrite Hin in Hfree. discriminate.
    + destruct j as [| j]; [left; reflexivity |].
      right. exists (S (S j)). split; [lia | reflexivity].
  - exfalso.
    set (cands := candidate base <$> seq 0 (S (length js))).
    assert (Hnd : NoDup cands).
    { apply NoDup_fmap_2_strong; [| apply NoDup_seq].
      intros i j _ _. apply candidate_inj. }
    assert (Hsub : forall x, x ∈ cands -> x ∈ js.*1).
    { intros x (i & -> & Hi%elem_of_seq)%list_elem_of_fmap.
      apply has_name_elem, Hspec. lia. }
    pose proof (submseteq_length _ _ (NoDup_submseteq _ _ Hnd Hsub)) as Hlen.
    unfold cands in Hlen. rewrite !length_fmap, length_seq in Hlen. lia.
Qed.

Lemma open_all_spec (ports : list (option (string * Joystick.device))) (self : t) :
  NoDup (joysticks self).*1 ->
  default_joystick self = head (joysticks self).*1 ->
  exists self' added,
    open_all ports self = Some self' /\
    joysticks self' = (joysticks self ++ added)%list /\
    NoDup (joysticks self').*1 /\
    default_joystick self' = head (joysticks self').*1 /\
    added.*2 = (fun port => Joystick.init port.2) <$> opened ports /\
    Forall2 named_after added.*1 (opened ports).
Proof.
  revert self. induction ports as [| [[display d] |] rest IH]; intros self Hnd Hdef.
  - exists self, []. simpl. rewrite app_nil_r. repeat split; auto.
  - simpl. unfold add.
    destruct (unique_name_fresh (joysticks self) (base_name display))
      as (name & -> & Hfresh & Hnamed).
    set (self1 := mk (joysticks self ++ [(name, Joystick.init d)])
                     (match default_joystick self with
                      | None => Some name | Some first => Some first end)).
    destruct (IH self1) as (self' & added & Hopen & Hjs & Hnd' & Hdef' & Hst & Hnames).
    { simpl. rewrite fmap_app. apply NoDup_app. repeat split; [exact Hnd | | ].
      - intros x Hx [-> | Hn]%elem_of_cons; [contradiction | inversion Hn].
      - apply NoDup_singleton. }
    { simpl. rewrite Hdef, fmap_app. destruct (joysticks self); reflexivity. }
    exists self', ((name, Joystick.init d) :: added). rewrite Hopen.
    split; [reflexivity |]. split; [rewrite Hjs; simpl; rewrite <- app_assoc; reflexivity |].
    split; [exact Hnd' |]. split; [exact Hdef' |]. unfold opened. simpl.
    split; [f_equal; exact Hst |]. constructor; [exact Hnamed | exact Hnames].
  - simpl. apply IH; assumption.
Qed.

(** X19: [InputHandler.__init__] always terminates and stores every
    joystick that opened, in order, each in its initial state and under a
    name of its own: no two stored names are equal, even when devices
    report the same display name; each name is the base name of the
    device, or the base name followed by a number from 2 on; the default
    joystick is the first one stored. *)
Theorem joystick_names_are_unique (ports : list (option (string * Joystick.device))) :
  exists self,
    init ports = Some self /\
    NoDup (joysticks self).*1 /\
    (joysticks self).*2 = (fun port => Joystick.init port.2) <$> opened ports /\
    Forall2 named_after (joysticks self).*1 (opened ports) /\
    default_joystick self = head (joysticks self).*1.
Proof.
  destruct (open_all_spec ports (mk [] None))
    as (self & added & Hopen & Hjs & Hnd & Hdef & Hst & Hnames).
  { simpl. constructor. }
  { reflexivity. }
  simpl in Hjs. rewrite <- Hjs in Hst, Hnames.
  exists self. repeat split; assumption.
Qed.

Lemma lower_or_digit_clean (c : ascii) :
  Re.lower_or_digit c = true -> is_space c = false /\ is_upper c = false.
Proof.
  intros Hc.
  pose proof (ascii_cases
    (fun c => implb (Re.lower_or_digit c) (negb (is_space c) && negb (is_upper c)))
    ltac:(vm_compute; reflexivity) c) as Hall.
  simpl in Hall. rewrite Hc in Hall. simpl in Hall.
  destruct (is_space c), (is_upper c); try discriminate Hall; auto.
Qed.

Lemma keep_clean (s : string) :
  Spec.none_of is_space (keep Re.lower_or_digit s) = true /\
  Spec.none_of is_upper (keep Re.lower_or_digit s) = true.
Proof.
  induction s as [| c s [IH1 IH2]]; simpl; [auto |].
  destruct (Re.lower_or_digit c) eqn:Hc; [| auto].
  apply lower_or_digit_clean in Hc as [Hs Hu]. simpl. rewrite Hs, Hu. auto.
Qed.

Lemma words_no_space (s : string) :
  Spec.none_of is_space s = true ->
  words s = match s with EmptyString => [] | _ => [s] end.
Proof.
  induction s as [| c s IH]; [reflexivity |].
  intros [Hc Hs]%andb_true_iff. apply negb_true_iff in Hc.
  cbn [words]. rewrite Hc. destruct s as [| d s]; [reflexivity |].
  rewrite (IH Hs). apply andb_true_iff in Hs as [Hd _]. apply negb_true_iff in Hd.
  rewrite Hd. reflexivity.
Qed.

(** The base name is the display name in lower case without the
    characters other than digits and lower-case letters: the [split] and
    [join] around it have nothing left to do. *)
Lemma base_name_keep (display : string) :
  base_name display = keep Re.lower_or_digit (lower display).
Proof.
  unfold base_name. destruct (keep_clean (lower display)) as [Hs _].
  rewrite (words_no_space _ Hs).
  destruct (keep Re.lower_or_digit (lower display)); reflexivity.
Qed.

Lemma decimal_clean (n : nat) :
  Spec.none_of is_space (decimal n) = true /\
  Spec.none_of is_upper (decimal n) = true.
Proof.
  unfold decimal. generalize (Nat.to_uint n) as d.
  induction d as [| d [IH1 IH2] | d [IH1 IH2] | d [IH1 IH2] | d [IH1 IH2]
                  | d [IH1 IH2] | d [IH1 IH2] | d [IH1 IH2] | d [IH1 IH2]
                  | d [IH1 IH2] | d [IH1 IH2]];
    simpl; rewrite ?IH1, ?IH2; auto.
Qed.

Lemma named_after_normalized (name : string) (port : string * Joystick.device) :
  named_after name port -> strip (lower name) = name.
Proof.
  intros Hn.
  assert (Hclean : Spec.none_of is_space name = true /\
                   Spec.none_of is_upper name = true).
  { destruct (keep_clean (lower port.1)) as [Hs Hu].
    destruct Hn as [-> | (i & _ & ->)]; rewrite base_name_keep; [auto |].
    destruct (decimal_clean i) as [Hs' Hu'].
    rewrite !none_of_app, Hs, Hu, Hs', Hu'. auto. }
  destruct Hclean as [Hs Hu].
  rewrite (lower_no_upper _ Hu). apply strip_no_space, Hs.
Qed.

Lemma lookup_nodup (js : list (string * Joystick.t)) (i : nat) (name : string)
      (j : Joystick.t) :
  NoDup js.*1 -> js !! i = Some (name, j) -> lookup js name = Some j.
Proof.
  unfold lookup. revert i. induction js as [| [n0 j0] js IH]; intros i Hnd Hi.
  - discriminate.
  - simpl in *. apply NoDup_cons in Hnd as [Hnotin Hnd].
    destruct i as [| i]; simpl in Hi.
    + injection Hi as -> ->. rewrite String.eqb_refl. reflexivity.
    + destruct (String.eqb_spec n0 name) as [-> | Hne].
      * exfalso. apply Hnotin. apply list_elem_of_fmap. exists (name, j).
        split; [reflexivity |]. eapply list_elem_of_lookup_2, Hi.
      * eapply IH; eassumption.
Qed.

Lemma lookup_elem (js : list (string * Joystick.t)) (name : string)
      (j : Joystick.t) :
  lookup js name = Some j -> (name, j) ∈ js.
Proof.
  unfold lookup. induction js as [| [n0 j0] js IH]; simpl; [discriminate |].
  destruct (String.eqb_spec n0 name) as [-> | Hne]; simpl.
  - intros [= ->]. apply list_elem_of_here.
  - intros Hl. apply list_elem_of_further, IH, Hl.
Qed.

(** X20: after [InputHandler.__init__], [get_joystick] finds every
    stored joystick under the name it was stored under, although it
    lowers and strips the name it is given: stored names hold no upper-case
    letter and no white space.  Without a name it returns the first
    joystick that opened, and [None] only when none did. *)
Theorem get_joystick_finds_stored_joysticks
        (ports : list (option (string * Joystick.device))) (self : t) :
  init ports = Some self ->
  (forall i name j, joysticks self !! i = Some (name, j) ->
     get_joystick self (Some name) = Ok (Some j)) /\
  get_joystick self None = Ok (Joystick.init <$> (opened ports).*2 !! 0%nat).
Proof.
  intros Hinit.
  destruct (open_all_spec ports (mk [] None))
    as (self' & added & Hopen & Hjs & Hnd & Hdef & Hst & Hnames).
  { simpl. constructor. }
  { reflexivity. }
  unfold init in Hinit. rewrite Hinit in Hopen. injection Hopen as <-.
  simpl in Hjs. rewrite <- Hjs in Hst, Hnames. clear Hjs added. split.
  - intros i name j Hi. unfold get_joystick.
    assert (Hname : (joysticks self).*1 !! i = Some name)
      by (rewrite list_lookup_fmap, Hi; reflexivity).
    destruct (Forall2_lookup_l _ _ _ _ _ Hnames Hname) as (port & _ & Hport).
    rewrite (named_after_normalized _ _ Hport), (lookup_nodup _ _ _ _ Hnd Hi).
    reflexivity.
  - unfold get_joystick. rewrite Hdef.
    assert (Hsnd : (joysticks self).*2 !! 0%nat
                   = Joystick.init <$> (opened ports).*2 !! 0%nat).
    { rewrite Hst, !list_lookup_fmap. destruct (opened ports !! 0%nat); reflexivity. }
    destruct (joysticks self) as [| [n0 j0] js] eqn:Hjs; simpl in *.
    + rewrite <- Hsnd. reflexivity.
    + unfold lookup. simpl. rewrite String.eqb_refl. simpl.
      rewrite <- Hsnd. reflexivity.
Qed.

(** X21: the guarded reads.  When the direction counters of every stored
    joystick are twice as many as its axes (as [Joystick.__init__] makes
    them and [Joystick.update] keeps them) and the direction is 0 or 1,
    [get_daxis] and [get_button] never raise an [IndexError]: the only
    exception is the [KeyError] of [get_joystick] for an unknown name,
    and an index outside the joystick reads 0. *)
Theorem joystick_reads_stay_in_range (self : t) (index dir : Z)
        (joystick_name : option string) :
  Forall (fun p => len (Joystick.daxis p.2) = 2 * len (Joystick.axis p.2))
         (joysticks self) ->
  dir = 0 \/ dir = 1 ->
  match get_joystick self joystick_name with
  | Raise e =>
      e = KeyError /\ joystick_name <> None /\
      get_daxis self index dir joystick_name = Raise KeyError /\
      get_button self index joystick_name = Raise KeyError
  | Ok None =>
      get_daxis self index dir joystick_name = Ok 0 /\
      get_button self index joystick_name = Ok 0
  | Ok (Some j) =>
      (0 <= index < len (Joystick.axis j) ->
       exists v, Joystick.daxis j !! Z.to_nat (index * 2 + dir) = Some v /\
                 get_daxis self index dir joystick_name = Ok v) /\
      (~ 0 <= index < len (Joystick.axis j) ->
       get_daxis self index dir joystick_name = Ok 0) /\
      (0 <= index < len (Joystick.buttons j) ->
       exists v, Joystick.buttons j !! Z.to_nat index = Some v /\
                 get_button self index joystick_name = Ok v) /\
      (~ 0 <= index < len (Joystick.buttons j) ->
       get_button self index joystick_name = Ok 0)
  end.
Proof.
  intros Hsized Hdir. unfold get_daxis, get_button.
  destruct (get_joystick self joystick_name) as [[j |] | e] eqn:Hget; simpl.
  - assert (Hj : len (Joystick.daxis j) = 2 * len (Joystick.axis j)).
    { assert (Hin : exists name, (name, j) ∈ joysticks self).
      { unfold get_joystick in Hget. destruct joystick_name as [name |].
        - destruct (lookup (joysticks self) (strip (lower name))) eqn:Hl;
            [| discriminate].
          injection Hget as ->. eexists. eapply lookup_elem, Hl.
        - destruct (default_joystick self) as [first |]; [| discriminate].
          injection Hget as Hl. eexists. eapply lookup_elem, Hl. }
      destruct Hin as [name Hin].
      rewrite Forall_forall in Hsized. apply (Hsized _ Hin). }
    repeat split.
    + intros Hi.
      destruct (getitem_in_range (Joystick.daxis j) (index * 2 + dir))
        as [v [Hv Hg]]; [lia |].
      exists v. split; [exact Hv |].
      replace (0 <=? index) with true by (symmetry; apply Z.leb_le; lia).
      replace (index <? len (Joystick.axis j)) with true
        by (symmetry; apply Z.ltb_lt; lia).
      exact Hg.
    + intros Hi.
      destruct (0 <=? index) eqn:H0; [| reflexivity].
      destruct (index <? len (Joystick.axis j)) eqn:H1; [| reflexivity].
      apply Z.leb_le in H0. apply Z.ltb_lt in H1. lia.
    + intros Hi.
      destruct (getitem_in_range (Joystick.buttons j) index) as [v [Hv Hg]]; [lia |].
      exists v. split; [exact Hv |].
      replace (0 <=? index) with true by (symmetry; apply Z.leb_le; lia).
      replace (index <? len (Joystick.buttons j)) with true
        by (symmetry; apply Z.ltb_lt; lia).
      exact Hg.
    + intros Hi.
      destruct (0 <=? index) eqn:H0; [| reflexivity].
      destruct (index <? len (Joystick.buttons j)) eqn:H1; [| reflexivity].
      apply Z.leb_le in H0. apply Z.ltb_lt in H1. lia.
  - auto.
  - unfold get_joystick in Hget. destruct joystick_name as [name |].
    + destruct (lookup (joysticks self) (strip (lower name))); [discriminate |].
      injection Hget as <-. repeat split. discriminate.
    + destruct (default_joystick self); discriminate.
Qed.

End JoysticksMore.

(** ** The sections of the metadata file *)

Section TileDescMore.

Import LoadTileDesc.

Variable float_of_str : string -> option float.
Variable color_from_name : string -> result unit.

Abbreviation animation2 := (animation_of float_of_str).
Abbreviation loop2 := (sections_loop float_of_str).
Abbreviation desc2 := (load_tile_desc float_of_str color_from_name).

Lemma get_option_raises (o : options) (property : string) (e : exn) :
  get_option o property = Raise e -> o !! property = Some (Raise e).
Proof.
  unfold get_option. destruct (o !! property) as [[v | e'] |]; try discriminate.
  intros [= ->]. reflexivity.
Qed.

Lemma frame_of_ok (s : string) (f : Z) : frame_of s = Ok f -> 0 <= f.
Proof.
  unfold frame_of. destruct (int_of_str (strip s)) as [i |].
  - destruct (Z.ltb_spec i 0); [discriminate |]. intros [= <-]. assumption.
  - discriminate.
Qed.

Lemma frames_of_ok (l : list string) (fs : list Z) :
  frames_of l = Ok fs ->
  Forall (fun frame => 0 <= frame) fs /\ length fs = length l.
Proof.
  revert fs. induction l as [| s l IH]; simpl; intros fs.
  - intros [= <-]. auto.
  - destruct (frame_of s) as [f |] eqn:Hf; simpl; [| discriminate].
    destruct (frames_of l) as [fs' |]; simpl; [| discriminate].
    intros [= <-]. destruct (IH fs' eq_refl) as [Hall Hlen].
    split; [constructor; [eapply frame_of_ok, Hf | exact Hall] | simpl; lia].
Qed.

Lemma frames_of_raises (l : list string) (e : exn) :
  frames_of l = Raise e -> e = IOError.
Proof.
  induction l as [| s l IH]; simpl; [discriminate |].
  unfold frame_of at 1.
  destruct (match int_of_str (strip s) with Some i => i | None => -1 end <? 0);
    simpl; [intros [= <-]; reflexivity |].
  destruct (frames_of l); simpl; [discriminate | exact IH].
Qed.

Lemma animation_of_ok (o : options) (a : Animation.t) :
  animation2 o = Ok a -> animation_ok a.
Proof.
  unfold animation_of.
  destruct (get_option o "rate") as [vr |]; simpl; [| discriminate].
  destruct (match vr with
            | None => Ok 0%float
            | Some value => _
            end) as [rate |]; simpl; [| discriminate].
  destruct (get_option o "loop") as [vl |]; simpl; [| discriminate].
  set (loop := lower (default "loop" vl)).
  destruct (get_option o "frames") as [vf |] eqn:Hvf.
  - destruct (String.eqb_spec loop "none") as [Hn | Hn]; simpl.
    + destruct (frames_of _) as [[| f fs] |] eqn:Hfs; simpl; try discriminate.
      intros [= <-]. apply frames_of_ok in Hfs as [Hall _].
      unfold animation_ok, len. simpl.
      split; [left; exact Hn |]. split; [lia | exact Hall].
    + destruct (String.eqb_spec loop "loop") as [Hl | Hl]; simpl; [| discriminate].
      destruct (frames_of _) as [[| f fs] |] eqn:Hfs; simpl; try discriminate.
      intros [= <-]. apply frames_of_ok in Hfs as [Hall _].
      unfold animation_ok, len. simpl.
      split; [right; exact Hl |]. split; [lia | exact Hall].
  - destruct (negb _); simpl; discriminate.
Qed.

Lemma animation_of_raises (o : options) (e : exn) :
  animation2 o = Raise e ->
  e = IOError \/ exists property, o !! property = Some (Raise e).
Proof.
  unfold animation_of.
  destruct (get_option o "rate") as [vr |] eqn:Hvr; simpl;
    [| intros [= <-]; right; eexists; eapply get_option_raises, Hvr].
  destruct (match vr with
            | None => Ok 0%float
            | Some value => _
            end) as [rate |] eqn:Hrate; simpl.
  - destruct (get_option o "loop") as [vl |] eqn:Hvl; simpl;
      [| intros [= <-]; right; eexists; eapply get_option_raises, Hvl].
    destruct (negb _); [intros [= <-]; left; reflexivity |].
    destruct (get_option o "frames") as [vf |] eqn:Hvf; simpl;
      [| intros [= <-]; right; eexists; eapply get_option_raises, Hvf].
    destruct (frames_of _) as [[| fr frs] |] eqn:Hfs; simpl.
    + intros [= <-]; left; reflexivity.
    + discriminate.
    + intros [= <-]. left. eapply frames_of_raises, Hfs.
  - intros [= <-]. left. destruct vr as [v |]; [| discriminate].
    destruct (float_of_str v); [discriminate |]. injection Hrate as <-. reflexivity.
Qed.

(** What the loop over the sections leaves behind when it ends. *)
Lemma sections_loop_ok (secs : config) (anims anims' : gmap string Animation.t)
      (tn tn' : string) :
  loop2 secs anims tn = Ok (anims', tn') ->
  (forall key a, anims' !! key = Some a ->
     anims !! key = Some a \/
     Re.match_ Re.animation_name key = true /\
     exists name o,
       (name, o) ∈ secs /\ key = strip (lower name) /\
       animation2 o = Ok a) /\
  (tn' = tn /\ Forall (fun s => strip (lower s.1) <> ".meta") secs \/
   strip (lower tn') = ".meta" /\ exists o, (tn', o) ∈ secs) /\
  (forall name o, (name, o) ∈ secs ->
     strip (lower name) <> ".meta" ->
     Re.match_ Re.animation_name (strip (lower name)) = true).
Proof.
  revert anims tn. induction secs as [| [name o] secs IH]; intros anims tn.
  - simpl. intros [= <- <-]. split; [auto |]. split; [left; auto |].
    intros name o Hin. inversion Hin.
  - cbn [sections_loop].
    destruct (String.eqb_spec (strip (lower name)) ".meta") as [Hmeta | Hmeta];
      cbn [negb].
    + intros Hrest. destruct (IH _ _ Hrest) as (Hanims & Htn & Hnames).
      split; [| split].
      * intros key a Hk.
        destruct (Hanims key a Hk) as [Hold | (Hm & n & o' & Hin & Hrest')];
          [left; exact Hold |].
        right. split; [exact Hm |]. exists n, o'.
        split; [right; exact Hin | exact Hrest'].
      * right. destruct Htn as [[-> _] | (Hm & o' & Hin)].
        -- split; [exact Hmeta |]. exists o. left.
        -- split; [exact Hm |]. exists o'. right. exact Hin.
      * intros n o' [[= -> ->] | Hin]%elem_of_cons Hne; [contradiction |].
        eapply Hnames; eassumption.
    + destruct (Re.match_ Re.animation_name (strip (lower name))) eqn:Hmatch;
        cbn [negb]; [| discriminate].
      destruct (animation_of float_of_str o) as [a0 |] eqn:Ha0; simpl;
        [| discriminate].
      intros Hrest. destruct (IH _ _ Hrest) as (Hanims & Htn & Hnames).
      split; [| split].
      * intros key a Hk.
        destruct (Hanims key a Hk) as [Hold | (Hm & n & o' & Hin & Hrest')].
        -- destruct (decide (key = strip (lower name))) as [-> | Hne].
           ++ rewrite lookup_insert_eq in Hold. injection Hold as <-.
              right. split; [exact Hmatch |]. exists name, o.
              split; [left | auto].
           ++ rewrite lookup_insert_ne in Hold by congruence. left. exact Hold.
        -- right. split; [exact Hm |]. exists n, o'.
           split; [right; exact Hin | exact Hrest'].
      * destruct Htn as [[-> Hall] | (Hm & o' & Hin)].
        -- left. split; [reflexivity |]. constructor; [exact Hmeta | exact Hall].
        -- right. split; [exact Hm |]. exists o'. right. exact Hin.
      * intros n o' [[= -> ->] | Hin]%elem_of_cons Hne; [exact Hmatch |].
        eapply Hnames; eassumption.
Qed.

Lemma sections_loop_raises (secs : config) (anims : gmap string Animation.t)
      (tn : string) (e : exn) :
  loop2 secs anims tn = Raise e -> e = IOError \/ interpolation_error secs e.
Proof.
  assert (Hmore : forall s l, interpolation_error l e -> interpolation_error (s :: l) e).
  { intros s l (n & o & opt & Hin & Ho). exists n, o, opt. split; [right |]; assumption. }
  revert anims tn. induction secs as [| [name o] secs IH]; intros anims tn.
  - discriminate.
  - cbn [sections_loop].
    destruct (String.eqb (strip (lower name)) ".meta"); cbn [negb].
    { intros Hr. destruct (IH _ _ Hr) as [-> | Hi]; [left | right]; auto. }
    destruct (Re.match_ Re.animation_name (strip (lower name))); cbn [negb];
      [| intros [= <-]; left; reflexivity].
    destruct (animation_of float_of_str o) as [a0 |] eqn:Ha0; simpl.
    + intros Hr. destruct (IH _ _ Hr) as [-> | Hi]; [left | right]; auto.
    + intros [= <-]. destruct (animation_of_raises _ _ Ha0) as [-> | [opt Ho]];
        [left; reflexivity |].
      right. exists name, o, opt. split; [left | exact Ho].
Qed.

Lemma section_of_elem (c : config) (name : string) (o : options) :
  section_of c name = Some o -> (name, o) ∈ c.
Proof.
  unfold section_of. induction c as [| [n o'] c IH]; simpl; [discriminate |].
  destruct (String.eqb_spec n name) as [-> | Hne]; simpl.
  - intros [= ->]. left.
  - intros Hf. right. apply IH, Hf.
Qed.

Lemma getint_ok (section : option options) (property : string)
      (default lo hi i : Z) :
  getint section property default lo hi = Ok i -> lo <= i <= hi.
Proof.
  unfold getint. destruct section as [o |]; [| discriminate].
  destruct (get_option o property) as [v |]; simpl; [| discriminate].
  apply getint_range.
Qed.

Lemma getint_raises (c : config) (name property : string) (default lo hi : Z)
      (e : exn) :
  getint (section_of c name) property default lo hi = Raise e ->
  e = IOError \/ interpolation_error c e.
Proof.
  unfold getint. destruct (section_of c name) as [o |] eqn:Hsec;
    [| intros [= <-]; left; reflexivity].
  destruct (get_option o property) as [v |] eqn:Hv; simpl.
  - unfold TileDesc.getint.
    destruct (match v with Some s => int_of_str s | None => Some default end) as [i |];
      [| intros [= <-]; left; reflexivity].
    destruct ((i <? lo) || (hi <? i)); [intros [= <-]; left; reflexivity | discriminate].
  - intros [= <-]. right. exists name, o, property.
    split; [eapply section_of_elem, Hsec | eapply get_option_raises, Hv].
Qed.

(** What a description that loads is made of. *)
Lemma load_tile_desc_ok (width height : Z) (read : result config) (img : Image.t) :
  desc2 width height read = Ok img ->
  1 <= Image.tile_width img <= Image.width img - 2 * Image.tile_margin img /\
  exists c,
    read = Ok c /\
    forall key a, Image.animations img !! key = Some a ->
      Re.match_ Re.animation_name key = true /\
      animation_ok a /\
      exists name o,
        (name, o) ∈ c /\ key = strip (lower name) /\
        animation2 o = Ok a.
Proof.
  intros Hdesc. unfold load_tile_desc in Hdesc.
  destruct read as [c |]; simpl in Hdesc; [| discriminate].
  destruct (sections_loop float_of_str c ∅ ".tiles") as [[anims tn] |] eqn:Hloop;
    simpl in Hdesc; [| discriminate].
  destruct (getint (section_of c tn) "tile_margin" _ _ _) as [margin |] eqn:Hm;
    simpl in Hdesc; [| discriminate].
  destruct (getint (section_of c tn) "tile_width" _ _ _) as [tw |] eqn:Htw;
    simpl in Hdesc; [| discriminate].
  destruct (getint (section_of c tn) "tile_height" _ _ _) as [th |] eqn:Hth;
    simpl in Hdesc; [| discriminate].
  destruct (getint (section_of c tn) "tile_spacing" _ _ _) as [sp |] eqn:Hsp;
    simpl in Hdesc; [| discriminate].
  destruct (match section_of c tn with
            | Some o => get_option o "colorkey"
            | None => Raise KeyError
            end) as [ck |]; simpl in Hdesc; [| discriminate].
  destruct (match ck with Some n => color_from_name n | None => Ok () end) as [[] |];
    simpl in Hdesc; [| discriminate].
  injection Hdesc as <-. simpl.
  apply getint_ok in Htw. split; [lia |].
  exists c. split; [reflexivity |].
  destruct (sections_loop_ok _ _ _ _ _ Hloop) as (Hanims & _ & _).
  intros key a Hk.
  destruct (Hanims key a Hk) as [Hold | (Hmatch & n & o & Hin & Hkey & Ha)].
  - rewrite lookup_empty in Hold. discriminate.
  - split; [exact Hmatch |]. split; [eapply animation_of_ok, Ha |].
    exists n, o. auto.
Qed.

(** Where the exceptions of [load_tile_desc] come from. *)
Lemma load_tile_desc_raises (width height : Z) (c : config) (e : exn) :
  desc2 width height (Ok c) = Raise e ->
  e = IOError \/ interpolation_error c e \/ exists name, color_from_name name = Raise e.
Proof.
  assert (Hgi : forall tn p d lo hi,
            getint (section_of c tn) p d lo hi = Raise e ->
            e = IOError \/ interpolation_error c e \/
            exists name, color_from_name name = Raise e).
  { intros tn p d lo hi Hr. destruct (getint_raises _ _ _ _ _ _ _ Hr); auto. }
  unfold load_tile_desc. simpl.
  destruct (sections_loop float_of_str c ∅ ".tiles") as [[anims tn] | e'] eqn:Hloop;
    simpl.
  - destruct (getint (section_of c tn) "tile_margin" _ _ _) as [margin | e1] eqn:Hm;
      simpl; [| intros [= <-]; eapply Hgi, Hm].
    destruct (getint (section_of c tn) "tile_width" _ _ _) as [tw | e2] eqn:Htw;
      simpl; [| intros [= <-]; eapply Hgi, Htw].
    destruct (getint (section_of c tn) "tile_height" _ _ _) as [th | e3] eqn:Hth;
      simpl; [| intros [= <-]; eapply Hgi, Hth].
    destruct (getint (section_of c tn) "tile_spacing" _ _ _) as [sp | e4] eqn:Hsp;
      simpl; [| intros [= <-]; eapply Hgi, Hsp].
    destruct (section_of c tn) as [o |] eqn:Hsec; [| discriminate Hm].
    destruct (get_option o "colorkey") as [ck |] eqn:Hck; simpl.
    + destruct ck as [n |]; simpl; [| discriminate].
      destruct (color_from_name n) eqn:Hcol; simpl; [discriminate |].
      intros [= <-]. right. right. eauto.
    + intros [= <-]. right. left. exists tn, o, "colorkey".
      split; [eapply section_of_elem, Hsec | eapply get_option_raises, Hck].
  - intros [= <-]. destruct (sections_loop_raises _ _ _ _ Hloop); auto.
Qed.

(** X22: [load_tile_desc] needs a section [.meta].  When [ConfigParser]
    has read the file and no section is called [.meta] (in any letter
    case, spaces around it or not), [load_tile_desc] returns no
    description: it raises [IOError], or the error of a value that could
    not be interpolated if it met one first.  The default section name
    [.tiles] is no animation name, so such a section is refused by the
    loop, and without it [getint] finds no section.  A file that is
    missing or empty raises [IOError]; a file that [config.read] cannot
    parse raises what [config.read] raised. *)
Theorem load_tile_desc_needs_meta_section (width height : Z) (c : config) :
  Forall (fun s => strip (lower s.1) <> ".meta") c ->
  (exists e,
     desc2 width height (Ok c) = Raise e /\
     (e = IOError \/ interpolation_error c e)) /\
  (Forall (fun s => map_Forall (fun _ value => is_ok value = true) s.2) c ->
   desc2 width height (Ok c) = Raise IOError) /\
  desc2 width height (Ok []) = Raise IOError /\
  (forall e, desc2 width height (Raise e) = Raise e).
Proof.
  intros Hnone.
  assert (Hraise : exists e,
            desc2 width height (Ok c) = Raise e /\
            (e = IOError \/ interpolation_error c e)).
  { unfold load_tile_desc. simpl.
    destruct (sections_loop float_of_str c ∅ ".tiles") as [[anims tn] | e] eqn:Hloop;
      simpl.
    - destruct (sections_loop_ok _ _ _ _ _ Hloop) as (_ & Htn & Hnames).
      exists IOError. split; [| left; reflexivity].
      destruct Htn as [[-> _] | (Hm & o & Hin)].
      + destruct (section_of c ".tiles") as [o |] eqn:Hsec; [| reflexivity].
        apply section_of_elem in Hsec.
        assert (Hmatch : Re.match_ Re.animation_name (strip (lower ".tiles")) = true).
        { apply (Hnames _ _ Hsec). vm_compute. discriminate. }
        vm_compute in Hmatch. discriminate Hmatch.
      + rewrite Forall_forall in Hnone. destruct (Hnone _ Hin Hm).
    - exists e. split; [reflexivity |]. eapply sections_loop_raises, Hloop. }
  split; [exact Hraise |]. split; [| split].
  - intros Hclean. destruct Hraise as (e & -> & [-> | (n & o & opt & Hin & Ho)]);
      [reflexivity |].
    rewrite Forall_forall in Hclean. specialize (Hclean _ Hin _ _ Ho).
    discriminate Hclean.
  - reflexivity.
  - reflexivity.
Qed.

(** X23: where the exceptions of [load_tile_desc] come from, and what it
    builds.  What it raises is an [IOError], or was raised by
    [config.read], by [config.get] for a value that could not be
    interpolated, or by [color_from_name].  Every animation of the image
    it builds was read from a section whose name, lowered and stripped,
    is the key and starts like an animation name; it loops by [none] or
    [loop] and has at least one frame and no negative one. *)
Theorem load_tile_desc_animations_well_formed (width height : Z)
        (read : result config) :
  match desc2 width height read with
  | Raise e =>
      e = IOError \/ read = Raise e \/
      (exists c, read = Ok c /\ interpolation_error c e) \/
      (exists name, color_from_name name = Raise e)
  | Ok img =>
      exists c,
        read = Ok c /\
        forall key a, Image.animations img !! key = Some a ->
          Re.match_ Re.animation_name key = true /\
          animation_ok a /\
          exists name o,
            (name, o) ∈ c /\ key = strip (lower name) /\
            animation2 o = Ok a
  end.
Proof.
  destruct (desc2 width height read) as [img | e] eqn:Hdesc.
  - apply (load_tile_desc_ok _ _ _ _ Hdesc).
  - destruct read as [c | e'].
    + destruct (load_tile_desc_raises _ _ _ _ Hdesc) as [-> | [Hi | Hc]].
      * left. reflexivity.
      * right. right. left. exists c. split; [reflexivity | exact Hi].
      * right. right. right. exact Hc.
    + injection Hdesc as <-. right. left. reflexivity.
Qed.

Lemma get_frame_total (a : Animation.t) (time : float) :
  animation_ok a -> isfinite (time * Animation.rate a) = true ->
  exists f, Animation.get_frame a time = Ok f.
Proof.
  intros (Hloop & Hlen & _) Hfin.
  destruct (int_of_float_finite _ Hfin) as [raw Hraw].
  unfold Animation.get_frame. destruct Hloop as [Hl | Hl].
  - rewrite (get_frame_index_none_eq a time raw Hl Hraw). simpl. eauto.
  - rewrite (get_frame_index_loop_eq a time raw Hl Hraw), mod_ok by lia.
    simpl. eauto.
Qed.

Lemma frame_rect_total (img : Image.t) (f : Z) :
  1 <= Image.tile_width img <= Image.width img - 2 * Image.tile_margin img ->
  exists r, Image.frame_rect img f = Ok r.
Proof.
  intros Hw. destruct (decide (f = 0)) as [-> | Hf].
  - rewrite frame_rect_zero. eauto.
  - pose proof (frame_rect_tile img f Hw Hf) as Hr. cbv zeta in Hr.
    rewrite Hr. eauto.
Qed.

(** X24: an image built from a metadata file draws every animation it
    holds.  For a name that, stripped and lowered, is the key of one of
    its animations, [get_source_rect] raises nothing at any time whose
    product with the rate is finite: the name passes the test and is no
    integer, the frame table is not empty, and the image has at least one
    column of tiles. *)
Theorem loaded_animations_resolve (width height : Z) (read : result config)
        (img : Image.t) (s : string) (a : Animation.t) (time : float) :
  desc2 width height read = Ok img ->
  Image.animations img !! lower (strip s) = Some a ->
  isfinite (time * Animation.rate a) = true ->
  exists f r,
    Animation.get_frame a time = Ok f /\
    Image.frame_rect img f = Ok r /\
    Image.get_source_rect img (RefStr s) time = Ok r.
Proof.
  intros Hdesc Ha Hfin.
  destruct (load_tile_desc_ok _ _ _ _ Hdesc) as [Hw (c & _ & Hanims)].
  destruct (Hanims _ _ Ha) as (Hmatch & Hok & _).
  destruct (get_frame_total a time Hok Hfin) as [f Hf].
  destruct (frame_rect_total img f Hw) as [r Hr].
  exists f, r. split; [exact Hf |]. split; [exact Hr |].
  rewrite (get_source_rect_of_name img s time (name_not_int s Hmatch)).
  rewrite Hmatch, Ha, Hf. simpl. exact Hr.
Qed.

End TileDescMore.

(** ** The further properties on concrete inputs *)

Section ExampleFacts.

Import Resources Scenario Examples.

Lemma find_resource_first_of_first_witness :
  let r := find_resource compile listdir "arial" FONT_EXTS resources_dirs st0 in
  r.1 = Ok (Some "res/Arial.TTF") /\
  exists rule,
    compile "arial.(fon|ttf)" = Some rule /\
    exists before root after cs_before c cs_after,
      resources_dirs = (before ++ root :: after)%list /\
      (forall d, d ∈ before -> no_match listdir rule tt d) /\
      listdir tt root = Ok (cs_before ++ c :: cs_after)%list /\
      (forall b, b ∈ cs_before -> rule b = false) /\
      rule c = true /\
      "res/Arial.TTF" = path_join root c /\
      calls r.2 = (CallListdir <$> before ++ [root])%list.
Proof.
  cbv zeta.
  assert (Hf : find_resource compile listdir "arial" FONT_EXTS resources_dirs st0
               = (Ok (Some "res/Arial.TTF"),
                  (find_resource compile listdir "arial" FONT_EXTS resources_dirs st0).2))
    by (vm_compute; reflexivity).
  split; [vm_compute; reflexivity |].
  exact (@find_resource_first_of_first unit nat Z _ _ compile listdir
           "arial" FONT_EXTS resources_dirs st0 _ _ Hf).
Defined.

Lemma get_leaves_other_keys_witness :
  ("courier", [12]) <> (lower (strip "Arial"), [12]) /\
  cache (get_font fonts "Arial" [12] false st0).2 !! ("courier", [12])
  = cache st0 !! ("courier", [12]).
Proof.
  assert (Hne : ("courier", [12]) <> (lower (strip "Arial"), [12]))
    by (vm_compute; discriminate).
  split; [exact Hne |].
  exact (@get_leaves_other_keys unit nat Z _ _ compile listdir resources_dirs fonts
           "Arial" [12] false st0 _ _ ("courier", [12])
           (surjective_pairing _) Hne).
Defined.

Lemma dispose_frees_in_insertion_order_witness :
  let st1 := (get_font sized_fonts "Arial" [14] false st0).2 in
  let st2 := (get_font sized_fonts "Arial" [12] false st1).2 in
  in_order st2 /\
  order st2 = [("arial", [14]); ("arial", [12])] /\
  calls (dispose sized_fonts st2)
  = (calls st2 ++ [CallFree 14%nat; CallFree 12%nat])%list.
Proof.
  cbv zeta.
  assert (H0 : in_order st0).
  { split; [constructor |]. intros k. split.
    - intros Hk. inversion Hk.
    - intros [r Hr]. discriminate Hr. }
  destruct (@dispose_frees_in_insertion_order unit nat Z _ _ compile listdir
              resources_dirs sized_fonts st0 H0) as (_ & _ & Hget0).
  destruct (Hget0 "Arial" [14] false _ _ (surjective_pairing _)) as [H1 _].
  destruct (@dispose_frees_in_insertion_order unit nat Z _ _ compile listdir
              resources_dirs sized_fonts _ H1) as (_ & _ & Hget1).
  destruct (Hget1 "Arial" [12] false _ _ (surjective_pairing _)) as [H2 _].
  destruct (@dispose_frees_in_insertion_order unit nat Z _ _ compile listdir
              resources_dirs sized_fonts _ H2) as (Hcalls & _ & _).
  split; [exact H2 |]. split; [vm_compute; reflexivity |].
  etransitivity; [exact Hcalls |]. vm_compute. reflexivity.
Defined.


Lemma load_resource_width_is_longest_row_witness :
  let tm := TileMap.mk "my_tiles" 4 2 [["1"; "wall"; "wall"; "wall"]; ["2"]] in
  TileMapManager.load_resource image_found two_rows tt = (Ok tm, tt) /\
  TileMap.height tm = len (TileMap.rows tm) /\
  (forall row, row ∈ TileMap.rows tm -> len row <= TileMap.width tm) /\
  (TileMap.rows tm = [] -> TileMap.width tm = 0) /\
  (TileMap.rows tm <> [] ->
   exists row, row ∈ TileMap.rows tm /\ len row = TileMap.width tm).
Proof.
  cbv zeta.
  assert (Hl : TileMapManager.load_resource image_found two_rows tt
               = (Ok (TileMap.mk "my_tiles" 4 2 [["1"; "wall"; "wall"; "wall"]; ["2"]]),
                  tt))
    by (vm_compute; reflexivity).
  split; [exact Hl |].
  exact (@load_resource_width_is_longest_row unit image_found two_rows tt tt _ Hl).
Defined.

Lemma load_resource_cells_well_formed_witness :
  let tm := TileMap.mk "my_tiles" 4 2 [["1"; "wall"; "wall"; "wall"]; ["2"]] in
  TileMapManager.load_resource image_found two_rows tt = (Ok tm, tt) /\
  ["1"; "wall"; "wall"; "wall"] ∈ TileMap.rows tm /\
  "wall" ∈ ["1"; "wall"; "wall"; "wall"] /\
  Spec.cell_ok "wall" = true.
Proof.
  cbv zeta.
  assert (Hl : TileMapManager.load_resource image_found two_rows tt
               = (Ok (TileMap.mk "my_tiles" 4 2 [["1"; "wall"; "wall"; "wall"]; ["2"]]),
                  tt))
    by (vm_compute; reflexivity).
  assert (Hrow : ["1"; "wall"; "wall"; "wall"]
                 ∈ TileMap.rows
                     (TileMap.mk "my_tiles" 4 2 [["1"; "wall"; "wall"; "wall"]; ["2"]]))
    by apply list_elem_of_here.
  assert (Hc : "wall" ∈ ["1"; "wall"; "wall"; "wall"])
    by apply list_elem_of_further, list_elem_of_here.
  split; [exact Hl |]. split; [exact Hrow |]. split; [exact Hc |].
  exact (@load_resource_cells_well_formed unit image_found two_rows tt tt _ _ _
           Hl Hrow Hc).
Defined.

Lemma load_then_get_never_raises_witness :
  let tm := TileMap.mk "my_tiles" 4 2 [["1"; "wall"; "wall"; "wall"]; ["2"]] in
  TileMapManager.load_resource image_found two_rows tt = (Ok tm, tt) /\
  1 <= TileMap.width tm /\
  exists c, TileMap.get tm 5 (-1) = Ok c /\ (c = "0" \/ Spec.cell_ok c = true).
Proof.
  cbv zeta.
  assert (Hl : TileMapManager.load_resource image_found two_rows tt
               = (Ok (TileMap.mk "my_tiles" 4 2 [["1"; "wall"; "wall"; "wall"]; ["2"]]),
                  tt))
    by (vm_compute; reflexivity).
  assert (Hw : 1 <= TileMap.width
                      (TileMap.mk "my_tiles" 4 2 [["1"; "wall"; "wall"; "wall"]; ["2"]]))
    by (simpl; lia).
  split; [exact Hl |]. split; [exact Hw |].
  exact (@load_then_get_never_raises unit image_found two_rows tt tt _ 5 (-1) Hl Hw).
Defined.

Lemma load_resource_without_directive_witness :
  Forall TileMapManager.blank comments /\
  ~ TileMapManager.blank early_row /\
  Spec.directive_head early_row = false /\
  TileMapManager.load_resource image_found comments tt = (Raise UnboundLocalError, tt) /\
  TileMapManager.load_resource image_found (comments ++ early_row :: [])%list tt
  = (Raise IOError, tt).
Proof.
  assert (Hb : Forall TileMapManager.blank comments)
    by (repeat constructor; vm_compute; reflexivity).
  assert (Hnb : ~ TileMapManager.blank early_row) by (vm_compute; discriminate).
  assert (Hd : Spec.directive_head early_row = false) by (vm_compute; reflexivity).
  split; [exact Hb |]. split; [exact Hnb |]. split; [exact Hd |].
  destruct (@load_resource_without_directive unit image_found comments [] early_row tt Hb)
    as [Hunbound Hrow].
  split; [exact Hunbound | exact (Hrow Hnb Hd)].
Defined.

Lemma get_frame_range_witness :
  Animation.get_frame walk 0.5%float = Ok 3 /\
  (Animation.loop walk = "loop" -> 1 <= 3 <= len (Animation.frames walk)) /\
  (Animation.loop walk = "none" -> 3 <= len (Animation.frames walk) + 1).
Proof.
  assert (Hf : Animation.get_frame walk 0.5%float = Ok 3) by (vm_compute; reflexivity).
  split; [exact Hf |].
  exact (get_frame_range walk 0.5%float 3 Hf).
Defined.

Lemma get_source_rect_of_looping_animation_witness :
  1 <= Image.tile_width sheet <= Image.width sheet - 2 * Image.tile_margin sheet /\
  Re.match_ Re.animation_name (lower (strip " Walk ")) = true /\
  Image.animations sheet !! lower (strip " Walk ") = Some walk /\
  isfinite (0.5 * Animation.rate walk) = true /\
  exists f,
    1 <= f <= len (Animation.frames walk) /\
    Animation.get_frame walk 0.5%float = Ok f /\
    Image.get_source_rect sheet (RefStr " Walk ") 0.5%float = Image.frame_rect sheet f /\
    Image.get_source_rect sheet (RefStr " Walk ") 0.5%float =
    Ok (SDL_Rect_of (2 + ((f - 1) mod ((100 - 2 * 2) / 16)) * (16 + 1))
                    (2 + ((f - 1) / ((100 - 2 * 2) / 16)) * (16 + 1)) 16 16).
Proof.
  assert (Hw : 1 <= Image.tile_width sheet
               <= Image.width sheet - 2 * Image.tile_margin sheet)
    by (simpl; lia).
  assert (Hm : Re.match_ Re.animation_name (lower (strip " Walk ")) = true)
    by (vm_compute; reflexivity).
  assert (Ha : Image.animations sheet !! lower (strip " Walk ") = Some walk)
    by (vm_compute; reflexivity).
  assert (Hfin : isfinite (0.5 * Animation.rate walk) = true)
    by (vm_compute; reflexivity).
  split; [exact Hw |]. split; [exact Hm |].
  split; [exact Ha |]. split; [exact Hfin |].
  assert (Hlen : 1 <= len (Animation.frames walk)) by (vm_compute; discriminate).
  exact (get_source_rect_of_looping_animation sheet " Walk " walk 0.5%float
           Hw Hm Ha eq_refl Hlen Hfin).
Defined.

Lemma load_image_geometry_witness :
  TileDesc.load_image 100 60 sheet_meta {["walk" := walk]} = Ok sheet /\
  Image.get_source_rect sheet (RefInt 1) 0.5%float = Ok (mkRect 2 2 16 16) /\
  Image.width sheet = 100 /\ Image.height sheet = 60 /\
  Image.animations sheet = {["walk" := walk]} /\
  0 <= Image.tile_margin sheet /\
  2 * Image.tile_margin sheet < Z.min 100 60 /\
  1 <= Image.tile_width sheet <= 100 - 2 * Image.tile_margin sheet /\
  1 <= Image.tile_height sheet <= 60 - 2 * Image.tile_margin sheet /\
  0 <= Image.tile_spacing sheet
    <= 100 - 2 * Image.tile_margin sheet - Image.tile_width sheet /\
  exists r,
    Image.get_source_rect sheet (RefInt 1) 0.5%float = Ok r /\
    r = SDL_Rect_of (Image.tile_margin sheet) (Image.tile_margin sheet)
                    (Image.tile_width sheet) (Image.tile_height sheet) /\
    (100 < 2 ^ 31 -> 60 < 2 ^ 31 ->
     0 <= x r /\ 0 <= y r /\ x r + w r <= 100 /\ y r + h r <= 60).
Proof.
  assert (Hl : TileDesc.load_image 100 60 sheet_meta {["walk" := walk]} = Ok sheet)
    by reflexivity.
  split; [exact Hl |]. split; [vm_compute; reflexivity |].
  exact (load_image_geometry 100 60 sheet_meta {["walk" := walk]} sheet 0.5%float Hl).
Defined.


Lemma plain_image_tiles_witness :
  Image.get_source_rect (TileDesc.plain_image 64 32) (RefInt 3) 0.5%float
  = Ok (mkRect 0 64 64 32) /\
  Image.get_source_rect (TileDesc.plain_image 64 32) (RefInt 1) 0.5%float
  = Image.get_source_rect (TileDesc.plain_image 64 32) (RefInt 0) 0.5%float.
Proof.
  destruct (plain_image_tiles 64 32 3 0.5%float ltac:(lia) ltac:(lia))
    as (_ & Hsame & Hfits).
  split; [| exact Hsame].
  exact (Hfits ltac:(lia) ltac:(lia) ltac:(lia) ltac:(lia)).
Defined.

Lemma joystick_updates_never_raise_witness :
  0 <= Joystick.NumButtons pad /\ 0 <= Joystick.NumAxes pad /\
  Forall (fun d' => Joystick.NumButtons d' = Joystick.NumButtons pad /\
                    Joystick.NumAxes d' = Joystick.NumAxes pad)
         [pad; released_pad; pad] /\
  exists l,
    Joystick.updates [pad; released_pad; pad] (Joystick.init pad) = Ok l /\
    length l = 3%nat /\
    Forall (Spec.well_sized pad) l.
Proof.
  assert (Hb : 0 <= Joystick.NumButtons pad) by (simpl; lia).
  assert (Ha : 0 <= Joystick.NumAxes pad) by (simpl; lia).
  assert (Hds : Forall (fun d' => Joystick.NumButtons d' = Joystick.NumButtons pad /\
                                  Joystick.NumAxes d' = Joystick.NumAxes pad)
                       [pad; released_pad; pad])
    by (repeat constructor).
  split; [exact Hb |]. split; [exact Ha |]. split; [exact Hds |].
  exact (joystick_updates_never_raise pad [pad; released_pad; pad] Hb Ha Hds).
Defined.

Lemma joystick_update_buttons_witness :
  let held := Joystick.mk [1; 0] [0%float] [0; 0] in
  Spec.well_sized pad (Joystick.init pad) /\
  Joystick.update pad (Joystick.init pad) = Ok held /\
  exists old,
    Joystick.buttons (Joystick.init pad) !! Z.to_nat 0 = Some old /\
    Joystick.buttons held !! Z.to_nat 0 =
    Some (if negb (Joystick.GetButton pad 0 =? 0) then old + 1 else 0).
Proof.
  cbv zeta.
  assert (Hw : Spec.well_sized pad (Joystick.init pad))
    by (repeat split; vm_compute; reflexivity).
  assert (Hu : Joystick.update pad (Joystick.init pad)
               = Ok (Joystick.mk [1; 0] [0%float] [0; 0]))
    by (vm_compute; reflexivity).
  split; [exact Hw |]. split; [exact Hu |].
  exact (joystick_update_buttons pad (Joystick.init pad) _ 0 Hw Hu
           ltac:(simpl; lia)).
Defined.

Lemma key_counters_stay_positive_witness :
  Spec.keys_positive holding_a /\
  (forall s self', InputHandler.update s holding_a = Ok self' ->
     Spec.keys_positive self' /\
     dom (InputHandler.keys self') = dom (InputHandler.keys holding_a)) /\
  (forall ev self', InputHandler.process key_a ev holding_a = Ok self' ->
     Spec.keys_positive self') /\
  (forall q, InputHandler.key holding_a q = 0
             <-> InputHandler.keys holding_a !! lower (strip q) = None).
Proof.
  assert (Hp : Spec.keys_positive holding_a).
  { intros k n Hk. unfold holding_a in Hk. simpl in Hk.
    apply lookup_singleton_Some in Hk as [_ <-]. lia. }
  split; [exact Hp |].
  exact (key_counters_stay_positive key_a holding_a Hp).
Defined.

Lemma press_release_round_trip_witness :
  InputHandler.key_name key_a 97 = Ok "a" /\
  InputHandler.keys no_input !! "a" = None /\
  InputHandler.process key_a (InputHandler.SDL_KEYUP 97) no_input = Raise KeyError /\
  exists pressed released,
    InputHandler.process key_a (InputHandler.SDL_KEYDOWN 97 false) no_input
    = Ok pressed /\
    InputHandler.keys pressed !! "a" = Some 1 /\
    InputHandler.process key_a (InputHandler.SDL_KEYUP 97) pressed = Ok released /\
    InputHandler.keys released = InputHandler.keys no_input /\
    InputHandler.process key_a (InputHandler.SDL_KEYUP 97) released = Raise KeyError.
Proof.
  assert (Hn : InputHandler.key_name key_a 97 = Ok "a") by (vm_compute; reflexivity).
  assert (Hk : InputHandler.keys no_input !! "a" = None) by (vm_compute; reflexivity).
  split; [exact Hn |]. split; [exact Hk |].
  exact (press_release_round_trip key_a no_input 97 "a" Hn Hk).
Defined.

Lemma key_name_is_normalized_witness :
  InputHandler.key_name key_a 97 = Ok "a" /\
  lower (strip "a") = "a" /\
  exists pressed,
    InputHandler.process key_a (InputHandler.SDL_KEYDOWN 97 false) holding_a
    = Ok pressed /\
    InputHandler.key pressed "a" = 1.
Proof.
  assert (Hn : InputHandler.key_name key_a 97 = Ok "a") by (vm_compute; reflexivity).
  split; [exact Hn |].
  exact (key_name_is_normalized key_a 97 "a" holding_a Hn).
Defined.

Lemma get_joystick_finds_stored_joysticks_witness :
  Joysticks.init ports = Some two_joysticks /\
  (forall i name j, Joysticks.joysticks two_joysticks !! i = Some (name, j) ->
     Joysticks.get_joystick two_joysticks (Some name) = Ok (Some j)) /\
  Joysticks.get_joystick two_joysticks None
  = Ok (Joystick.init <$> (Joysticks.opened ports).*2 !! 0%nat).
Proof.
  assert (Hi : Joysticks.init ports = Some two_joysticks) by (vm_compute; reflexivity).
  split; [exact Hi |].
  exact (get_joystick_finds_stored_joysticks ports two_joysticks Hi).
Defined.

Lemma joystick_reads_stay_in_range_witness :
  let j := Joystick.init stick in
  Forall (fun p => len (Joystick.daxis p.2) = 2 * len (Joystick.axis p.2))
         (Joysticks.joysticks two_joysticks) /\
  Joysticks.get_joystick two_joysticks None = Ok (Some j) /\
  (0 <= 1 < len (Joystick.axis j) ->
   exists v, Joystick.daxis j !! Z.to_nat (1 * 2 + 1) = Some v /\
             Joysticks.get_daxis two_joysticks 1 1 None = Ok v) /\
  (~ 0 <= 1 < len (Joystick.axis j) ->
   Joysticks.get_daxis two_joysticks 1 1 None = Ok 0) /\
  (0 <= 1 < len (Joystick.buttons j) ->
   exists v, Joystick.buttons j !! Z.to_nat 1 = Some v /\
             Joysticks.get_button two_joysticks 1 None = Ok v) /\
  (~ 0 <= 1 < len (Joystick.buttons j) ->
   Joysticks.get_button two_joysticks 1 None = Ok 0).
Proof.
  cbv zeta.
  assert (Hs : Forall (fun p => len (Joystick.daxis p.2) = 2 * len (Joystick.axis p.2))
                      (Joysticks.joysticks two_joysticks))
    by (repeat constructor).
  split; [exact Hs |]. split; [reflexivity |].
  exact (joystick_reads_stay_in_range two_joysticks 1 1 None Hs (or_intror eq_refl)).
Defined.

Lemma load_tile_desc_needs_meta_section_witness :
  Forall (fun s => strip (lower s.1) <> ".meta") no_meta_config /\
  Forall (fun s => map_Forall (fun _ value => is_ok value = true) s.2)
         no_meta_config /\
  LoadTileDesc.load_tile_desc float_of_str any_color 100 60 (Ok no_meta_config)
  = Raise IOError.
Proof.
  assert (Hn : Forall (fun s => strip (lower s.1) <> ".meta") no_meta_config)
    by (repeat constructor; vm_compute; discriminate).
  assert (Hc : Forall (fun s => map_Forall (fun _ value => is_ok value = true) s.2)
                      no_meta_config).
  { repeat constructor. intros k v Hk. simpl in Hk.
    apply lookup_singleton_Some in Hk as [_ <-]. reflexivity. }
  split; [exact Hn |]. split; [exact Hc |].
  destruct (load_tile_desc_needs_meta_section float_of_str any_color 100 60
              no_meta_config Hn) as (_ & Hclean & _).
  exact (Hclean Hc).
Defined.

Lemma loaded_animations_resolve_witness :
  LoadTileDesc.load_tile_desc float_of_str any_color 100 60 (Ok sheet_config)
  = Ok sheet /\
  Image.animations sheet !! lower (strip " Walk ") = Some walk /\
  isfinite (0.5 * Animation.rate walk) = true /\
  exists f r,
    Animation.get_frame walk 0.5%float = Ok f /\
    Image.frame_rect sheet f = Ok r /\
    Image.get_source_rect sheet (RefStr " Walk ") 0.5%float = Ok r.
Proof.
  assert (Hl : LoadTileDesc.load_tile_desc float_of_str any_color 100 60
                 (Ok sheet_config) = Ok sheet)
    by (vm_compute; reflexivity).
  assert (Ha : Image.animations sheet !! lower (strip " Walk ") = Some walk)
    by (vm_compute; reflexivity).
  assert (Hfin : isfinite (0.5 * Animation.rate walk) = true)
    by (vm_compute; reflexivity).
  split; [exact Hl |]. split; [exact Ha |]. split; [exact Hfin |].
  exact (loaded_animations_resolve float_of_str any_color 100 60 (Ok sheet_config)
           sheet " Walk " walk 0.5%float Hl Ha Hfin).
Defined.

End ExampleFacts.
